(** * geppetoaudio: the audio/protocol streaming engine

    A shallow embedding of the streaming core of [mainaudio.go] (the
    reassembler, the WAV container encoder and validator, the inbound
    dispatcher, the outbound framer and the shutdown sequence), of
    [audiotypes/types.go], and of [sendWithRetry] from [maingo.go].

    Conventions.
    - A Go [string] is a Rocq [string]; a [[]byte] is a [list byte].
    - Go's [int], [int64], [uint32] and [uint16] are [Z], with the
      wrap-around written where the source converts or adds.
    - A Go [error] result is an [option error] ([None] is [nil]).
    - Everything the program gets from outside (the file system, the
      connection, the clock, the scheduler's choice in a [select]) is an
      explicit argument or a field of the state that stands for it.
    - [log.Printf] and [fmt.Printf] diagnostics are not modelled. *)

From Stdlib Require Import ZArith List String Ascii Strings.Byte Lia Bool.
From stdpp Require Import gmap strings list pretty.
Import ListNotations.


Local Open Scope Z_scope.

(* ================================================================= *)
(** ** Go values: errors, panics, fixed-width integers                *)
(* ================================================================= *)

(** [strconv.NumError] distinguishes a syntax error from a range error. *)
Inductive NumErrKind := ErrSyntax | ErrRange.

(** Go [error] values as the program builds them: [EOF] and
    [ErrUnexpectedEOF] are the sentinels of package [io]; [ErrNew] is
    [errors.New] or [fmt.Errorf] without a wrapped cause (external
    errors are of this form too), [ErrWrap ctx e] is
    [fmt.Errorf(ctx + ": %w", e)], [ErrNum] is [*strconv.NumError]. *)
Inductive error : Type :=
| EOF
| ErrUnexpectedEOF
| ErrNew (msg : string)
| ErrWrap (context : string) (cause : error)
| ErrNum (fn num : string) (kind : NumErrKind).

(** [err == io.EOF]. *)
Definition is_EOF (err : option error) : bool :=
  match err with
  | Some EOF => true
  | _ => false
  end.

(** A call either returns or panics (a run-time panic unwinds the
    goroutine; nothing in this program recovers). *)
Inductive outcome (A : Type) : Type :=
| Returns (a : A)
| Panics (msg : string).
Arguments Returns {A} a.
Arguments Panics {A} msg.

Definition wrap32 (z : Z) : Z := z mod 2 ^ 32.

(** [int64] addition as [atomic.AddInt64] performs it. *)
Definition wrap_int64 (z : Z) : Z := (z + 2 ^ 63) mod 2 ^ 64 - 2 ^ 63.

(** The byte holding the low eight bits of [z]. *)
Definition byte_of_Z (z : Z) : byte :=
  match Byte.of_N (Z.to_N (z mod 256)) with
  | Some b => b
  | None => x00
  end.

Definition Z_of_byte (b : byte) : Z := Z.of_N (Byte.to_N b).

(** [binary.LittleEndian.PutUint16] and [PutUint32]. *)
Definition le16 (v : Z) : list byte :=
  [byte_of_Z v; byte_of_Z (Z.shiftr v 8)].

Definition le32 (v : Z) : list byte :=
  [byte_of_Z v; byte_of_Z (Z.shiftr v 8);
   byte_of_Z (Z.shiftr v 16); byte_of_Z (Z.shiftr v 24)].

(** [binary.LittleEndian.Uint16], [Uint32]: the value of a little-endian
    byte sequence. *)
Fixpoint le_decode (bs : list byte) : Z :=
  match bs with
  | [] => 0
  | b :: rest => Z.lor (Z_of_byte b) (Z.shiftl (le_decode rest) 8)
  end.

(* ================================================================= *)
(** ** Package [strings] and [strconv]                                *)
(* ================================================================= *)

(** [s[:n]] and [s[n:]]. *)
Fixpoint str_take (n : nat) (s : string) : string :=
  match n, s with
  | S n', String c s' => String c (str_take n' s')
  | _, _ => EmptyString
  end.

Fixpoint str_drop (n : nat) (s : string) : string :=
  match n, s with
  | S n', String _ s' => str_drop n' s'
  | _, _ => s
  end.

Definition HasPrefix (s prefix : string) : bool :=
  (String.length prefix <=? String.length s)%nat
  && String.eqb (str_take (String.length prefix) s) prefix.

Definition HasSuffix (s suffix : string) : bool :=
  (String.length suffix <=? String.length s)%nat
  && String.eqb (str_drop (String.length s - String.length suffix) s) suffix.

Definition TrimPrefix (s prefix : string) : string :=
  if HasPrefix s prefix then str_drop (String.length prefix) s else s.

Definition TrimSuffix (s suffix : string) : string :=
  if HasSuffix s suffix
  then str_take (String.length s - String.length suffix) s
  else s.

(** [fmt.Sprintf("%d", n)]. *)
Definition itoa (n : Z) : string := pretty n.

Definition digit_of (c : ascii) : option Z :=
  let n := Z.of_N (N_of_ascii c) in
  if (48 <=? n) && (n <=? 57) then Some (n - 48) else None.

(** The digits of an unsigned decimal numeral, most significant first. *)
Fixpoint parse_digits (s : string) (acc : Z) : option Z :=
  match s with
  | EmptyString => Some acc
  | String c s' =>
      match digit_of c with
      | Some d => parse_digits s' (acc * 10 + d)
      | None => None
      end
  end.

(** [strconv.Atoi] on a 64-bit platform: an optional sign, then one or
    more decimal digits; a value outside [int] is a range error. *)
Definition Atoi (s : string) : error + Z :=
  match s with
  | EmptyString => inl (ErrNum "Atoi" s ErrSyntax)
  | String c rest =>
      let neg := Ascii.eqb c "-" in
      let digits := if neg || Ascii.eqb c "+" then rest else s in
      match digits with
      | EmptyString => inl (ErrNum "Atoi" s ErrSyntax)
      | _ =>
          match parse_digits digits 0 with
          | None => inl (ErrNum "Atoi" s ErrSyntax)
          | Some un =>
              if neg then
                if 2 ^ 63 <? un then inl (ErrNum "Atoi" s ErrRange)
                else inr (- un)
              else
                if 2 ^ 63 <=? un then inl (ErrNum "Atoi" s ErrRange)
                else inr un
          end
      end
  end.

(** [runtime.maxAlloc] on a 64-bit platform, where the heap has 48
    address bits: the most [makeslice] lets through. *)
Definition maxAlloc : Z := 2 ^ 48.

(** What the runtime reports when the system does not give it the
    memory; it is a fatal error, which ends the program as a panic that
    nothing recovers does. *)
Definition out_of_memory : string := "fatal error: runtime: out of memory".

(** [make([]byte, size)]. [makeslice] panics for a negative length and
    for one above [maxAlloc]. Within the limit the allocator returns
    [size] zero bytes when it can get them; [avail] is the largest
    length it can provide at that moment, which the program does not
    control (an empty slice needs no memory). *)
Definition make_bytes (avail size : Z) : outcome (list byte) :=
  if (size <? 0) || (maxAlloc <? size) then Panics "makeslice: len out of range"
  else if Z.max 0 avail <? size then Panics out_of_memory
  else Returns (repeat x00 (Z.to_nat size)).

(* ================================================================= *)
(** ** Package [encoding/base64], [StdEncoding]                       *)
(* ================================================================= *)

Definition encodeStd : string :=
  "ABCDEFGHIJKLMNOPQRSTUVWXYZabcdefghijklmnopqrstuvwxyz0123456789+/".

(** [enc.encode[v & 0x3F]]. *)
Definition b64_char (v : Z) : ascii :=
  match String.get (Z.to_nat (Z.land v 63)) encodeStd with
  | Some c => c
  | None => "A"%char
  end.

(** The decode map is built from the alphabet: the position of [c]. *)
Fixpoint index_of (c : ascii) (s : string) (i : Z) : option Z :=
  match s with
  | EmptyString => None
  | String d s' => if Ascii.eqb c d then Some i else index_of c s' (i + 1)
  end.

Definition b64_value (c : ascii) : option Z := index_of c encodeStd 0.

Definition quantum (a b c : Z) : Z :=
  Z.lor (Z.lor (Z.shiftl a 16) (Z.shiftl b 8)) c.

(** [EncodeToString]: three bytes to four characters, the remainder of
    one or two bytes padded with ['=']. *)
Fixpoint EncodeToString (src : list byte) : string :=
  match src with
  | [] => EmptyString
  | [a] =>
      let val := Z.shiftl (Z_of_byte a) 16 in
      String (b64_char (Z.shiftr val 18))
        (String (b64_char (Z.shiftr val 12)) "==")
  | [a; b] =>
      let val := Z.lor (Z.shiftl (Z_of_byte a) 16) (Z.shiftl (Z_of_byte b) 8) in
      String (b64_char (Z.shiftr val 18))
        (String (b64_char (Z.shiftr val 12))
           (String (b64_char (Z.shiftr val 6)) "="))
  | a :: b :: c :: rest =>
      let val := quantum (Z_of_byte a) (Z_of_byte b) (Z_of_byte c) in
      String (b64_char (Z.shiftr val 18))
        (String (b64_char (Z.shiftr val 12))
           (String (b64_char (Z.shiftr val 6))
              (String (b64_char val) (EncodeToString rest))))
  end.

(** The decoder ignores carriage returns and line feeds. *)
Fixpoint strip_newlines (s : string) : string :=
  match s with
  | EmptyString => EmptyString
  | String c s' =>
      if Ascii.eqb c "010" || Ascii.eqb c "013" then strip_newlines s'
      else String c (strip_newlines s')
  end.

Definition sextets (v0 v1 v2 v3 : Z) : Z :=
  Z.lor (Z.lor (Z.lor (Z.shiftl v0 18) (Z.shiftl v1 12)) (Z.shiftl v2 6)) v3.

Definition is_empty (s : string) : bool :=
  match s with EmptyString => true | _ => false end.

(** Quanta of four characters; padding is accepted only in the last
    quantum, in its third and fourth or in its fourth place. *)
Fixpoint decode_quanta (s : string) : option (list byte) :=
  match s with
  | EmptyString => Some []
  | String c0 (String c1 (String c2 (String c3 rest))) =>
      match b64_value c0, b64_value c1 with
      | Some v0, Some v1 =>
          if Ascii.eqb c2 "=" then
            if Ascii.eqb c3 "=" && is_empty rest
            then Some [byte_of_Z (Z.shiftr (sextets v0 v1 0 0) 16)]
            else None
          else
            match b64_value c2 with
            | Some v2 =>
                if Ascii.eqb c3 "=" then
                  if is_empty rest
                  then Some [byte_of_Z (Z.shiftr (sextets v0 v1 v2 0) 16);
                             byte_of_Z (Z.shiftr (sextets v0 v1 v2 0) 8)]
                  else None
                else
                  match b64_value c3 with
                  | Some v3 =>
                      match decode_quanta rest with
                      | Some bs =>
                          Some (byte_of_Z (Z.shiftr (sextets v0 v1 v2 v3) 16)
                                :: byte_of_Z (Z.shiftr (sextets v0 v1 v2 v3) 8)
                                :: byte_of_Z (sextets v0 v1 v2 v3) :: bs)
                      | None => None
                      end
                  | None => None
                  end
            | None => None
            end
      | _, _ => None
      end
  | _ => None
  end.

(** [DecodeString]; the input offset in [CorruptInputError] is not
    modelled. *)
Definition DecodeString (s : string) : error + list byte :=
  match decode_quanta (strip_newlines s) with
  | Some bs => inr bs
  | None => inl (ErrNew "illegal base64 data")
  end.

(* ================================================================= *)
(** ** Files                                                          *)
(* ================================================================= *)

(** A file opened for writing: the bytes written so far, the number of
    [Write] calls made on it, and which of those calls the operating
    system fails. *)
Record OutFile := {
  of_data : list byte;
  of_writes : nat;
  of_fault : nat -> option error
}.

Definition file_Write (f : OutFile) (p : list byte) : option error * OutFile :=
  match of_fault f (of_writes f) with
  | Some e =>
      (Some e, {| of_data := of_data f; of_writes := S (of_writes f);
                  of_fault := of_fault f |})
  | None =>
      (None, {| of_data := of_data f ++ p; of_writes := S (of_writes f);
                of_fault := of_fault f |})
  end.

(** A file opened for reading: its bytes, the read position, the number
    of operations ([Stat], [Read], [Seek]) made on the handle, and which
    of those operations fail. *)
Record InFile := {
  in_data : list byte;
  in_pos : nat;
  in_ops : nat;
  in_fault : nat -> option error
}.

Definition in_tick (f : InFile) (pos : nat) : InFile :=
  {| in_data := in_data f; in_pos := pos; in_ops := S (in_ops f);
     in_fault := in_fault f |}.

(** [file.Stat()], of which the program uses [Size()]. *)
Definition file_Stat (f : InFile) : (error + Z) * InFile :=
  match in_fault f (in_ops f) with
  | Some e => (inl e, in_tick f (in_pos f))
  | None => (inr (Z.of_nat (length (in_data f))), in_tick f (in_pos f))
  end.

(** [file.Seek(offset, io.SeekStart)]. *)
Definition file_Seek (f : InFile) (offset : nat) : option error * InFile :=
  match in_fault f (in_ops f) with
  | Some e => (Some e, in_tick f (in_pos f))
  | None => (None, in_tick f offset)
  end.

(** [file.Read(buf)] with [len(buf) = n]: at the end of the file it
    returns [0, io.EOF]; otherwise the bytes available, at most [n]. *)
Definition file_Read (f : InFile) (n : nat) : (list byte * option error) * InFile :=
  match in_fault f (in_ops f) with
  | Some e => (([], Some e), in_tick f (in_pos f))
  | None =>
      let avail := drop (in_pos f) (in_data f) in
      match avail with
      | [] => (([], Some EOF), in_tick f (in_pos f))
      | _ => let p := take n avail in
             ((p, None), in_tick f (in_pos f + length p))
      end
  end.

(** [io.ReadFull(file, buf)] with [len(buf) = n], as [binary.Read] calls
    it: all [n] bytes or an error. *)
Definition file_ReadFull (f : InFile) (n : nat) : (error + list byte) * InFile :=
  match in_fault f (in_ops f) with
  | Some e => (inl e, in_tick f (in_pos f))
  | None =>
      let avail := drop (in_pos f) (in_data f) in
      if (n <=? length avail)%nat
      then (inr (take n avail), in_tick f (in_pos f + n))
      else (inl (match avail with [] => EOF | _ => ErrUnexpectedEOF end),
            in_tick f (length (in_data f)))
  end.

(** The part of the file system the program touches: the files by path
    and the faults [os.Open], [os.Create], [os.WriteFile] and the
    operations on an opened file meet. *)
Record FileSystem := {
  fs_files : gmap string (list byte);
  fs_create_fault : string -> option error;
  fs_write_fault : string -> nat -> option error;
  fs_read_fault : string -> nat -> option error
}.

Definition fs_put (fs : FileSystem) (path : string) (data : list byte) : FileSystem :=
  {| fs_files := <[path := data]> (fs_files fs);
     fs_create_fault := fs_create_fault fs;
     fs_write_fault := fs_write_fault fs;
     fs_read_fault := fs_read_fault fs |}.

(** [os.Create(path)]: the file exists and is empty afterwards. *)
Definition os_Create (fs : FileSystem) (path : string)
  : (error + OutFile) * FileSystem :=
  match fs_create_fault fs path with
  | Some e => (inl e, fs)
  | None =>
      (inr {| of_data := []; of_writes := 0%nat;
              of_fault := fs_write_fault fs path |},
       fs_put fs path [])
  end.

(** [os.Open(path)]. *)
Definition os_Open (fs : FileSystem) (path : string) : error + InFile :=
  match fs_files fs !! path with
  | None => inl (ErrNew ("open " +:+ path +:+ ": no such file or directory"))
  | Some data =>
      inr {| in_data := data; in_pos := 0%nat; in_ops := 0%nat;
             in_fault := fs_read_fault fs path |}
  end.

(* ================================================================= *)
(** ** The WAV container: [writeWAVHeader] and [validateWAVFormat]    *)
(* ================================================================= *)

(** The values [binary.Write] is given in [writeWAVHeader]. *)
Inductive header_field :=
| Tag (s : string)      (* [4]byte *)
| Uint32 (v : Z)
| Uint16 (v : Z).

Definition encode_field (v : header_field) : list byte :=
  match v with
  | Tag s => list_byte_of_string s
  | Uint32 v => le32 v
  | Uint16 v => le16 v
  end.

(** [binary.Write(file, binary.LittleEndian, v)]: one [Write] call. *)
Definition binary_Write (file : OutFile) (v : header_field)
  : option error * OutFile :=
  file_Write file (encode_field v).

Definition header_fields (dataSize : Z) : list header_field :=
  [ Tag "RIFF";
    Uint32 (wrap32 (dataSize + 36));
    Tag "WAVE";
    Tag "fmt ";
    Uint32 16;      (* Size of fmt chunk *)
    Uint16 1;       (* Audio format (PCM) *)
    Uint16 1;       (* Number of channels (mono) *)
    Uint32 24000;   (* Sample rate *)
    Uint32 48000;   (* Byte rate *)
    Uint16 2;       (* Block align *)
    Uint16 16;      (* Bits per sample *)
    Tag "data";
    Uint32 dataSize ].

Fixpoint write_fields (file : OutFile) (header : list header_field)
  : option error * OutFile :=
  match header with
  | [] => (None, file)
  | v :: rest =>
      match binary_Write file v with
      | (Some err, file') => (Some err, file')
      | (None, file') => write_fields file' rest
      end
  end.

(** [writeWAVHeader(file, dataSize)], [dataSize] a [uint32]. *)
Definition writeWAVHeader (file : OutFile) (dataSize : Z)
  : option error * OutFile :=
  write_fields file (header_fields dataSize).

Record WAVHeader := {
  ChunkID : list byte;
  ChunkSize : Z;
  Format : list byte;
  Subchunk1ID : list byte;
  Subchunk1Size : Z;
  AudioFormat : Z;
  NumChannels : Z;
  SampleRate : Z;
  ByteRate : Z;
  BlockAlign : Z;
  BitsPerSample : Z
}.

Definition headerSize : nat := 36.

Definition slice (i j : nat) (bs : list byte) : list byte :=
  take (j - i) (drop i bs).

(** [binary.Read] into a [WAVHeader]: the fields in declaration order,
    little-endian, 36 bytes in all. *)
Definition decode_WAVHeader (bs : list byte) : WAVHeader :=
  {| ChunkID := slice 0 4 bs;
     ChunkSize := le_decode (slice 4 8 bs);
     Format := slice 8 12 bs;
     Subchunk1ID := slice 12 16 bs;
     Subchunk1Size := le_decode (slice 16 20 bs);
     AudioFormat := le_decode (slice 20 22 bs);
     NumChannels := le_decode (slice 22 24 bs);
     SampleRate := le_decode (slice 24 28 bs);
     ByteRate := le_decode (slice 28 32 bs);
     BlockAlign := le_decode (slice 32 34 bs);
     BitsPerSample := le_decode (slice 34 36 bs) |}.

Definition tag_is (bs : list byte) (s : string) : bool :=
  String.eqb (string_of_list_byte bs) s.

(** The checks of [validateWAVFormat] on the header read. *)
Definition validate_header (header : WAVHeader) : option error :=
  if negb (tag_is (ChunkID header) "RIFF")
     || negb (tag_is (Format header) "WAVE")
     || negb (tag_is (Subchunk1ID header) "fmt ")
  then Some (ErrNew "invalid WAV format")
  else if negb (AudioFormat header =? 1)
  then Some (ErrNew ("audio must be PCM format (got format: "
                     +:+ itoa (AudioFormat header) +:+ ")"))
  else if negb (BitsPerSample header =? 16)
  then Some (ErrNew ("audio must be 16-bit (got "
                     +:+ itoa (BitsPerSample header) +:+ " bits)"))
  else if negb (NumChannels header =? 1)
  then Some (ErrNew ("audio must be mono (got "
                     +:+ itoa (NumChannels header) +:+ " channels)"))
  else if negb (SampleRate header =? 24000)
  then Some (ErrNew ("sample rate must be 24000Hz (got "
                     +:+ itoa (SampleRate header) +:+ "Hz)"))
  else None.

(** [validateWAVFormat]: read the header, reset the file pointer to the
    beginning, validate the format. *)
Definition validateWAVFormat (file : InFile) : option error * InFile :=
  match file_ReadFull file headerSize with
  | (inl err, file1) => (Some (ErrWrap "read WAV header" err), file1)
  | (inr bs, file1) =>
      let header := decode_WAVHeader bs in
      match file_Seek file1 0 with
      | (Some err, file2) => (Some (ErrWrap "reset file position" err), file2)
      | (None, file2) => (validate_header header, file2)
      end
  end.

(** The bytes [writeWAVHeader] writes when no write fails. *)
Definition wav_header (dataSize : Z) : list byte :=
  concat (map encode_field (header_fields dataSize)).

Definition no_write_fault (file : OutFile) : Prop :=
  forall k, of_fault file k = None.

(** The four rejection reasons of [validate_header], by the value found
    in the field. *)
Definition reason_format (v : Z) : error :=
  ErrNew ("audio must be PCM format (got format: " +:+ itoa v +:+ ")").
Definition reason_channels (v : Z) : error :=
  ErrNew ("audio must be mono (got " +:+ itoa v +:+ " channels)").
Definition reason_rate (v : Z) : error :=
  ErrNew ("sample rate must be 24000Hz (got " +:+ itoa v +:+ "Hz)").
Definition reason_bits (v : Z) : error :=
  ErrNew ("audio must be 16-bit (got " +:+ itoa v +:+ " bits)").

(** A file with no pending fault, as [os.Create] and [os.Open] return it
    on a healthy file system. *)
Definition new_file : OutFile :=
  {| of_data := []; of_writes := 0%nat; of_fault := fun _ => None |}.

Definition opened (data : list byte) : InFile :=
  {| in_data := data; in_pos := 0%nat; in_ops := 0%nat;
     in_fault := fun _ => None |}.

(** The bytes [bs] with [new] written over them at offset [off]. *)
Definition overwrite (off : nat) (new : list byte) (bs : list byte) : list byte :=
  take off bs ++ new ++ drop (off + length new) bs.

(* ================================================================= *)
(** ** Package [audiotypes]                                           *)
(* ================================================================= *)

Module audiotypes.

(** Durations are in seconds. *)
Record ClientConfig := {
  ReadTimeout : Z;
  WriteTimeout : Z;
  PingInterval : Z;
  MaxRetries : Z;
  BufferSize : Z;
  ShutdownTimeout : Z;
  AudioOutputDir : string
}.

Record AudioChunk := {
  ResponseID : string;
  ItemID : string;
  OutputIndex : Z;
  ContentIndex : Z;
  Data : list byte
}.

Record AudioMessage := {
  Transcript : string;
  AudioData : list byte;
  Complete : bool
}.

(** The counters of [Metrics]; the latency samples are not modelled. *)
Record Metrics := {
  MessagesSent : Z;
  MessagesReceived : Z;
  Errors : Z;
  AudioChunks : Z
}.

Definition RecordError (m : Metrics) : Metrics :=
  {| MessagesSent := MessagesSent m; MessagesReceived := MessagesReceived m;
     Errors := wrap_int64 (Errors m + 1); AudioChunks := AudioChunks m |}.

Definition RecordAudioChunk (m : Metrics) : Metrics :=
  {| MessagesSent := MessagesSent m; MessagesReceived := MessagesReceived m;
     Errors := Errors m; AudioChunks := wrap_int64 (AudioChunks m + 1) |}.

Definition RecordSent (m : Metrics) : Metrics :=
  {| MessagesSent := wrap_int64 (MessagesSent m + 1);
     MessagesReceived := MessagesReceived m;
     Errors := Errors m; AudioChunks := AudioChunks m |}.

(** The structured log: one entry per event, of which the direction and
    the event type are kept. *)
Record Logger := {
  Entries : list (string * string);
  Closed : bool
}.

(** [Logger.Log]: an encoding error on a closed file is reported and
    otherwise ignored. *)
Definition Log (l : Logger) (direction msgType : string) : Logger :=
  if Closed l then l
  else {| Entries := Entries l ++ [(direction, msgType)]; Closed := false |}.

Definition Close (l : Logger) : Logger :=
  {| Entries := Entries l; Closed := true |}.

(** One element of [CompleteResponse.Response.Output[i].Content]. *)
Record OutputContent := {
  ContentType : string;
  ContentTranscript : string
}.

Record OutputItem := {
  OutputID : string;
  Content : list OutputContent
}.

Record CompleteResponse := {
  ResponseIDOf : string;       (* Response.ID *)
  Output : list OutputItem
}.

End audiotypes.
Import audiotypes.

(* ================================================================= *)
(** ** The connection and the client                                  *)
(* ================================================================= *)

Record ContentItem := {
  ContentItemType : string;
  Text : string;
  AudioRef : string
}.

(** The JSON events the client writes, by their fields. *)
Inductive WireMsg :=
| ConversationItem (type itemType role : string) (content : list ContentItem)
| AudioAppend (type event_id audio : string)
| AudioCommit (type event_id : string)
| ResponseCreate (type : string).

Definition msg_type (m : WireMsg) : string :=
  match m with
  | ConversationItem t _ _ _ => t
  | AudioAppend t _ _ => t
  | AudioCommit t _ => t
  | ResponseCreate t => t
  end.

(** The websocket connection as the sender sees it: the JSON messages
    written so far, the number of [WriteJSON] attempts, which attempts
    the transport fails, the number of [SetWriteDeadline] calls, the
    close frames written by [WriteControl], and whether it is closed. *)
Record WSConn := {
  conn_sent : list WireMsg;
  conn_attempts : nat;
  conn_fault : nat -> option error;
  conn_deadlines : nat;
  conn_close_frames : nat;
  conn_closed : bool
}.

Definition WriteJSON (conn : WSConn) (m : WireMsg) : option error * WSConn :=
  match conn_fault conn (conn_attempts conn) with
  | Some e =>
      (Some e, {| conn_sent := conn_sent conn;
                  conn_attempts := S (conn_attempts conn);
                  conn_fault := conn_fault conn;
                  conn_deadlines := conn_deadlines conn;
                  conn_close_frames := conn_close_frames conn;
                  conn_closed := conn_closed conn |})
  | None =>
      (None, {| conn_sent := conn_sent conn ++ [m];
                conn_attempts := S (conn_attempts conn);
                conn_fault := conn_fault conn;
                conn_deadlines := conn_deadlines conn;
                conn_close_frames := conn_close_frames conn;
                conn_closed := conn_closed conn |})
  end.

Definition SetWriteDeadline (conn : WSConn) : WSConn :=
  {| conn_sent := conn_sent conn; conn_attempts := conn_attempts conn;
     conn_fault := conn_fault conn; conn_deadlines := S (conn_deadlines conn);
     conn_close_frames := conn_close_frames conn;
     conn_closed := conn_closed conn |}.

(** [WriteControl(websocket.CloseMessage, ...)] followed by [Close()]. *)
Definition WriteCloseFrame (conn : WSConn) : WSConn :=
  {| conn_sent := conn_sent conn; conn_attempts := conn_attempts conn;
     conn_fault := conn_fault conn; conn_deadlines := conn_deadlines conn;
     conn_close_frames := S (conn_close_frames conn);
     conn_closed := conn_closed conn |}.

Definition ConnClose (conn : WSConn) : WSConn :=
  {| conn_sent := conn_sent conn; conn_attempts := conn_attempts conn;
     conn_fault := conn_fault conn; conn_deadlines := conn_deadlines conn;
     conn_close_frames := conn_close_frames conn;
     conn_closed := true |}.

(** What the shutdown sequence does, in the order it does it. *)
Inductive LifecycleEvent :=
| EvCloseDone
| EvWriteCloseFrame
| EvConnClose
| EvLoggerClose
| EvTasksJoined
| EvCloseMessageChannel
| EvCloseDisplayChannel
| EvCloseAudioChannel
| EvCloseComplete
| EvShutdownCompleted
| EvShutdownTimedOut.

Global Instance LifecycleEvent_eq_dec : EqDecision LifecycleEvent.
Proof. solve_decision. Defined.

(** The goroutine [shutdown] starts: not started, blocked in
    [c.WG.Wait()], or finished. *)
Inductive CloserState := CloserNotStarted | CloserWaiting | CloserFinished.

(** [audiotypes.ChatClient] (which the local [ChatClient] embeds). A
    channel is the queue of values in it and whether it is closed;
    [Done] holds whether the done channel is closed; [ShutdownOnce]
    whether the [sync.Once] has fired; [WG] the wait group's counter.
    [Closer], [Sleeps] (the [time.Sleep] calls, in seconds) and [Events]
    (the shutdown steps performed so far) record what the program did. *)
Record ChatClient := {
  Conn : WSConn;
  MessageChannelClosed : bool;
  DisplayChannelClosed : bool;
  AudioChannel : list AudioChunk;
  AudioChannelClosed : bool;
  Done : bool;
  ShutdownOnce : bool;
  WG : nat;
  Logger : audiotypes.Logger;
  Config : audiotypes.ClientConfig;
  Metrics : audiotypes.Metrics;
  AudioBuffer : gmap string (option AudioMessage);
  Closer : CloserState;
  Sleeps : list Z;
  Events : list LifecycleEvent
}.

Definition with_Conn (c : ChatClient) (v : WSConn) : ChatClient :=
  {| Conn := v; MessageChannelClosed := MessageChannelClosed c;
     DisplayChannelClosed := DisplayChannelClosed c;
     AudioChannel := AudioChannel c; AudioChannelClosed := AudioChannelClosed c;
     Done := Done c; ShutdownOnce := ShutdownOnce c; WG := WG c;
     Logger := Logger c; Config := Config c; Metrics := Metrics c;
     AudioBuffer := AudioBuffer c; Closer := Closer c; Sleeps := Sleeps c;
     Events := Events c |}.

Definition with_AudioChannel (c : ChatClient) (v : list AudioChunk) : ChatClient :=
  {| Conn := Conn c; MessageChannelClosed := MessageChannelClosed c;
     DisplayChannelClosed := DisplayChannelClosed c;
     AudioChannel := v; AudioChannelClosed := AudioChannelClosed c;
     Done := Done c; ShutdownOnce := ShutdownOnce c; WG := WG c;
     Logger := Logger c; Config := Config c; Metrics := Metrics c;
     AudioBuffer := AudioBuffer c; Closer := Closer c; Sleeps := Sleeps c;
     Events := Events c |}.

Definition with_Logger (c : ChatClient) (v : audiotypes.Logger) : ChatClient :=
  {| Conn := Conn c; MessageChannelClosed := MessageChannelClosed c;
     DisplayChannelClosed := DisplayChannelClosed c;
     AudioChannel := AudioChannel c; AudioChannelClosed := AudioChannelClosed c;
     Done := Done c; ShutdownOnce := ShutdownOnce c; WG := WG c;
     Logger := v; Config := Config c; Metrics := Metrics c;
     AudioBuffer := AudioBuffer c; Closer := Closer c; Sleeps := Sleeps c;
     Events := Events c |}.

Definition with_Metrics (c : ChatClient) (v : audiotypes.Metrics) : ChatClient :=
  {| Conn := Conn c; MessageChannelClosed := MessageChannelClosed c;
     DisplayChannelClosed := DisplayChannelClosed c;
     AudioChannel := AudioChannel c; AudioChannelClosed := AudioChannelClosed c;
     Done := Done c; ShutdownOnce := ShutdownOnce c; WG := WG c;
     Logger := Logger c; Config := Config c; Metrics := v;
     AudioBuffer := AudioBuffer c; Closer := Closer c; Sleeps := Sleeps c;
     Events := Events c |}.

Definition with_AudioBuffer (c : ChatClient)
    (v : gmap string (option AudioMessage)) : ChatClient :=
  {| Conn := Conn c; MessageChannelClosed := MessageChannelClosed c;
     DisplayChannelClosed := DisplayChannelClosed c;
     AudioChannel := AudioChannel c; AudioChannelClosed := AudioChannelClosed c;
     Done := Done c; ShutdownOnce := ShutdownOnce c; WG := WG c;
     Logger := Logger c; Config := Config c; Metrics := Metrics c;
     AudioBuffer := v; Closer := Closer c; Sleeps := Sleeps c;
     Events := Events c |}.

Definition with_Sleeps (c : ChatClient) (v : list Z) : ChatClient :=
  {| Conn := Conn c; MessageChannelClosed := MessageChannelClosed c;
     DisplayChannelClosed := DisplayChannelClosed c;
     AudioChannel := AudioChannel c; AudioChannelClosed := AudioChannelClosed c;
     Done := Done c; ShutdownOnce := ShutdownOnce c; WG := WG c;
     Logger := Logger c; Config := Config c; Metrics := Metrics c;
     AudioBuffer := AudioBuffer c; Closer := Closer c; Sleeps := v;
     Events := Events c |}.

(** [c.Logger.Log(direction, msgType, content)]. *)
Definition log_event (c : ChatClient) (direction msgType : string) : ChatClient :=
  with_Logger c (Log (Logger c) direction msgType).

(* ================================================================= *)
(** ** The inbound audio reassembler                                  *)
(* ================================================================= *)

(** [fmt.Sprintf("%s_%s", responseID, itemID)]. *)
Definition audioKeyOf (responseID itemID : string) : string :=
  responseID +:+ "_" +:+ itemID.

Definition append_audio (data : list byte) (slot : option AudioMessage)
  : option AudioMessage :=
  match slot with
  | Some m => Some {| Transcript := Transcript m;
                      AudioData := AudioData m ++ data;
                      Complete := Complete m |}
  | None => None
  end.

(** [handleAudioChunk]. An entry of [AudioBuffer] is a pointer: [None]
    under a key is the nil pointer. *)
Definition handleAudioChunk (c : ChatClient) (chunk : AudioChunk) : ChatClient :=
  let audioKey := audioKeyOf (ResponseID chunk) (ItemID chunk) in
  let buffer :=
    match AudioBuffer c !! audioKey with
    | Some (Some _) => AudioBuffer c
    | _ => <[audioKey := Some {| Transcript := ""; AudioData := [];
                                 Complete := false |}]> (AudioBuffer c)
    end in
  let buffer := alter (append_audio (Data chunk)) audioKey buffer in
  with_Metrics (with_AudioBuffer c buffer) (RecordAudioChunk (Metrics c)).

(** [saveAudioOnly]. The bytes of the created file are those written
    before the function returns. *)
Definition saveAudioOnly (c : ChatClient) (fs : FileSystem)
    (responseID itemID filepath : string)
  : option error * ChatClient * FileSystem :=
  let audioKey := audioKeyOf responseID itemID in
  match AudioBuffer c !! audioKey with
  | Some (Some audio) =>
      let audioData := AudioData audio in
      if (length audioData =? 0)%nat
      then (Some (ErrNew ("empty audio data for key: " +:+ audioKey)), c, fs)
      else
        match os_Create fs filepath with
        | (inl err, fs1) => (Some (ErrWrap "create audio file" err), c, fs1)
        | (inr file, fs1) =>
            match writeWAVHeader file (wrap32 (Z.of_nat (length audioData))) with
            | (Some err, file1) =>
                (Some (ErrWrap "write WAV header" err), c,
                 fs_put fs1 filepath (of_data file1))
            | (None, file1) =>
                match file_Write file1 audioData with
                | (Some err, file2) =>
                    (Some (ErrWrap "write audio data" err), c,
                     fs_put fs1 filepath (of_data file2))
                | (None, file2) =>
                    (* Clean up the buffer *)
                    (None,
                     with_AudioBuffer c (delete audioKey (AudioBuffer c)),
                     fs_put fs1 filepath (of_data file2))
                end
            end
        end
  | _ => (Some (ErrNew ("no audio data found for key: " +:+ audioKey)), c, fs)
  end.

(** The bytes accumulated under a key ([[]] when there is no buffer). *)
Definition buffered (c : ChatClient) (audioKey : string) : list byte :=
  match AudioBuffer c !! audioKey with
  | Some (Some m) => AudioData m
  | _ => []
  end.

(** The stream a fragment belongs to: its [(responseID, itemID)]. *)
Definition stream_of (chunk : AudioChunk) : string * string :=
  (ResponseID chunk, ItemID chunk).

Definition stream_key (stream : string * string) : string :=
  audioKeyOf (fst stream) (snd stream).

(** The payloads of the fragments of [stream], in delivery order. *)
Definition payloads_of (stream : string * string) (chunks : list AudioChunk)
  : list byte :=
  concat (map Data (filter (fun chunk => stream_of chunk = stream) chunks)).

(** Fragments handed to [handleAudioChunk] one after the other. *)
Definition deliver (c : ChatClient) (chunks : list AudioChunk) : ChatClient :=
  foldl handleAudioChunk c chunks.

(** [DefaultConfig] of [mainaudio.go]. *)
Definition DefaultConfig : ClientConfig :=
  {| ReadTimeout := 180; WriteTimeout := 60; PingInterval := 20;
     MaxRetries := 3; BufferSize := 100; ShutdownTimeout := 5;
     AudioOutputDir := "audio_output" |}.

Definition dial (fault : nat -> option error) : WSConn :=
  {| conn_sent := []; conn_attempts := 0%nat; conn_fault := fault;
     conn_deadlines := 0%nat; conn_close_frames := 0%nat;
     conn_closed := false |}.

(** [NewChatClient]: the client with its audio processing routine
    started (hence the wait group's counter at 1). *)
Definition NewChatClient (conn : WSConn) (config : ClientConfig) : ChatClient :=
  {| Conn := conn;
     MessageChannelClosed := false;
     DisplayChannelClosed := false;
     AudioChannel := [];
     AudioChannelClosed := false;
     Done := false;
     ShutdownOnce := false;
     WG := 1%nat;
     Logger := {| Entries := []; Closed := false |};
     Config := config;
     Metrics := {| MessagesSent := 0; MessagesReceived := 0; Errors := 0;
                   AudioChunks := 0 |};
     AudioBuffer := ∅;
     Closer := CloserNotStarted;
     Sleeps := [];
     Events := [] |}.

(** A file system on which nothing fails. *)
Definition healthy_fs (files : gmap string (list byte)) : FileSystem :=
  {| fs_files := files;
     fs_create_fault := fun _ => None;
     fs_write_fault := fun _ _ => None;
     fs_read_fault := fun _ _ => None |}.

(** The artifact of a drained stream: the header for the payload's size,
    then the payload. *)
Definition wav_file (data : list byte) : list byte :=
  (wav_header (wrap32 (Z.of_nat (length data))) ++ data).

Definition fragment (stream : string * string) (data : list byte) : AudioChunk :=
  {| ResponseID := fst stream; ItemID := snd stream;
     OutputIndex := 0; ContentIndex := 0; Data := data |}.

(* ================================================================= *)
(** ** The lifecycle: [shutdown] and the wait group                   *)
(* ================================================================= *)

Definition with_WG (c : ChatClient) (v : nat) : ChatClient :=
  {| Conn := Conn c; MessageChannelClosed := MessageChannelClosed c;
     DisplayChannelClosed := DisplayChannelClosed c;
     AudioChannel := AudioChannel c; AudioChannelClosed := AudioChannelClosed c;
     Done := Done c; ShutdownOnce := ShutdownOnce c; WG := v;
     Logger := Logger c; Config := Config c; Metrics := Metrics c;
     AudioBuffer := AudioBuffer c; Closer := Closer c; Sleeps := Sleeps c;
     Events := Events c |}.

(** [close(c.Done)]. *)
Definition close_Done (c : ChatClient) : ChatClient :=
  {| Conn := Conn c; MessageChannelClosed := MessageChannelClosed c;
     DisplayChannelClosed := DisplayChannelClosed c;
     AudioChannel := AudioChannel c; AudioChannelClosed := AudioChannelClosed c;
     Done := true; ShutdownOnce := ShutdownOnce c; WG := WG c;
     Logger := Logger c; Config := Config c; Metrics := Metrics c;
     AudioBuffer := AudioBuffer c; Closer := Closer c; Sleeps := Sleeps c;
     Events := Events c ++ [EvCloseDone] |}.

(** The goroutine of [shutdown] up to [c.WG.Wait()]: the close frame,
    [c.Conn.Close()], [c.Logger.Close()]. *)
Definition closer_start (c : ChatClient) : ChatClient :=
  {| Conn := ConnClose (WriteCloseFrame (Conn c));
     MessageChannelClosed := MessageChannelClosed c;
     DisplayChannelClosed := DisplayChannelClosed c;
     AudioChannel := AudioChannel c; AudioChannelClosed := AudioChannelClosed c;
     Done := Done c; ShutdownOnce := ShutdownOnce c; WG := WG c;
     Logger := Close (Logger c); Config := Config c; Metrics := Metrics c;
     AudioBuffer := AudioBuffer c; Closer := CloserWaiting; Sleeps := Sleeps c;
     Events := Events c ++ [EvWriteCloseFrame; EvConnClose; EvLoggerClose] |}.

(** The goroutine of [shutdown] once [c.WG.Wait()] has returned: the
    three channels and [complete] are closed. *)
Definition closer_finish (c : ChatClient) : ChatClient :=
  {| Conn := Conn c; MessageChannelClosed := true;
     DisplayChannelClosed := true;
     AudioChannel := AudioChannel c; AudioChannelClosed := true;
     Done := Done c; ShutdownOnce := ShutdownOnce c; WG := WG c;
     Logger := Logger c; Config := Config c; Metrics := Metrics c;
     AudioBuffer := AudioBuffer c; Closer := CloserFinished; Sleeps := Sleeps c;
     Events := Events c ++ [EvTasksJoined; EvCloseMessageChannel;
                            EvCloseDisplayChannel; EvCloseAudioChannel;
                            EvCloseComplete] |}.

Definition closer_waiting (c : ChatClient) : bool :=
  match Closer c with CloserWaiting => true | _ => false end.

Definition closer_finished (c : ChatClient) : bool :=
  match Closer c with CloserFinished => true | _ => false end.

(** [c.WG.Done()], as a task's deferred call: the counter goes down, and
    at zero a goroutine blocked in [c.WG.Wait()] goes on. (On a counter
    already at zero Go panics; no task of the program does that.) *)
Definition WG_Done (c : ChatClient) : ChatClient :=
  let c := with_WG c (Nat.pred (WG c)) in
  if (WG c =? 0)%nat && closer_waiting c then closer_finish c else c.

Definition set_ShutdownOnce (c : ChatClient) (ev : LifecycleEvent) : ChatClient :=
  {| Conn := Conn c; MessageChannelClosed := MessageChannelClosed c;
     DisplayChannelClosed := DisplayChannelClosed c;
     AudioChannel := AudioChannel c; AudioChannelClosed := AudioChannelClosed c;
     Done := Done c; ShutdownOnce := true; WG := WG c;
     Logger := Logger c; Config := Config c; Metrics := Metrics c;
     AudioBuffer := AudioBuffer c; Closer := Closer c; Sleeps := Sleeps c;
     Events := Events c ++ [ev] |}.

(** [shutdown]. The body runs under [c.ShutdownOnce.Do]: a call that
    finds the once fired returns (after the first call has returned).
    What the other goroutines do while the body waits in its [select] is
    given by [exited], the number of tasks that report completion during
    the wait, and [timer_first], whether the timeout fires before
    [complete] is closed. The goroutine started by the body is taken to
    reach [c.WG.Wait()] before the [select] is decided; when the wait
    times out it stays blocked there and goes on at the [WG_Done] that
    brings the counter to zero. *)
Definition shutdown (c : ChatClient) (exited : nat) (timer_first : bool)
  : ChatClient :=
  if ShutdownOnce c then c
  else
    let c := close_Done c in
    let c := closer_start c in
    let c := if (WG c =? 0)%nat then closer_finish c
             else Nat.iter (Nat.min exited (WG c)) WG_Done c in
    if closer_finished c && negb timer_first
    then set_ShutdownOnce c EvShutdownCompleted
    else set_ShutdownOnce c EvShutdownTimedOut.

(** What happens to the lifecycle from outside the body of [shutdown]:
    some trigger calls [shutdown], or a task reports completion. *)
Inductive LifecycleStep :=
| Invoke (exited : nat) (timer_first : bool)
| TaskExit.

Definition lifecycle_step (c : ChatClient) (s : LifecycleStep) : ChatClient :=
  match s with
  | Invoke exited timer_first => shutdown c exited timer_first
  | TaskExit => WG_Done c
  end.

Definition lifecycle_run (c : ChatClient) (steps : list LifecycleStep)
  : ChatClient :=
  foldl lifecycle_step c steps.

Definition is_Invoke (s : LifecycleStep) : bool :=
  match s with Invoke _ _ => true | TaskExit => false end.

(** The number of times an event occurs. *)
Definition occurrences (ev : LifecycleEvent) (events : list LifecycleEvent) : nat :=
  length (filter (fun e => e = ev) events).

(* ================================================================= *)
(** ** The dispatcher: [handleAudioResponse], [receiveRoutine]        *)
(* ================================================================= *)

(** The fields [handleAudioResponse] unmarshals from the frame. *)
Record AudioDeltaMsg := {
  msg_Type : string;
  msg_ResponseID : string;
  msg_ItemID : string;
  msg_OutputIndex : Z;
  msg_ContentIndex : Z;
  msg_Delta : string
}.

(** The payload of a delta: the sentinel ["[trimmed: N bytes]"] stands
    for [N] zero bytes, anything else is base64. *)
Definition decode_delta (avail : Z) (delta : string)
  : outcome (error + list byte) :=
  let data := delta in
  if HasPrefix data "[trimmed: " && HasSuffix data " bytes]" then
    let data := TrimPrefix data "[trimmed: " in
    let data := TrimSuffix data " bytes]" in
    match Atoi data with
    | inl err => Returns (inl (ErrWrap "parse audio size" err))
    | inr size =>
        match make_bytes avail size with
        | Panics msg => Panics msg
        | Returns processedData => Returns (inr processedData)
        end
    end
  else
    match DecodeString delta with
    | inl err => Returns (inl (ErrWrap "decode audio data" err))
    | inr processedData => Returns (inr processedData)
    end.

(** The capacity of [AudioChannel], as [NewChatClient] makes it. *)
Definition audioChannelCap : nat := 100.

Inductive RoutineStatus := Running | Exited.

(** One turn of the loop of [audioProcessingRoutine]: the [select]
    between the done channel and [AudioChannel]. With both ready the
    scheduler chooses ([pick_done]); with neither the routine stays
    blocked. *)
Definition audioProcessingStep (c : ChatClient) (pick_done : bool)
  : RoutineStatus * ChatClient :=
  match AudioChannel c with
  | chunk :: rest =>
      if Done c && pick_done then (Exited, WG_Done c)
      else (Running, handleAudioChunk (with_AudioChannel c rest) chunk)
  | [] =>
      if Done c || AudioChannelClosed c then (Exited, WG_Done c)
      else (Running, c)
  end.

(** The routine taking every fragment that is queued, the done channel
    being open or never chosen. *)
Definition audioProcessingRun (c : ChatClient) : ChatClient :=
  foldl (fun c' _ => snd (audioProcessingStep c' false)) c (AudioChannel c).

(** Everything queued, handed to [handleAudioChunk] in order. *)
Definition flush (c : ChatClient) : ChatClient :=
  deliver (with_AudioChannel c []) (AudioChannel c).

(** [handleAudioResponse], given what [json.Unmarshal] made of the
    frame. The final [select] sends the fragment when the channel has
    room; when it is full and the done channel is open, the send waits
    for the processing routine to take one fragment; with the done
    channel closed and room in the channel the scheduler chooses. *)
Definition handleAudioResponse (c : ChatClient) (avail : Z) (pick_done : bool)
    (unmarshalled : error + AudioDeltaMsg)
  : outcome (option error * ChatClient) :=
  match unmarshalled with
  | inl err => Returns (Some (ErrWrap "unmarshal audio message" err), c)
  | inr audioMsg =>
      match decode_delta avail (msg_Delta audioMsg) with
      | Panics msg => Panics msg
      | Returns (inl err) => Returns (Some err, c)
      | Returns (inr processedData) =>
          let chunk :=
            {| ResponseID := msg_ResponseID audioMsg;
               ItemID := msg_ItemID audioMsg;
               OutputIndex := msg_OutputIndex audioMsg;
               ContentIndex := msg_ContentIndex audioMsg;
               Data := processedData |} in
          let room := (length (AudioChannel c) <? audioChannelCap)%nat in
          let shutdownErr := ErrNew "client shutdown while processing audio" in
          if Done c then
            if room && negb pick_done
            then Returns (None, with_AudioChannel c (AudioChannel c ++ [chunk]))
            else Returns (Some shutdownErr, c)
          else
            let c := if room then c else snd (audioProcessingStep c false) in
            Returns (None, with_AudioChannel c (AudioChannel c ++ [chunk]))
      end
  end.

(** The errors [c.Conn.ReadMessage()] returns, as far as the receive
    loop tells them apart: a [*websocket.CloseError] with its code, a
    [net.Error] with its [Timeout()], or anything else. *)
Inductive ReadError :=
| CloseError (code : Z)
| NetError (timeout : bool)
| OtherError (msg : string).

Definition CloseNormalClosure : Z := 1000.
Definition CloseGoingAway : Z := 1001.

Definition IsCloseError (err : ReadError) (codes : list Z) : bool :=
  match err with
  | CloseError code => existsb (Z.eqb code) codes
  | _ => false
  end.

Definition IsUnexpectedCloseError (err : ReadError) (expectedCodes : list Z)
  : bool :=
  match err with
  | CloseError code => negb (existsb (Z.eqb code) expectedCodes)
  | _ => false
  end.

Definition isTimeout (err : ReadError) : bool :=
  match err with
  | NetError timeout => timeout
  | _ => false
  end.

(** How an iteration of a loop ends. *)
Inductive LoopCtl := Continue | Return.

(** [c.Metrics.RecordError()]. *)
Definition count_error (c : ChatClient) : ChatClient :=
  with_Metrics c (RecordError (Metrics c)).

(** The [if err != nil] branch of [receiveRoutine]. [exited] is the
    number of other tasks that report completion while [shutdown] waits;
    the routine itself has not reported yet. *)
Definition onReadError (c : ChatClient) (exited : nat) (timer_first : bool)
    (err : ReadError) : LoopCtl * ChatClient :=
  if IsCloseError err [CloseNormalClosure; CloseGoingAway] then (Return, c)
  else if isTimeout err then (Continue, c)
  else
    let c := count_error c in
    if IsUnexpectedCloseError err []
    then (Return, shutdown c (Nat.min exited (Nat.pred (WG c))) timer_first)
    else (Continue, c).

Record AudioDoneMsg := {
  done_ResponseID : string;
  done_ItemID : string
}.

(** A frame read from the connection, by what the loop makes of it: one
    whose envelope does not unmarshal, or one of a known or another
    type, with the result of unmarshalling it further and with what the
    handler takes from outside (the memory [make] can get and the
    scheduler's choice in the [select] of [handleAudioResponse], the
    formatted [time.Now()]). *)
Inductive Inbound :=
| Malformed
| AudioDeltaFrame (m : error + AudioDeltaMsg) (avail : Z) (pick_done : bool)
| AudioDoneFrame (m : error + AudioDoneMsg) (timestamp : string)
| ResponseDoneFrame (m : error + CompleteResponse) (timestamp : string)
| OtherFrame (type : string).

(** What one [c.Conn.ReadMessage()] returns (for an error, with what the
    other goroutines do should the error lead to [shutdown]). *)
Inductive Received :=
| ReadFailed (err : ReadError) (exited : nat) (timer_first : bool)
| ReadMessage (frame : Inbound).

Definition newline : string := String "010" EmptyString.

(** [filepath.Join(dir, name)] for a clean, non-empty [dir]. *)
Definition path_join (dir name : string) : string := dir +:+ "/" +:+ name.

(** [saveTranscript]; [os.WriteFile] creates the file, then writes. *)
Definition saveTranscript (fs : FileSystem) (filepath transcript timestamp : string)
  : option error * FileSystem :=
  let transcript :=
    if is_empty transcript then "No transcript available" else transcript in
  let textPath := TrimSuffix filepath ".wav" +:+ ".txt" in
  let formattedTranscript :=
    "Generated: " +:+ timestamp +:+ newline
    +:+ "Audio File: " +:+ filepath +:+ newline
    +:+ "Transcript:" +:+ newline +:+ transcript +:+ newline in
  match os_Create fs textPath with
  | (inl err, fs1) => (Some (ErrWrap "write transcript file" err), fs1)
  | (inr file, fs1) =>
      match file_Write file (list_byte_of_string formattedTranscript) with
      | (Some err, file1) =>
          (Some (ErrWrap "write transcript file" err),
           fs_put fs1 textPath (of_data file1))
      | (None, file1) => (None, fs_put fs1 textPath (of_data file1))
      end
  end.

(** The [response.done] case: every audio content with a transcript. *)
Definition saveTranscripts (fs : FileSystem) (audioFiles : gmap string string)
    (respDone : CompleteResponse) (timestamp : string)
  : FileSystem * gmap string string :=
  foldl (fun st output =>
    foldl (fun st content =>
      let '(fs, audioFiles) := st in
      if String.eqb (ContentType content) "audio"
         && negb (is_empty (ContentTranscript content))
      then
        let audioKey := audioKeyOf (ResponseIDOf respDone) (OutputID output) in
        match audioFiles !! audioKey with
        | Some audioPath =>
            let '(_, fs) :=
              saveTranscript fs audioPath (ContentTranscript content) timestamp in
            (fs, delete audioKey audioFiles)
        | None => (fs, audioFiles)
        end
      else (fs, audioFiles))
    st (Content output))
  (fs, audioFiles) (Output respDone).

(** The body of the receive loop after a successful read: the [switch]
    on the type of the frame. Errors of the handlers are logged and the
    loop goes on. *)
Definition handleFrame (c : ChatClient) (fs : FileSystem)
    (audioFiles : gmap string string) (frame : Inbound)
  : outcome (ChatClient * FileSystem * gmap string string) :=
  match frame with
  | Malformed => Returns (c, fs, audioFiles)
  | AudioDeltaFrame m avail pick_done =>
      let c := log_event c "received" "response.audio.delta" in
      match handleAudioResponse c avail pick_done m with
      | Panics msg => Panics msg
      | Returns (_, c) => Returns (c, fs, audioFiles)
      end
  | AudioDoneFrame m timestamp =>
      let c := log_event c "received" "response.audio.done" in
      match m with
      | inl _ => Returns (c, fs, audioFiles)
      | inr doneMsg =>
          (* Save audio file without transcript *)
          let filename := "audio_" +:+ timestamp +:+ ".wav" in
          let filepath := path_join (AudioOutputDir (Config c)) filename in
          let '(_, c, fs) :=
            saveAudioOnly c fs (done_ResponseID doneMsg) (done_ItemID doneMsg)
              filepath in
          (* Store the filepath for later transcript writing *)
          let audioKey :=
            audioKeyOf (done_ResponseID doneMsg) (done_ItemID doneMsg) in
          Returns (c, fs, <[audioKey := filepath]> audioFiles)
      end
  | ResponseDoneFrame m timestamp =>
      let c := log_event c "received" "response.done" in
      match m with
      | inl _ => Returns (c, fs, audioFiles)
      | inr respDone =>
          let '(fs, audioFiles) := saveTranscripts fs audioFiles respDone timestamp in
          Returns (c, fs, audioFiles)
      end
  | OtherFrame type => Returns (log_event c "received" type, fs, audioFiles)
  end.

(** The loop of [receiveRoutine] over what the successive reads return.
    When the reads given are used up the routine is blocked in the next
    [ReadMessage] ([Running]). *)
Fixpoint receiveLoop (reads : list Received) (c : ChatClient) (fs : FileSystem)
    (audioFiles : gmap string string)
  : outcome (RoutineStatus * ChatClient * FileSystem) :=
  if Done c then Returns (Exited, c, fs)
  else
    match reads with
    | [] => Returns (Running, c, fs)
    | ReadFailed err exited timer_first :: rest =>
        match onReadError c exited timer_first err with
        | (Return, c) => Returns (Exited, c, fs)
        | (Continue, c) => receiveLoop rest c fs audioFiles
        end
    | ReadMessage frame :: rest =>
        match handleFrame c fs audioFiles frame with
        | Panics msg => Panics msg
        | Returns (c, fs, audioFiles) => receiveLoop rest c fs audioFiles
        end
    end.

(** [receiveRoutine], with its deferred [c.WG.Done()]. *)
Definition receiveRoutine (reads : list Received) (c : ChatClient)
    (fs : FileSystem) : outcome (RoutineStatus * ChatClient * FileSystem) :=
  match receiveLoop reads c fs ∅ with
  | Returns (Exited, c, fs) => Returns (Exited, WG_Done c, fs)
  | other => other
  end.

(* ================================================================= *)
(** ** The outbound framer: [sendAudioMessage]                        *)
(* ================================================================= *)

(** [AudioChunkConfig] (its [ChunkSize] is not the header's). *)
Module Chunking.
Record AudioChunkConfig := {
  ChunkSize : Z;
  ChunkDurationMs : Z
}.
End Chunking.

Definition DefaultAudioChunkConfig : Chunking.AudioChunkConfig :=
  let chunkSize := 16 * 1024 in
  let bytesPerSecond := 24000 * 2 in
  let durationMs := Z.quot (chunkSize * 1000) bytesPerSecond in
  {| Chunking.ChunkSize := chunkSize; Chunking.ChunkDurationMs := durationMs |}.

Definition appendEvent (chunkCount : Z) (p : list byte) : WireMsg :=
  AudioAppend "input_audio_buffer.append"
    ("evt_audio_" +:+ itoa chunkCount) (EncodeToString p).

Definition commitEvent (chunkCount : Z) : WireMsg :=
  AudioCommit "input_audio_buffer.commit" ("evt_commit_" +:+ itoa chunkCount).

(** [c.Logger.Log("sent", type, msg)] then [c.Conn.WriteJSON(msg)]. *)
Definition logAndWrite (c : ChatClient) (msg : WireMsg)
  : option error * ChatClient :=
  let c := log_event c "sent" (msg_type msg) in
  let '(err, conn) := WriteJSON (Conn c) msg in
  (err, with_Conn c conn).

(** The [for] loop of [sendAudioMessage]. [fuel] bounds the number of
    iterations; [None] is a loop that has not ended within it.
    [chunkCount] and [bytesSent] stay far below the range of [int]. *)
Fixpoint sendAudioChunks (fuel : nat) (c : ChatClient) (file : InFile)
    (bufferSize : nat) (chunkCount bytesSent : Z)
  : option (option error * ChatClient) :=
  match fuel with
  | O => None
  | S fuel =>
      let '((p, err), file) := file_Read file bufferSize in
      let n := length p in
      match (if is_EOF err then None else err) with
      | Some e => Some (Some (ErrWrap "read audio file" e), c)
      | None =>
          let '(werr, c, chunkCount, bytesSent) :=
            if (0 <? n)%nat then
              let chunkCount := chunkCount + 1 in
              let bytesSent := bytesSent + Z.of_nat n in
              let '(werr, c) := logAndWrite c (appendEvent chunkCount p) in
              (werr, c, chunkCount, bytesSent)
            else (None, c, chunkCount, bytesSent) in
          match werr with
          | Some werr => Some (Some (ErrWrap "write audio chunk" werr), c)
          | None =>
              if is_EOF err then
                match logAndWrite c (commitEvent chunkCount) with
                | (Some werr, c) =>
                    Some (Some (ErrWrap "write audio commit" werr), c)
                | (None, c) => Some (None, c)
                end
              else sendAudioChunks fuel c file bufferSize chunkCount bytesSent
          end
      end
  end.

Definition audioItem : WireMsg :=
  ConversationItem "conversation.item.create" "message" "user"
    [{| ContentItemType := "input_audio"; Text := ""; AudioRef := "audio_0" |}].

Definition sendAudioMessage (c : ChatClient) (fs : FileSystem)
    (audioFilePath : string) : option (option error * ChatClient) :=
  match os_Open fs audioFilePath with
  | inl err => Some (Some (ErrWrap "open audio file" err), c)
  | inr file =>
      (* Get file size for progress tracking *)
      match file_Stat file with
      | (inl err, _) => Some (Some (ErrWrap "get file info" err), c)
      | (inr totalSize, file) =>
          match validateWAVFormat file with
          | (Some err, _) => Some (Some (ErrWrap "invalid audio format" err), c)
          | (None, file) =>
              (* Skip WAV header *)
              match file_Seek file 44 with
              | (Some err, _) => Some (Some (ErrWrap "skip WAV header" err), c)
              | (None, file) =>
                  match logAndWrite c audioItem with
                  | (Some err, c) =>
                      Some (Some (ErrWrap "write conversation item" err), c)
                  | (None, c) =>
                      let chunkConfig := DefaultAudioChunkConfig in
                      let bufferSize := Z.to_nat (Chunking.ChunkSize chunkConfig) in
                      match sendAudioChunks (S (length (in_data file))) c file
                              bufferSize 0 0 with
                      | None => None
                      | Some (Some err, c) => Some (Some err, c)
                      | Some (None, c) =>
                          match logAndWrite c (ResponseCreate "response.create") with
                          | (Some err, c) =>
                              Some (Some (ErrWrap "write response create" err), c)
                          | (None, c) => Some (None, c)
                          end
                      end
                  end
              end
          end
      end
  end.

(* ================================================================= *)
(** ** The retry policy: [sendWithRetry] of [maingo.go]               *)
(* ================================================================= *)

(** [err.Error()], and ["<nil>"] as [%v] prints a nil error. *)
Fixpoint error_text (e : error) : string :=
  match e with
  | EOF => "EOF"
  | ErrUnexpectedEOF => "unexpected EOF"
  | ErrNew msg => msg
  | ErrWrap context cause => context +:+ ": " +:+ error_text cause
  | ErrNum fn num ErrSyntax =>
      "strconv." +:+ fn +:+ ": parsing " +:+ num +:+ ": invalid syntax"
  | ErrNum fn num ErrRange =>
      "strconv." +:+ fn +:+ ": parsing " +:+ num +:+ ": value out of range"
  end.

Definition verb_v (e : option error) : string :=
  match e with
  | Some e => error_text e
  | None => "<nil>"
  end.

(** The loop [for i := 0; i < c.config.MaxRetries; i++], [remaining]
    being the iterations left. *)
Fixpoint retryLoop (remaining : nat) (i : Z) (c : ChatClient) (msg : WireMsg)
    (lastErr : option error) : option error * ChatClient :=
  match remaining with
  | O =>
      (Some (ErrNew ("failed after " +:+ itoa (MaxRetries (Config c))
                     +:+ " retries: " +:+ verb_v lastErr)), c)
  | S remaining =>
      let c := with_Conn c (SetWriteDeadline (Conn c)) in
      match WriteJSON (Conn c) msg with
      | (Some err, conn) =>
          let c := with_Conn c conn in
          let c := with_Metrics c (RecordError (Metrics c)) in
          let c := with_Sleeps c (Sleeps c ++ [i + 1]) in
          retryLoop remaining (i + 1) c msg (Some err)
      | (None, conn) =>
          (None, with_Metrics (with_Conn c conn) (RecordSent (Metrics c)))
      end
  end.

Definition sendWithRetry (c : ChatClient) (msg : WireMsg)
  : option error * ChatClient :=
  retryLoop (Z.to_nat (MaxRetries (Config c))) 0 c msg None.

(* ================================================================= *)
(** ** What an upload is to emit (for comparison with the framer)     *)
(* ================================================================= *)

(** The payload cut into pieces of [size] bytes, the last one possibly
    shorter. *)
Fixpoint chunks_fuel (fuel size : nat) (data : list byte) : list (list byte) :=
  match fuel with
  | O => []
  | S fuel =>
      match data with
      | [] => []
      | _ => take size data :: chunks_fuel fuel size (drop size data)
      end
  end.

Definition chunks_of (size : nat) (data : list byte) : list (list byte) :=
  chunks_fuel (length data) size data.

(** One append event per piece, numbered from [count + 1]. *)
Fixpoint append_events (count : Z) (pieces : list (list byte)) : list WireMsg :=
  match pieces with
  | [] => []
  | p :: rest => appendEvent (count + 1) p :: append_events (count + 1) rest
  end.

Definition chunkBytes : nat := Z.to_nat (Chunking.ChunkSize DefaultAudioChunkConfig).

(** The events of the upload of the raw samples [raw], in order. *)
Definition upload_events (raw : list byte) : list WireMsg :=
  let pieces := chunks_of chunkBytes raw in
  [audioItem] ++ append_events 0 pieces
  ++ [commitEvent (Z.of_nat (length pieces)); ResponseCreate "response.create"].

(** The context a failed write is reported under. *)
Definition write_context (m : WireMsg) : string :=
  match m with
  | ConversationItem _ _ _ _ => "write conversation item"
  | AudioAppend _ _ _ => "write audio chunk"
  | AudioCommit _ _ => "write audio commit"
  | ResponseCreate _ => "write response create"
  end.

(** The messages logged and written one after the other, each attempted
    once, up to the first write that fails. *)
Fixpoint write_each_once (c : ChatClient) (msgs : list WireMsg)
  : option error * ChatClient :=
  match msgs with
  | [] => (None, c)
  | m :: rest =>
      match logAndWrite c m with
      | (Some err, c) => (Some (ErrWrap (write_context m) err), c)
      | (None, c) => write_each_once c rest
      end
  end.

(** The payloads of the append events, decoded and concatenated. *)
Fixpoint decoded_payloads (msgs : list WireMsg) : option (list byte) :=
  match msgs with
  | [] => Some []
  | AudioAppend _ _ audio :: rest =>
      match DecodeString audio, decoded_payloads rest with
      | inr p, Some ps => Some (p ++ ps)
      | _, _ => None
      end
  | _ :: rest => decoded_payloads rest
  end.

Definition is_append (m : WireMsg) : bool :=
  match m with AudioAppend _ _ _ => true | _ => false end.


(** A file that reads without fault, and what is left to read of it. *)
Definition no_read_fault (file : InFile) : Prop :=
  forall k, in_fault file k = None.

Definition remaining (file : InFile) : list byte :=
  drop (in_pos file) (in_data file).

(** What a write leaves alone: the retry bookkeeping (write deadlines set,
    sleeps, counters) and the faults still to come. *)
Definition only_written (c c' : ChatClient) : Prop :=
  conn_fault (Conn c') = conn_fault (Conn c)
  /\ conn_deadlines (Conn c') = conn_deadlines (Conn c)
  /\ Sleeps c' = Sleeps c
  /\ Metrics c' = Metrics c.

(** A connection whose [n]-th write attempt fails with [e]. *)
Definition fails_at (n : nat) (e : error) : nat -> option error :=
  fun k => if (k =? n)%nat then Some e else None.

(** The steps of the close sequence: those [shutdown] and its goroutine
    perform at once, and those the goroutine performs when the tasks
    have been joined. *)
Definition start_events : list LifecycleEvent :=
  [EvCloseDone; EvWriteCloseFrame; EvConnClose; EvLoggerClose].

Definition finish_events : list LifecycleEvent :=
  [EvTasksJoined; EvCloseMessageChannel; EvCloseDisplayChannel;
   EvCloseAudioChannel; EvCloseComplete].

Definition is_verdict (ev : LifecycleEvent) : Prop :=
  ev = EvShutdownCompleted \/ ev = EvShutdownTimedOut.

Definition channels_closed (c : ChatClient) : Prop :=
  MessageChannelClosed c = true /\ DisplayChannelClosed c = true
  /\ AudioChannelClosed c = true.

(** A client on which [shutdown] has not been called. *)
Definition running (c : ChatClient) : Prop :=
  ShutdownOnce c = false /\ Closer c = CloserNotStarted /\ Events c = [].

(** A client on which [shutdown] has been called: the goroutine is
    waiting for the tasks, or has closed the channels, before or after
    the [select] of [shutdown] was decided. *)
Definition shut_down (c : ChatClient) : Prop :=
  ShutdownOnce c = true /\ Done c = true /\
  conn_closed (Conn c) = true /\ Closed (Logger c) = true /\
  exists v, is_verdict v /\
    ((Closer c = CloserWaiting /\ (0 < WG c)%nat
      /\ Events c = start_events ++ [v])
     \/ (Closer c = CloserFinished /\ channels_closed c
         /\ (Events c = start_events ++ finish_events ++ [v]
             \/ Events c = start_events ++ [v] ++ finish_events))).

(** The goroutine of [shutdown] between its start and the decision of
    the [select]: waiting with tasks still running, or done. *)
Definition joining (c : ChatClient) : Prop :=
  Done c = true /\ conn_closed (Conn c) = true /\ Closed (Logger c) = true /\
  ShutdownOnce c = false /\
  ((Closer c = CloserWaiting /\ (0 < WG c)%nat /\ Events c = start_events)
   \/ (Closer c = CloserFinished /\ channels_closed c
       /\ Events c = start_events ++ finish_events)).

(* ================================================================= *)
(** ** The dispatcher and the processing routine side by side         *)
(* ================================================================= *)

(** The two goroutines that share [AudioChannel], interleaved: the
    receive routine hands a delta frame to [handleAudioResponse] (with
    the memory [make] can get at that moment), or the audio processing
    routine takes one turn of its loop. *)
Inductive DispatchStep :=
| Deliver (audioMsg : AudioDeltaMsg) (avail : Z) (pick_done : bool)
| Take (pick_done : bool).

Definition dispatch_step (c : ChatClient) (s : DispatchStep) : outcome ChatClient :=
  match s with
  | Deliver audioMsg avail pick_done =>
      match handleAudioResponse c avail pick_done (inr audioMsg) with
      | Panics msg => Panics msg
      | Returns (_, c) => Returns c
      end
  | Take pick_done => Returns (snd (audioProcessingStep c pick_done))
  end.

Fixpoint dispatch_run (c : ChatClient) (steps : list DispatchStep)
  : outcome ChatClient :=
  match steps with
  | [] => Returns c
  | s :: rest =>
      match dispatch_step c s with
      | Panics msg => Panics msg
      | Returns c => dispatch_run c rest
      end
  end.

(** The count of a delta that is a sentinel with a numeral [Atoi]
    accepts. *)
Definition trimmed_count (delta : string) : option Z :=
  if HasPrefix delta "[trimmed: " && HasSuffix delta " bytes]" then
    match Atoi (TrimSuffix (TrimPrefix delta "[trimmed: ") " bytes]") with
    | inr size => Some size
    | inl _ => None
    end
  else None.

(** The bytes a delta stands for ([[]] when it does not decode). *)
Definition delta_bytes (avail : Z) (audioMsg : AudioDeltaMsg) : list byte :=
  match decode_delta avail (msg_Delta audioMsg) with
  | Returns (inr processedData) => processedData
  | _ => []
  end.

(** The frames delivered in a schedule, in order, each with the memory
    available when it is handled. *)
Definition delivered (steps : list DispatchStep) : list (Z * AudioDeltaMsg) :=
  omap (fun s => match s with
                 | Deliver m avail _ => Some (avail, m)
                 | Take _ => None
                 end) steps.

(** The bytes the frames of [msgs] carry for the buffer [audioKey]. *)
Definition bytes_for (audioKey : string) (msgs : list (Z * AudioDeltaMsg))
  : list byte :=
  concat (map (fun am => delta_bytes (fst am) (snd am))
            (filter (fun am => audioKeyOf (msg_ResponseID (snd am))
                                          (msg_ItemID (snd am)) = audioKey)
                    msgs)).

(** Frames handled one after the other, as the receive loop does after
    each successful read. *)
Fixpoint handleFrames (c : ChatClient) (fs : FileSystem)
    (audioFiles : gmap string string) (frames : list Inbound)
  : outcome (ChatClient * FileSystem * gmap string string) :=
  match frames with
  | [] => Returns (c, fs, audioFiles)
  | frame :: rest =>
      match handleFrame c fs audioFiles frame with
      | Panics msg => Panics msg
      | Returns (c, fs, audioFiles) => handleFrames c fs audioFiles rest
      end
  end.

(** The text [saveTranscript] writes. *)
Definition transcript_text (filepath transcript timestamp : string) : string :=
  "Generated: " +:+ timestamp +:+ newline
  +:+ "Audio File: " +:+ filepath +:+ newline
  +:+ "Transcript:" +:+ newline +:+ transcript +:+ newline.

(** The path [receiveRoutine] saves the audio of a stream under. *)
Definition audio_path (c : ChatClient) (timestamp : string) : string :=
  path_join (AudioOutputDir (Config c)) ("audio_" +:+ timestamp +:+ ".wav").

(** The first [k] seconds of back-off: 1, 2, ..., k. *)
Definition backoff (k : nat) : list Z := map Z.of_nat (seq 1 k).

(** A write whose first [k] attempts fail and whose next one succeeds. *)
Definition fails_before (k : nat) (e : error) : nat -> option error :=
  fun attempt => if (attempt <? k)%nat then Some e else None.

(* ================================================================= *)
(** ** Commands: [parseUserInput], [sendMessage], the loop of [Start] *)
(* ================================================================= *)

(** [asciiSpace] of package [strings]. *)
Definition asciiSpace (ch : ascii) : bool :=
  let n := N_of_ascii ch in
  ((n =? 9) || (n =? 10) || (n =? 11) || (n =? 12) || (n =? 13) || (n =? 32))%N.

Definition byte_is (ch : ascii) (n : N) : bool := (N_of_ascii ch =? n)%N.

(** The white space of [unicode.IsSpace] beyond ASCII, by its UTF-8
    encoding: U+0085 and U+00A0 in two bytes; U+1680, U+2000 to U+200A,
    U+2028, U+2029, U+202F, U+205F and U+3000 in three. *)
Definition space2 (b0 b1 : ascii) : bool :=
  byte_is b0 194 && (byte_is b1 133 || byte_is b1 160).

Definition space3 (b0 b1 b2 : ascii) : bool :=
  (byte_is b0 225 && byte_is b1 154 && byte_is b2 128)
  || (byte_is b0 226 && byte_is b1 128
      && ((128 <=? N_of_ascii b2)%N && (N_of_ascii b2 <=? 138)%N
          || byte_is b2 168 || byte_is b2 169 || byte_is b2 175))
  || (byte_is b0 226 && byte_is b1 129 && byte_is b2 159)
  || (byte_is b0 227 && byte_is b1 128 && byte_is b2 128).

(** Runes of one, two or three bytes taken off the front of a byte
    sequence for as long as they satisfy a test. *)
Section Runes.

Variable is1 : ascii -> bool.
Variable is2 : ascii -> ascii -> bool.
Variable is3 : ascii -> ascii -> ascii -> bool.

(** What follows the first rune, when it satisfies the test. *)
Definition strip_one (s : list ascii) : option (list ascii) :=
  match s with
  | b0 :: s1 =>
      if is1 b0 then Some s1
      else
        match s1 with
        | b1 :: s2 =>
            if is2 b0 b1 then Some s2
            else
              match s2 with
              | b2 :: s3 => if is3 b0 b1 b2 then Some s3 else None
              | [] => None
              end
        | [] => None
        end
  | [] => None
  end.

Fixpoint strip (s : list ascii) : list ascii :=
  match s with
  | b0 :: s1 =>
      if is1 b0 then strip s1
      else
        match s1 with
        | b1 :: s2 =>
            if is2 b0 b1 then strip s2
            else
              match s2 with
              | b2 :: s3 => if is3 b0 b1 b2 then strip s3 else s
              | [] => s
              end
        | [] => s
        end
  | [] => s
  end.

End Runes.

(** [strings.TrimLeftFunc(s, unicode.IsSpace)] on the bytes of [s]. *)
Definition trimLeft (s : list ascii) : list ascii :=
  strip asciiSpace space2 space3 s.

(** [strings.TrimRightFunc(s, unicode.IsSpace)]: the same from the end,
    on the bytes in reverse; the last rune is a white space when the
    string ends with the encoding of one. *)
Definition trimReversed (r : list ascii) : list ascii :=
  strip asciiSpace (fun b0 b1 => space2 b1 b0)
        (fun b0 b1 b2 => space3 b2 b1 b0) r.

Definition trimRight (s : list ascii) : list ascii :=
  rev (trimReversed (rev s)).

(** [strings.TrimSpace]. *)
Definition TrimSpace (s : string) : string :=
  string_of_list_ascii (trimRight (trimLeft (list_ascii_of_string s))).

(** [MessageType], an [int], and its two constants. *)
Module MessageType.
Definition t : Type := Z.
Definition TextMessage : t := 0.
Definition AudioMessage : t := 1.
End MessageType.

(** [UserMessage]: the type, and the text or the path of the audio file. *)
Record UserMessage := {
  um_Type : MessageType.t;
  um_Content : string
}.

Definition parseUserInput (input : string) : error + UserMessage :=
  let input := TrimSpace input in
  if is_empty input then inl (ErrNew "empty input")
  else if HasPrefix input "/audio " then
    (* Check for audio command *)
    let audioPath := TrimPrefix input "/audio " in
    let audioPath := TrimSpace audioPath in
    if is_empty audioPath then inl (ErrNew "audio file path not provided")
    else inr {| um_Type := MessageType.AudioMessage; um_Content := audioPath |}
  else
    (* Default to text message *)
    inr {| um_Type := MessageType.TextMessage; um_Content := input |}.

Definition textItem (text : string) : WireMsg :=
  ConversationItem "conversation.item.create" "message" "user"
    [{| ContentItemType := "input_text"; Text := text; AudioRef := "" |}].

(** [sendUserMessage] of [mainaudio.go]. *)
Definition sendUserMessage (c : ChatClient) (text : string)
  : option error * ChatClient :=
  match logAndWrite c (textItem text) with
  | (Some err, c) => (Some (ErrWrap "write message" err), c)
  | (None, c) =>
      match logAndWrite c (ResponseCreate "response.create") with
      | (Some err, c) => (Some (ErrWrap "write response create" err), c)
      | (None, c) => (None, c)
      end
  end.

(** [sendMessage]. *)
Definition sendMessage (c : ChatClient) (fs : FileSystem) (msg : UserMessage)
  : option (option error * ChatClient) :=
  if um_Type msg =? MessageType.TextMessage
  then Some (sendUserMessage c (um_Content msg))
  else if um_Type msg =? MessageType.AudioMessage
  then sendAudioMessage c fs (um_Content msg)
  else Some (Some (ErrNew "unknown message type"), c).

(** The [for] loop of [Start] over the lines [reader.ReadString] returns;
    when they are used up the next read fails and the loop ends. Errors
    of [parseUserInput] and of [sendMessage] are logged and the loop
    goes on. *)
Fixpoint inputLoop (c : ChatClient) (fs : FileSystem) (lines : list string)
  : option ChatClient :=
  match lines with
  | [] => Some c
  | input :: rest =>
      let input := TrimSpace input in
      if String.eqb input ".quit" || String.eqb input ".exit" then Some c
      else if negb (is_empty input) then
        match parseUserInput input with
        | inl _ => inputLoop c fs rest
        | inr msg =>
            match sendMessage c fs msg with
            | None => None
            | Some (_, c) => inputLoop c fs rest
            end
        end
      else inputLoop c fs rest
  end.

(** What a line of input makes the client send: nothing for a blank
    line, an upload for the audio command, a text item otherwise. *)
Definition is_quit (line : string) : bool :=
  let input := TrimSpace line in
  String.eqb input ".quit" || String.eqb input ".exit".

Definition is_blank (line : string) : bool := is_empty (TrimSpace line).

(* ================================================================= *)
(** ** Bytes and little-endian integers                               *)
(* ================================================================= *)

Section Bytes.

Lemma Z_of_byte_range (b : byte) : 0 <= Z_of_byte b < 256.
Proof.
  unfold Z_of_byte. pose proof (Byte.to_N_bounded b). lia.
Qed.

Lemma Z_of_byte_of_Z (z : Z) : Z_of_byte (byte_of_Z z) = z mod 256.
Proof.
  unfold Z_of_byte, byte_of_Z.
  assert (Hr : 0 <= z mod 256 < 256) by (apply Z.mod_pos_bound; lia).
  destruct (Byte.of_N (Z.to_N (z mod 256))) as [b|] eqn:E.
  - apply Byte.to_of_N in E. rewrite E. lia.
  - apply Byte.of_N_None_iff in E. lia.
Qed.

Lemma byte_of_Z_of_byte (b : byte) : byte_of_Z (Z_of_byte b) = b.
Proof.
  unfold byte_of_Z. pose proof (Z_of_byte_range b) as Hr.
  rewrite Z.mod_small by lia. unfold Z_of_byte.
  rewrite N2Z.id, Byte.of_to_N. reflexivity.
Qed.

(** Bits that do not overlap add up. *)
Lemma lor_shiftl_add (lo hi k : Z) :
  0 <= k -> 0 <= lo < 2 ^ k -> Z.lor lo (Z.shiftl hi k) = lo + hi * 2 ^ k.
Proof.
  intros Hk Hlo.
  assert (Hz : Z.land lo (Z.shiftl hi k) = 0).
  { apply Z.bits_inj'. intros i Hi.
    rewrite Z.land_spec, Z.bits_0.
    destruct (Z.lt_ge_cases i k) as [Hlt|Hge].
    - rewrite (Z.shiftl_spec_low hi k i Hlt). apply andb_false_r.
    - assert (Hb : Z.testbit lo i = false).
      { destruct (Z.eq_dec lo 0) as [->|Hne]; [apply Z.bits_0|].
        apply Z.bits_above_log2; [lia|].
        apply Z.lt_le_trans with k; [|lia].
        apply Z.log2_lt_pow2; lia. }
      rewrite Hb. reflexivity. }
  rewrite <- Z.shiftl_mul_pow2 by lia.
  rewrite <- (Z.add_lor_land lo (Z.shiftl hi k)), Hz. lia.
Qed.

Lemma le_decode_cons (b : byte) (rest : list byte) :
  le_decode (b :: rest) = Z_of_byte b + 256 * le_decode rest.
Proof.
  cbn [le_decode]. pose proof (Z_of_byte_range b).
  rewrite (lor_shiftl_add _ _ 8) by lia. lia.
Qed.

Lemma le_decode_le16 (v : Z) : le_decode (le16 v) = v mod 2 ^ 16.
Proof.
  unfold le16. rewrite !le_decode_cons. cbn [le_decode].
  rewrite !Z_of_byte_of_Z, !Z.shiftr_div_pow2 by lia.
  change (2 ^ 8) with 256. change (2 ^ 16) with 65536.
  Z.div_mod_to_equations. lia.
Qed.

Lemma le_decode_le32 (v : Z) : le_decode (le32 v) = v mod 2 ^ 32.
Proof.
  unfold le32. rewrite !le_decode_cons. cbn [le_decode].
  rewrite !Z_of_byte_of_Z, !Z.shiftr_div_pow2 by lia.
  change (2 ^ 8) with 256. change (2 ^ 16) with 65536.
  change (2 ^ 24) with 16777216. change (2 ^ 32) with 4294967296.
  Z.div_mod_to_equations. lia.
Qed.

End Bytes.

(* ================================================================= *)
(** ** The container encoder and the validator                        *)
(* ================================================================= *)

Section Container.

Lemma write_fields_ok (header : list header_field) :
  forall file, no_write_fault file ->
    write_fields file header
    = (None, {| of_data := of_data file ++ concat (map encode_field header);
                of_writes := of_writes file + length header;
                of_fault := of_fault file |}).
Proof.
  induction header as [|v rest IH]; intros file Hok.
  - cbn. rewrite app_nil_r, Nat.add_0_r. destruct file; reflexivity.
  - cbn [write_fields]. unfold binary_Write, file_Write. rewrite Hok.
    rewrite IH by (intros k; apply Hok). cbn.
    rewrite <- app_assoc, Nat.add_succ_r. reflexivity.
Qed.

(** The header as [writeWAVHeader] lays it out, byte by byte. *)
Lemma header_bytes (dataSize : Z) :
  wav_header dataSize
  = (list_byte_of_string "RIFF" ++ le32 (wrap32 (dataSize + 36))
     ++ [x57; x41; x56; x45; x66; x6d; x74; x20;
         x10; x00; x00; x00; x01; x00; x01; x00;
         xc0; x5d; x00; x00; x80; xbb; x00; x00;
         x02; x00; x10; x00; x64; x61; x74; x61]
     ++ le32 dataSize).
Proof. reflexivity. Qed.

Lemma writeWAVHeader_ok (file : OutFile) (dataSize : Z) :
  no_write_fault file ->
  writeWAVHeader file dataSize
  = (None, {| of_data := of_data file ++ wav_header dataSize;
              of_writes := of_writes file + 13;
              of_fault := of_fault file |}).
Proof. intros Hok. unfold writeWAVHeader. now rewrite write_fields_ok. Qed.

Lemma length_wav_header (dataSize : Z) : length (wav_header dataSize) = 44%nat.
Proof. reflexivity. Qed.

Lemma wrap32_add_wrap32 (n k : Z) : wrap32 (wrap32 n + k) = (n + k) mod 2 ^ 32.
Proof. unfold wrap32. now rewrite Z.add_mod_idemp_l by lia. Qed.

(** C2. For every PCM byte sequence, writing the header and then the
    samples to a file whose writes succeed appends a header that is a
    function of [len(pcm)] alone and is laid out, in little-endian
    order, as: "RIFF", [len(pcm)+36] as a 32-bit size, "WAVE", "fmt ",
    16, audio format 1, 1 channel, sample rate 24000, byte rate 48000
    (= 24000*1*16/8), block align 2, 16 bits per sample, "data",
    [len(pcm)] as a 32-bit size; the header is 44 bytes long and the
    whole output is [len(pcm) + 44] bytes long. *)
Theorem C2_wav_header_layout (pcm : list byte) (file : OutFile) :
  no_write_fault file ->
  let n := Z.of_nat (length pcm) in
  let hdr := wav_header (wrap32 n) in
  exists file1 file2,
    writeWAVHeader file (wrap32 n) = (None, file1) /\
    file_Write file1 pcm = (None, file2) /\
    of_data file1 = (of_data file ++ hdr) /\
    of_data file2 = (of_data file ++ hdr ++ pcm) /\
    length hdr = 44%nat /\
    slice 0 4 hdr = list_byte_of_string "RIFF" /\
    le_decode (slice 4 8 hdr) = (n + 36) mod 2 ^ 32 /\
    slice 8 12 hdr = list_byte_of_string "WAVE" /\
    slice 12 16 hdr = list_byte_of_string "fmt " /\
    le_decode (slice 16 20 hdr) = 16 /\
    le_decode (slice 20 22 hdr) = 1 /\
    le_decode (slice 22 24 hdr) = 1 /\
    le_decode (slice 24 28 hdr) = 24000 /\
    le_decode (slice 28 32 hdr) = 24000 * 1 * 16 / 8 /\
    le_decode (slice 32 34 hdr) = 1 * 16 / 8 /\
    le_decode (slice 34 36 hdr) = 16 /\
    slice 36 40 hdr = list_byte_of_string "data" /\
    le_decode (slice 40 44 hdr) = n mod 2 ^ 32 /\
    length (hdr ++ pcm) = (length pcm + 44)%nat.
Proof.
  intros Hok n hdr.
  eexists _, _. split; [apply (writeWAVHeader_ok _ _ Hok)|].
  split; [unfold file_Write; cbn; rewrite Hok; reflexivity|].
  cbn [of_data]. split; [reflexivity|].
  split; [now rewrite <- app_assoc|].
  split; [reflexivity|].
  assert (Hsz : slice 4 8 hdr = le32 (wrap32 (wrap32 n + 36))) by reflexivity.
  assert (Hdt : slice 40 44 hdr = le32 (wrap32 n)) by reflexivity.
  rewrite Hsz, Hdt, !le_decode_le32, wrap32_add_wrap32.
  repeat split; try reflexivity.
  - apply Z.mod_mod. lia.
  - unfold wrap32. apply Z.mod_mod. lia.
  - rewrite length_app. subst hdr. rewrite length_wav_header. lia.
Qed.

Lemma C2_wav_header_layout_witness :
  no_write_fault new_file /\
  exists file1 file2,
    writeWAVHeader new_file (wrap32 3) = (None, file1) /\
    file_Write file1 [x01; x02; x03] = (None, file2) /\
    of_data file2 = (wav_header 3 ++ [x01; x02; x03]) /\
    length (of_data file2) = 47%nat.
Proof.
  split; [intros k; reflexivity|].
  destruct (C2_wav_header_layout [x01; x02; x03] new_file (fun k => eq_refl))
    as (file1 & file2 & H1 & H2 & _ & H4 & _).
  exists file1, file2. split; [exact H1|]. split; [exact H2|].
  split; [exact H4|]. rewrite H4. reflexivity.
Defined.

Lemma validate_opened (data : list byte) :
  (36 <= length data)%nat ->
  fst (validateWAVFormat (opened data))
  = validate_header (decode_WAVHeader (take 36 data)).
Proof.
  intros Hlen. unfold validateWAVFormat, file_ReadFull, opened, headerSize.
  cbn [in_fault in_ops in_pos in_data]. rewrite drop_0.
  destruct (Nat.leb_spec 36 (length data)) as [_|Hlt]; [|lia].
  reflexivity.
Qed.

Lemma mod16_small (v : Z) : 0 <= v < 2 ^ 16 -> v mod 2 ^ 16 = v.
Proof. intros. now apply Z.mod_small. Qed.

Lemma mod32_small (v : Z) : 0 <= v < 2 ^ 32 -> v mod 2 ^ 32 = v.
Proof. intros. now apply Z.mod_small. Qed.

(** What the encoder writes passes the validator. *)
Lemma validate_wav_header (dataSize : Z) (pcm : list byte) :
  fst (validateWAVFormat (opened (wav_header dataSize ++ pcm))) = None.
Proof.
  rewrite validate_opened by (rewrite length_app, length_wav_header; lia).
  reflexivity.
Qed.



End Container.

(* ================================================================= *)
(** ** The reassembler                                                *)
(* ================================================================= *)

Section Reassembler.

Implicit Types (c : ChatClient) (chunk : AudioChunk) (fs : FileSystem).

(** One fragment extends the buffer of its own key and no other. *)
Lemma buffered_handleAudioChunk c chunk (key : string) :
  buffered (handleAudioChunk c chunk) key
  = if decide (audioKeyOf (ResponseID chunk) (ItemID chunk) = key)
    then (buffered c key ++ Data chunk)
    else buffered c key.
Proof.
  unfold buffered, handleAudioChunk. cbn [AudioBuffer with_Metrics with_AudioBuffer].
  set (k := audioKeyOf (ResponseID chunk) (ItemID chunk)).
  destruct (decide (k = key)) as [<-|Hne].
  - rewrite lookup_alter_eq.
    destruct (AudioBuffer c !! k) as [[m|]|] eqn:E.
    + rewrite E. reflexivity.
    + rewrite lookup_insert_eq. reflexivity.
    + rewrite lookup_insert_eq. reflexivity.
  - rewrite lookup_alter_ne by done.
    destruct (AudioBuffer c !! k) as [[m|]|] eqn:E; [reflexivity|..];
      now rewrite lookup_insert_ne by done.
Qed.

(** Delivery in order accumulates, under each key, the payloads of the
    fragments that format to that key. *)
Lemma buffered_deliver (chunks : list AudioChunk) :
  forall c (key : string),
    buffered (deliver c chunks) key
    = (buffered c key
       ++ concat (map Data
            (filter (fun chunk =>
               audioKeyOf (ResponseID chunk) (ItemID chunk) = key) chunks))).
Proof.
  unfold deliver.
  induction chunks as [|chunk rest IH]; intros c key; cbn [foldl].
  - cbn. now rewrite app_nil_r.
  - rewrite IH, buffered_handleAudioChunk, filter_cons.
    destruct (decide (audioKeyOf (ResponseID chunk) (ItemID chunk) = key));
      cbn [map concat]; [now rewrite app_assoc | reflexivity].
Qed.

(** Whatever the faults, the fields that were written are a prefix of
    the header, and all of it when the call reports no error. *)
Lemma write_fields_success (header : list header_field) :
  forall file file',
    write_fields file header = (None, file') ->
    of_data file' = (of_data file ++ concat (map encode_field header))
    /\ of_fault file' = of_fault file.
Proof.
  induction header as [|v rest IH]; intros file file' H; cbn in H.
  - injection H as <-. cbn. now rewrite app_nil_r.
  - unfold binary_Write, file_Write in H.
    destruct (of_fault file (of_writes file)); [discriminate|].
    apply IH in H as [-> ->]. cbn. now rewrite <- app_assoc.
Qed.

Lemma file_Write_success (file file' : OutFile) (p : list byte) :
  file_Write file p = (None, file') ->
  of_data file' = (of_data file ++ p).
Proof.
  unfold file_Write. destruct (of_fault file (of_writes file)); [discriminate|].
  now intros [= <-].
Qed.

(** A drain that reports no error found a non-empty buffer, wrote the
    header and those bytes to the file, and removed the entry. *)
Lemma saveAudioOnly_success c fs (responseID itemID filepath : string) c' fs' :
  saveAudioOnly c fs responseID itemID filepath = (None, c', fs') ->
  let key := audioKeyOf responseID itemID in
  let data := buffered c key in
  data <> [] /\
  c' = with_AudioBuffer c (delete key (AudioBuffer c)) /\
  fs_files fs' !! filepath
  = Some (wav_header (wrap32 (Z.of_nat (length data))) ++ data).
Proof.
  unfold saveAudioOnly, buffered.
  destruct (AudioBuffer c !! audioKeyOf responseID itemID) as [[audio|]|];
    [|discriminate..].
  destruct (Nat.eqb_spec (length (AudioData audio)) 0) as [|Hne]; [discriminate|].
  unfold os_Create.
  destruct (fs_create_fault fs filepath); [discriminate|].
  destruct (writeWAVHeader _ _) as [[err|] file1] eqn:Hh; [discriminate|].
  destruct (file_Write file1 _) as [[err|] file2] eqn:Hw; [discriminate|].
  intros [= <- <-]. cbn zeta.
  apply write_fields_success in Hh as [Hh _]. apply file_Write_success in Hw.
  split; [now destruct (AudioData audio)|]. split; [reflexivity|].
  cbn [fs_put fs_files]. rewrite lookup_insert_eq, Hw, Hh. reflexivity.
Qed.

(** On a file system that does not fail, a non-empty buffer drains. *)
Lemma saveAudioOnly_healthy c fs (responseID itemID filepath : string) :
  buffered c (audioKeyOf responseID itemID) <> [] ->
  fs_create_fault fs filepath = None ->
  (forall k, fs_write_fault fs filepath k = None) ->
  exists c' fs', saveAudioOnly c fs responseID itemID filepath = (None, c', fs').
Proof.
  unfold saveAudioOnly, buffered. intros Hne Hc Hw.
  destruct (AudioBuffer c !! audioKeyOf responseID itemID) as [[audio|]|];
    [|done..].
  destruct (Nat.eqb_spec (length (AudioData audio)) 0) as [Hz|_].
  { destruct (AudioData audio); [done|discriminate]. }
  unfold os_Create. rewrite Hc.
  rewrite writeWAVHeader_ok by exact Hw.
  unfold file_Write. cbn [of_fault of_writes]. rewrite Hw. eauto.
Qed.

Lemma buffered_delete c (key key' : string) :
  key <> key' ->
  buffered (with_AudioBuffer c (delete key (AudioBuffer c))) key' = buffered c key'.
Proof.
  intros Hne. unfold buffered. cbn [AudioBuffer with_AudioBuffer].
  now rewrite lookup_delete_ne.
Qed.

Lemma filter_streams (s1 s2 : string * string) (chunks : list AudioChunk) :
  stream_key s1 <> stream_key s2 ->
  Forall (fun chunk => stream_of chunk = s1 \/ stream_of chunk = s2) chunks ->
  filter (fun chunk => audioKeyOf (ResponseID chunk) (ItemID chunk)
                       = stream_key s1) chunks
  = filter (fun chunk => stream_of chunk = s1) chunks.
Proof.
  intros Hne Hall. induction Hall as [|chunk rest Hc _ IH]; [reflexivity|].
  rewrite !filter_cons, IH.
  change (audioKeyOf (ResponseID chunk) (ItemID chunk))
    with (stream_key (stream_of chunk)).
  destruct Hc as [-> | ->].
  - now rewrite !decide_True by reflexivity.
  - rewrite decide_False by congruence.
    rewrite decide_False; [reflexivity|]. intros ->. now apply Hne.
Qed.

Lemma deliver_single_key (s : string * string) (chunks : list AudioChunk) c :
  Forall (fun chunk => stream_of chunk = s) chunks ->
  buffered c (stream_key s) = [] ->
  buffered (deliver c chunks) (stream_key s) = concat (map Data chunks).
Proof.
  intros Hall Hfresh. rewrite buffered_deliver, Hfresh. cbn [app].
  f_equal. f_equal.
  induction Hall as [|chunk rest Hc _ IH]; [reflexivity|].
  rewrite filter_cons, decide_True, IH; [reflexivity|].
  change (stream_key (stream_of chunk) = stream_key s). now rewrite Hc.
Qed.

(** X28. Fragments of one stream delivered in order to a fresh
    buffer drain, when the drain succeeds, to exactly the concatenation
    of their payloads in delivery order. Two streams whose formatted
    keys [responseID_itemID] differ, with their fragments interleaved
    in any order, drain independently: each drain yields the payloads
    of its own stream and only those. *)
Theorem reassembly_in_order :
  (forall c fs (s : string * string) (chunks : list AudioChunk)
          (path : string) c' fs',
      Forall (fun chunk => stream_of chunk = s) chunks ->
      buffered c (stream_key s) = [] ->
      saveAudioOnly (deliver c chunks) fs (fst s) (snd s) path = (None, c', fs') ->
      fs_files fs' !! path = Some (wav_file (concat (map Data chunks))))
  /\
  (forall c fs (s1 s2 : string * string) (chunks : list AudioChunk)
          (path1 path2 : string) c1 fs1 c2 fs2,
      stream_key s1 <> stream_key s2 ->
      Forall (fun chunk => stream_of chunk = s1 \/ stream_of chunk = s2) chunks ->
      buffered c (stream_key s1) = [] ->
      buffered c (stream_key s2) = [] ->
      saveAudioOnly (deliver c chunks) fs (fst s1) (snd s1) path1 = (None, c1, fs1) ->
      saveAudioOnly c1 fs1 (fst s2) (snd s2) path2 = (None, c2, fs2) ->
      fs_files fs1 !! path1 = Some (wav_file (payloads_of s1 chunks)) /\
      fs_files fs2 !! path2 = Some (wav_file (payloads_of s2 chunks))).
Proof.
  split.
  - intros c fs s chunks path c' fs' Hall Hfresh Hsave.
    apply saveAudioOnly_success in Hsave as (_ & _ & Hfile).
    change (audioKeyOf s.1 s.2) with (stream_key s) in Hfile.
    now rewrite (deliver_single_key s chunks c Hall Hfresh) in Hfile.
  - intros c fs s1 s2 chunks path1 path2 c1 fs1 c2 fs2
      Hne Hall Hf1 Hf2 Hsave1 Hsave2.
    apply saveAudioOnly_success in Hsave1 as (_ & -> & Hfile1).
    apply saveAudioOnly_success in Hsave2 as (_ & _ & Hfile2).
    change (audioKeyOf s1.1 s1.2) with (stream_key s1) in *.
    change (audioKeyOf s2.1 s2.2) with (stream_key s2) in *.
    rewrite buffered_delete in Hfile2 by exact Hne.
    rewrite buffered_deliver, Hf1, (filter_streams s1 s2) in Hfile1
      by assumption.
    rewrite buffered_deliver, Hf2, (filter_streams s2 s1) in Hfile2;
      [| congruence | eapply Forall_impl; [exact Hall | cbn; tauto] ].
    split; assumption.
Qed.

(** The scenario of the specification: two streams, three fragments of
    100 bytes each, delivered round-robin. *)
Lemma reassembly_in_order_witness :
  let c := NewChatClient (dial (fun _ => None)) DefaultConfig in
  let fs := healthy_fs ∅ in
  let s1 := ("r1", "i1") in
  let s2 := ("r2", "i2") in
  let chunks :=
    [fragment s1 (repeat x01 100); fragment s2 (repeat x0a 100);
     fragment s1 (repeat x02 100); fragment s2 (repeat x0b 100);
     fragment s1 (repeat x03 100); fragment s2 (repeat x0c 100)] in
  exists c1 fs1 c2 fs2,
    saveAudioOnly (deliver c chunks) fs "r1" "i1" "a.wav" = (None, c1, fs1) /\
    saveAudioOnly c1 fs1 "r2" "i2" "b.wav" = (None, c2, fs2) /\
    fs_files fs1 !! "a.wav"
    = Some (wav_file (repeat x01 100 ++ repeat x02 100 ++ repeat x03 100)) /\
    fs_files fs2 !! "b.wav"
    = Some (wav_file (repeat x0a 100 ++ repeat x0b 100 ++ repeat x0c 100)).
Proof.
  cbv zeta.
  set (c := NewChatClient (dial (fun _ => None)) DefaultConfig).
  set (fs := healthy_fs ∅).
  set (chunks := [fragment ("r1", "i1") (repeat x01 100); _; _; _; _; _]).
  destruct (saveAudioOnly_healthy (deliver c chunks) fs "r1" "i1" "a.wav")
    as (c1 & fs1 & H1); [vm_compute; discriminate | reflexivity | reflexivity |].
  pose proof (saveAudioOnly_success _ _ _ _ _ _ _ H1) as (_ & Hc1 & _).
  assert (Hfs1 : fs1 = fs_put fs "a.wav"
                   (wav_file (buffered (deliver c chunks) (audioKeyOf "r1" "i1")))).
  { vm_compute in H1. injection H1 as _ <-. vm_compute. reflexivity. }
  destruct (saveAudioOnly_healthy c1 fs1 "r2" "i2" "b.wav")
    as (c2 & fs2 & H2);
    [rewrite Hc1; vm_compute; discriminate
    | rewrite Hfs1; reflexivity | rewrite Hfs1; reflexivity |].
  exists c1, fs1, c2, fs2. split; [exact H1|]. split; [exact H2|].
  apply (proj2 reassembly_in_order c fs ("r1", "i1") ("r2", "i2") chunks
           "a.wav" "b.wav" c1 fs1 c2 fs2); try assumption.
  - vm_compute. discriminate.
  - repeat (constructor; [first [left; reflexivity | right; reflexivity]|]).
    constructor.
  - reflexivity.
  - reflexivity.
Defined.

(** C1 (the code against the claim). The key of a buffer is
    [responseID_itemID], which does not tell the streams ("a_b", "c")
    and ("a", "b_c") apart: their fragments go to one buffer, and the
    drain of the first stream yields the bytes of both. *)
Lemma C1_streams_with_one_key :
  let c := NewChatClient (dial (fun _ => None)) DefaultConfig in
  let s1 := ("a_b", "c") in
  let s2 := ("a", "b_c") in
  let chunks := [fragment s1 [x01]; fragment s2 [x02]] in
  s1 <> s2 /\
  payloads_of s1 chunks = [x01] /\
  exists c1 fs1,
    saveAudioOnly (deliver c chunks) (healthy_fs ∅) "a_b" "c" "out.wav"
    = (None, c1, fs1) /\
    fs_files fs1 !! "out.wav" = Some (wav_file [x01; x02]).
Proof.
  cbv zeta. split; [discriminate|]. split; [reflexivity|].
  eexists _, _. split; [vm_compute; reflexivity|]. vm_compute. reflexivity.
Qed.

(** Every error return of [saveAudioOnly] leaves the client as it was:
    the entry is removed only on the path that returns [nil]. *)
Lemma saveAudioOnly_error_keeps_client c fs (responseID itemID filepath : string)
    (err : error) c' fs' :
  saveAudioOnly c fs responseID itemID filepath = (Some err, c', fs') -> c' = c.
Proof.
  unfold saveAudioOnly.
  destruct (AudioBuffer c !! audioKeyOf responseID itemID) as [[audio|]|];
    [|now intros [= _ <- _]..].
  destruct (length (AudioData audio) =? 0)%nat; [now intros [= _ <- _]|].
  destruct (os_Create fs filepath) as [[e|file] fs1]; [now intros [= _ <- _]|].
  destruct (writeWAVHeader _ _) as [[e|] file1]; [now intros [= _ <- _]|].
  destruct (file_Write file1 _) as [[e|] file2]; [now intros [= _ <- _]|].
  discriminate.
Qed.

(** C7 (the code against the claim). When creating the file fails, and
    when writing the samples fails, [saveAudioOnly] returns the error
    and the buffer of the stream is still in the map, with its bytes. *)
Theorem C7_buffer_kept_when_persisting_fails :
  let c := deliver (NewChatClient (dial (fun _ => None)) DefaultConfig)
             [fragment ("r1", "i1") [x01; x02]] in
  let denied := ErrNew "permission denied" in
  let full := ErrNew "no space left on device" in
  let fs_create :=
    {| fs_files := ∅; fs_create_fault := fun _ => Some denied;
       fs_write_fault := fun _ _ => None; fs_read_fault := fun _ _ => None |} in
  let fs_write :=
    {| fs_files := ∅; fs_create_fault := fun _ => None;
       fs_write_fault := fun _ k => if (k =? 13)%nat then Some full else None;
       fs_read_fault := fun _ _ => None |} in
  (exists fs', saveAudioOnly c fs_create "r1" "i1" "out.wav"
               = (Some (ErrWrap "create audio file" denied), c, fs')) /\
  (exists fs', saveAudioOnly c fs_write "r1" "i1" "out.wav"
               = (Some (ErrWrap "write audio data" full), c, fs')) /\
  buffered c (audioKeyOf "r1" "i1") = [x01; x02].
Proof.
  cbv zeta. split; [eexists; vm_compute; reflexivity|].
  split; [eexists; vm_compute; reflexivity|]. vm_compute. reflexivity.
Qed.

End Reassembler.

(* ================================================================= *)
(** ** Strings: slicing, trimming, decimal numerals                   *)
(* ================================================================= *)

Section Strings.

Implicit Types (s p a b : string).

Lemma append_cons (ch : ascii) a b : String ch a +:+ b = String ch (a +:+ b).
Proof. reflexivity. Qed.

Lemma length_append a b :
  String.length (a +:+ b) = (String.length a + String.length b)%nat.
Proof.
  induction a as [|ch a IH]; [reflexivity|].
  rewrite append_cons. simpl. now f_equal.
Qed.

Lemma append_assoc a b s : (a +:+ b) +:+ s = a +:+ (b +:+ s).
Proof.
  induction a as [|ch a IH]; [reflexivity|].
  rewrite !append_cons. now f_equal.
Qed.

Lemma str_take_append a b : str_take (String.length a) (a +:+ b) = a.
Proof.
  induction a as [|ch a IH]; [now destruct b|].
  rewrite append_cons. simpl. now f_equal.
Qed.

Lemma str_drop_append a b : str_drop (String.length a) (a +:+ b) = b.
Proof.
  induction a as [|ch a IH]; [now destruct b|].
  rewrite append_cons. simpl. exact IH.
Qed.

Lemma HasPrefix_append p s : HasPrefix (p +:+ s) p = true.
Proof.
  unfold HasPrefix. rewrite str_take_append, String.eqb_refl, andb_true_r.
  apply Nat.leb_le. rewrite length_append. lia.
Qed.

Lemma TrimPrefix_append p s : TrimPrefix (p +:+ s) p = s.
Proof. unfold TrimPrefix. now rewrite HasPrefix_append, str_drop_append. Qed.

Lemma HasSuffix_append s b : HasSuffix (s +:+ b) b = true.
Proof.
  unfold HasSuffix. rewrite length_append.
  replace (String.length s + String.length b - String.length b)%nat
    with (String.length s) by lia.
  rewrite str_drop_append, String.eqb_refl, andb_true_r.
  apply Nat.leb_le. lia.
Qed.

Lemma TrimSuffix_append s b : TrimSuffix (s +:+ b) b = s.
Proof.
  unfold TrimSuffix. rewrite HasSuffix_append, length_append.
  replace (String.length s + String.length b - String.length b)%nat
    with (String.length s) by lia.
  apply str_take_append.
Qed.

Lemma parse_digits_append a b (acc : Z) :
  parse_digits (a +:+ b) acc
  = match parse_digits a acc with
    | Some v => parse_digits b v
    | None => None
    end.
Proof.
  revert acc. induction a as [|ch a IH]; intros acc; [reflexivity|].
  rewrite append_cons. cbn [parse_digits].
  destruct (digit_of ch); [apply IH | reflexivity].
Qed.

Lemma digit_of_pretty_N_char (d : N) :
  (d < 10)%N -> digit_of (pretty_N_char d) = Some (Z.of_N d).
Proof.
  intros Hd.
  assert (H : (d = 0 \/ d = 1 \/ d = 2 \/ d = 3 \/ d = 4 \/ d = 5 \/ d = 6
               \/ d = 7 \/ d = 8 \/ d = 9)%N) by lia.
  repeat (destruct H as [-> | H]; [reflexivity|]). now subst.
Qed.

Lemma pretty_N_go_append (x : N) :
  forall s, pretty_N_go x s = pretty_N_go x "" +:+ s.
Proof.
  induction (N.lt_wf_0 x) as [x _ IH]. intros s.
  destruct (N.eq_dec x 0%N) as [->|Hx]; [reflexivity|].
  assert (Hlt : (x `div` 10 < x)%N) by (apply N.div_lt; lia).
  rewrite (pretty_N_go_step x s), (pretty_N_go_step x "") by lia.
  rewrite (IH _ Hlt (String _ s)), (IH _ Hlt (String _ "")).
  now rewrite append_assoc.
Qed.

(** The digits [pretty] prints read back as the number. *)
Lemma parse_digits_pretty_N_go (x : N) :
  parse_digits (pretty_N_go x "") 0 = Some (Z.of_N x).
Proof.
  induction (N.lt_wf_0 x) as [x _ IH].
  destruct (N.eq_dec x 0%N) as [->|Hx]; [reflexivity|].
  assert (Hlt : (x `div` 10 < x)%N) by (apply N.div_lt; lia).
  rewrite pretty_N_go_step, pretty_N_go_append by lia.
  rewrite parse_digits_append, (IH _ Hlt). cbn [parse_digits].
  rewrite digit_of_pretty_N_char by (apply N.mod_lt; lia).
  f_equal. rewrite (N.div_mod x 10) at 3 by lia. lia.
Qed.

Lemma itoa_nonneg (n : Z) :
  0 <= n -> itoa n <> "" /\ parse_digits (itoa n) 0 = Some n.
Proof.
  intros Hn. unfold itoa, pretty, pretty_Z.
  destruct n as [|q|q]; [split; [discriminate|reflexivity] | | lia].
  unfold pretty, pretty_positive, pretty, pretty_N.
  rewrite decide_False by discriminate.
  pose proof (parse_digits_pretty_N_go (N.pos q)) as Hp.
  split; [|exact Hp].
  intros E. rewrite E in Hp. discriminate.
Qed.

Lemma Atoi_digits s (n : Z) :
  s <> "" -> parse_digits s 0 = Some n -> n < 2 ^ 63 -> Atoi s = inr n.
Proof.
  intros Hne Hp Hn. destruct s as [|ch s']; [done|].
  unfold Atoi.
  assert (Hd : exists d, digit_of ch = Some d).
  { cbn in Hp. destruct (digit_of ch); [eauto | discriminate]. }
  destruct Hd as [d Hd].
  assert (Hm : Ascii.eqb ch "-" = false).
  { destruct (Ascii.eqb_spec ch "-") as [->|]; [discriminate Hd | reflexivity]. }
  assert (Hpl : Ascii.eqb ch "+" = false).
  { destruct (Ascii.eqb_spec ch "+") as [->|]; [discriminate Hd | reflexivity]. }
  rewrite Hm, Hpl. cbn [orb]. rewrite Hp.
  destruct (Z.leb_spec (2 ^ 63) n); [lia | reflexivity].
Qed.

Lemma Atoi_itoa (n : Z) : 0 <= n < 2 ^ 63 -> Atoi (itoa n) = inr n.
Proof.
  intros [H0 H1]. destruct (itoa_nonneg n H0) as [Hne Hp].
  now apply Atoi_digits.
Qed.

(** Zeros in front of a numeral do not change its value. *)
Lemma parse_digits_zeros (k : nat) s :
  parse_digits (string_of_list_ascii (repeat "0"%char k) +:+ s) 0
  = parse_digits s 0.
Proof. induction k as [|k IH]; [reflexivity | exact IH]. Qed.

(** What [Atoi] makes of a numeral of [n]: an optional plus sign, any
    number of zeros, the digits of [n]. *)
Lemma Atoi_numeral (sign : string) (k : nat) (n : Z) :
  sign = "" \/ sign = "+" ->
  0 <= n ->
  Atoi (sign +:+ string_of_list_ascii (repeat "0"%char k) +:+ itoa n)
  = if 2 ^ 63 <=? n then
      inl (ErrNum "Atoi"
             (sign +:+ string_of_list_ascii (repeat "0"%char k) +:+ itoa n)
             ErrRange)
    else inr n.
Proof.
  intros Hsign Hn. destruct (itoa_nonneg n Hn) as [Hne Hp].
  set (digits := string_of_list_ascii (repeat "0"%char k) +:+ itoa n).
  assert (Hd : parse_digits digits 0 = Some n)
    by (unfold digits; now rewrite parse_digits_zeros).
  assert (Hdne : digits <> "").
  { unfold digits. destruct k; [exact Hne | discriminate]. }
  destruct Hsign as [-> | ->].
  - change ("" +:+ digits) with digits.
    destruct digits as [|ch rest] eqn:E; [done|].
    unfold Atoi.
    assert (Hdig : exists d, digit_of ch = Some d).
    { cbn in Hd. destruct (digit_of ch); [eauto | discriminate]. }
    destruct Hdig as [d Hdig].
    assert (Hm : Ascii.eqb ch "-" = false).
    { destruct (Ascii.eqb_spec ch "-") as [->|]; [discriminate Hdig | reflexivity]. }
    assert (Hpl : Ascii.eqb ch "+" = false).
    { destruct (Ascii.eqb_spec ch "+") as [->|]; [discriminate Hdig | reflexivity]. }
    rewrite Hm, Hpl. cbn [orb]. now rewrite Hd.
  - change ("+" +:+ digits) with (String "+" digits).
    unfold Atoi. cbn [Ascii.eqb Bool.eqb andb orb].
    destruct digits as [|ch rest] eqn:E; [done|].
    now rewrite Hd.
Qed.

(** How the sentinel with a numeral of [n] decodes. *)
Lemma decode_delta_trimmed (avail : Z) (sign : string) (k : nat) (n : Z) :
  sign = "" \/ sign = "+" ->
  0 <= n ->
  decode_delta avail
    ("[trimmed: "
     +:+ (sign +:+ string_of_list_ascii (repeat "0"%char k) +:+ itoa n)
     +:+ " bytes]")
  = if 2 ^ 63 <=? n then
      Returns (inl (ErrWrap "parse audio size"
                      (ErrNum "Atoi"
                         (sign +:+ string_of_list_ascii (repeat "0"%char k)
                          +:+ itoa n) ErrRange)))
    else
      match make_bytes avail n with
      | Panics msg => Panics msg
      | Returns processedData => Returns (inr processedData)
      end.
Proof.
  intros Hsign Hn. unfold decode_delta.
  set (numeral := sign +:+ string_of_list_ascii (repeat "0"%char k) +:+ itoa n).
  rewrite HasPrefix_append.
  rewrite <- (append_assoc "[trimmed: " numeral " bytes]") at 1.
  rewrite HasSuffix_append. cbn [andb].
  rewrite TrimPrefix_append, TrimSuffix_append.
  unfold numeral. rewrite Atoi_numeral by assumption.
  now destruct (2 ^ 63 <=? n).
Qed.

Lemma make_bytes_returns (avail n : Z) :
  0 <= n <= maxAlloc -> n <= avail ->
  make_bytes avail n = Returns (repeat x00 (Z.to_nat n)).
Proof.
  intros Hn Ha. unfold make_bytes.
  destruct (Z.ltb_spec n 0); [lia|].
  destruct (Z.ltb_spec maxAlloc n); [lia|]. cbn [orb].
  destruct (Z.ltb_spec (Z.max 0 avail) n); [lia | reflexivity].
Qed.

End Strings.

(* ================================================================= *)
(** ** The dispatcher                                                 *)
(* ================================================================= *)

Section Dispatcher.

Implicit Types (c : ChatClient) (fs : FileSystem).

Lemma audioProcessingRun_flush c : audioProcessingRun c = flush c.
Proof.
  unfold audioProcessingRun, flush, deliver.
  remember (AudioChannel c) as queue eqn:Hq.
  revert c Hq. induction queue as [|chunk rest IH]; intros c Hq.
  - cbn. destruct c; cbn in *; now subst.
  - cbn [foldl]. unfold audioProcessingStep at 2. rewrite <- Hq.
    rewrite andb_false_r. cbn [snd].
    rewrite (IH (handleAudioChunk (with_AudioChannel c rest) chunk)) by reflexivity.
    reflexivity.
Qed.

Lemma deliver_app c (a b : list AudioChunk) :
  deliver c (a ++ b) = deliver (deliver c a) b.
Proof. unfold deliver. apply foldl_app. Qed.

Lemma flush_enqueue c (chunk : AudioChunk) :
  flush (with_AudioChannel c (AudioChannel c ++ [chunk]))
  = handleAudioChunk (flush c) chunk.
Proof. unfold flush. cbn [AudioChannel with_AudioChannel]. now rewrite deliver_app. Qed.

Lemma flush_step c :
  AudioChannel c <> [] ->
  flush (snd (audioProcessingStep c false)) = flush c.
Proof.
  intros Hne. unfold audioProcessingStep, flush.
  destruct (AudioChannel c) as [|chunk rest] eqn:Hq; [done|].
  rewrite andb_false_r. cbn [snd]. reflexivity.
Qed.




(** It fails too for a count in the range of [int] that [makeslice]
    refuses, whatever memory there is: 2^62 passes [Atoi] and [make]
    panics. The first count refused is 2^48 + 1. *)
Lemma C3_count_above_limit (avail : Z) :
  let c := NewChatClient (dial (fun _ => None)) DefaultConfig in
  let msg := fun delta =>
    {| msg_Type := "response.audio.delta"; msg_ResponseID := "r1";
       msg_ItemID := "i1"; msg_OutputIndex := 0; msg_ContentIndex := 0;
       msg_Delta := delta |} in
  Atoi "4611686018427387904" = inr (2 ^ 62) /\
  handleAudioResponse c avail false
    (inr (msg "[trimmed: 4611686018427387904 bytes]"))
  = Panics "makeslice: len out of range" /\
  handleAudioResponse c avail false
    (inr (msg "[trimmed: 281474976710657 bytes]"))
  = Panics "makeslice: len out of range".
Proof. cbv zeta. repeat split; reflexivity. Qed.

(** Within the limit the call depends on the memory there is: a
    count of 2^40 with 2^30 bytes to be had ends the program. *)
Lemma C3_count_above_memory :
  let c := NewChatClient (dial (fun _ => None)) DefaultConfig in
  let msg := {| msg_Type := "response.audio.delta"; msg_ResponseID := "r1";
                msg_ItemID := "i1"; msg_OutputIndex := 0;
                msg_ContentIndex := 0;
                msg_Delta := "[trimmed: 1099511627776 bytes]" |} in
  handleAudioResponse c (2 ^ 30) false (inr msg) = Panics out_of_memory.
Proof. reflexivity. Qed.

(** And with the done channel closed the [select] may take that case,
    although the channel has room: the call returns the shut-down
    error and the 512 bytes are dropped. *)
Lemma C3_dropped_after_done :
  let c := close_Done (NewChatClient (dial (fun _ => None)) DefaultConfig) in
  let msg := {| msg_Type := "response.audio.delta"; msg_ResponseID := "r1";
                msg_ItemID := "i1"; msg_OutputIndex := 0;
                msg_ContentIndex := 0;
                msg_Delta := "[trimmed: 512 bytes]" |} in
  decode_delta 512 (msg_Delta msg) = Returns (inr (repeat x00 512)) /\
  handleAudioResponse c 512 true (inr msg)
  = Returns (Some (ErrNew "client shutdown while processing audio"), c) /\
  AudioChannel c = [] /\
  buffered (audioProcessingRun c) "r1_i1" = [].
Proof. cbv zeta. repeat split; vm_compute; reflexivity. Qed.

(** Nor is anything queued for a frame that [json.Unmarshal] rejects
    (a field of the wrong type, say), whatever its delta: the call
    returns the error. *)
Lemma C3_frame_not_unmarshalled c (avail : Z) (pick_done : bool) (err : error) :
  handleAudioResponse c avail pick_done (inl err)
  = Returns (Some (ErrWrap "unmarshal audio message" err), c).
Proof. reflexivity. Qed.

(** C10. A sentinel with the count [-1]: [Atoi] accepts the numeral,
    [make] is called with a negative length, and the call panics where
    it could have returned an error; the receive loop, which calls it,
    panics with it. *)
Theorem C10_negative_count_panics c (avail : Z) (pick_done : bool)
    (responseID itemID : string) (outputIndex contentIndex : Z) :
  let msg := {| msg_Type := "response.audio.delta";
                msg_ResponseID := responseID; msg_ItemID := itemID;
                msg_OutputIndex := outputIndex;
                msg_ContentIndex := contentIndex;
                msg_Delta := "[trimmed: -1 bytes]" |} in
  Atoi "-1" = inr (-1) /\
  handleAudioResponse c avail pick_done (inr msg)
  = Panics "makeslice: len out of range" /\
  receiveRoutine [ReadMessage (AudioDeltaFrame (inr msg) avail pick_done)]
    (NewChatClient (dial (fun _ => None)) DefaultConfig) (healthy_fs ∅)
  = Panics "makeslice: len out of range".
Proof.
  cbv zeta. split; [reflexivity|]. split; [reflexivity|].
  vm_compute. reflexivity.
Qed.

Lemma WG_Done_keeps c :
  Done (WG_Done c) = Done c /\ Conn (WG_Done c) = Conn c
  /\ Logger (WG_Done c) = Logger c /\ ShutdownOnce (WG_Done c) = ShutdownOnce c.
Proof. unfold WG_Done. cbv zeta. destruct (_ && _); now repeat split. Qed.

Lemma iter_WG_Done_keeps (k : nat) c :
  Done (Nat.iter k WG_Done c) = Done c /\ Conn (Nat.iter k WG_Done c) = Conn c
  /\ Logger (Nat.iter k WG_Done c) = Logger c
  /\ ShutdownOnce (Nat.iter k WG_Done c) = ShutdownOnce c.
Proof.
  induction k as [|k IH]; [now repeat split|].
  rewrite Nat.iter_succ.
  destruct (WG_Done_keeps (Nat.iter k WG_Done c)) as (-> & -> & -> & ->).
  exact IH.
Qed.

Lemma shutdown_fires c (exited : nat) (timer_first : bool) :
  ShutdownOnce c = false ->
  let c' := shutdown c exited timer_first in
  ShutdownOnce c' = true /\ Done c' = true /\
  conn_closed (Conn c') = true /\ Closed (Logger c') = true.
Proof.
  intros Honce. unfold shutdown. rewrite Honce.
  set (c1 := closer_start (close_Done c)).
  destruct (WG c1 =? 0)%nat.
  - destruct (closer_finished (closer_finish c1) && negb timer_first); now cbn.
  - destruct (iter_WG_Done_keeps (Nat.min exited (WG c1)) c1) as (Hd & Hc & Hl & _).
    destruct (closer_finished _ && negb timer_first);
      cbn [set_ShutdownOnce ShutdownOnce Done Conn Logger];
      rewrite Hd, Hc, Hl; now cbn.
Qed.

(** C6 (amended). With the done channel open: a read timeout leaves the
    client as it is and the loop goes on to the next receive; a close
    error with the normal or the going-away code ends the loop with
    the client as it is (no error counted, no shutdown); a close error
    with any other code is counted, calls [shutdown] and ends the
    loop; every other read error is counted and the loop goes on to
    the next receive. *)
Theorem C6_read_errors c fs (audioFiles : gmap string string)
    (rest : list Received) (exited : nat) (timer_first : bool) :
  Done c = false ->
  receiveLoop (ReadFailed (NetError true) exited timer_first :: rest)
    c fs audioFiles
  = receiveLoop rest c fs audioFiles /\
  (forall code : Z,
      code = CloseNormalClosure \/ code = CloseGoingAway ->
      receiveLoop (ReadFailed (CloseError code) exited timer_first :: rest)
        c fs audioFiles
      = Returns (Exited, c, fs)) /\
  (forall code : Z,
      code <> CloseNormalClosure -> code <> CloseGoingAway ->
      let c' := shutdown (count_error c)
                  (Nat.min exited (Nat.pred (WG c))) timer_first in
      receiveLoop (ReadFailed (CloseError code) exited timer_first :: rest)
        c fs audioFiles
      = Returns (Exited, c', fs) /\
      (ShutdownOnce c = false -> ShutdownOnce c' = true /\ Done c' = true)) /\
  (forall err : ReadError,
      err = NetError false \/ (exists msg, err = OtherError msg) ->
      receiveLoop (ReadFailed err exited timer_first :: rest) c fs audioFiles
      = receiveLoop rest (count_error c) fs audioFiles).
Proof.
  intros Hdone. split; [|split; [|split]].
  - cbn [receiveLoop]. now rewrite Hdone.
  - intros code [-> | ->]; cbn [receiveLoop]; now rewrite Hdone.
  - intros code H1 H2 c'. split.
    + cbn [receiveLoop]. rewrite Hdone. unfold onReadError, IsCloseError.
      cbn [existsb]. unfold CloseNormalClosure, CloseGoingAway in *.
      destruct (Z.eqb_spec code 1000); [done|].
      destruct (Z.eqb_spec code 1001); [done|]. reflexivity.
    + intros Honce.
      destruct (shutdown_fires (count_error c)
                  (Nat.min exited (Nat.pred (WG c))) timer_first Honce)
        as (Ho & Hd & _).
      split; assumption.
  - intros err [-> | [msg ->]]; cbn [receiveLoop]; now rewrite Hdone.
Qed.

Lemma C6_read_errors_witness :
  let c := NewChatClient (dial (fun _ => None)) DefaultConfig in
  let fs := healthy_fs ∅ in
  Done c = false /\
  receiveLoop [ReadFailed (NetError true) 0 false] c fs ∅
  = Returns (Running, c, fs) /\
  receiveLoop [ReadFailed (CloseError 1000) 0 false] c fs ∅
  = Returns (Exited, c, fs) /\
  (exists c', receiveLoop [ReadFailed (CloseError 1006) 0 false] c fs ∅
              = Returns (Exited, c', fs)
              /\ ShutdownOnce c' = true /\ Done c' = true).
Proof.
  cbv zeta.
  destruct (C6_read_errors (NewChatClient (dial (fun _ => None)) DefaultConfig)
              (healthy_fs ∅) ∅ [] 0%nat false eq_refl)
    as (Htimeout & Hclean & Hother & _).
  split; [reflexivity|]. split; [exact Htimeout|].
  split; [apply Hclean; now left|].
  destruct (Hother 1006) as [Hret Hfired]; [discriminate | discriminate |].
  eexists. split; [exact Hret|]. now apply Hfired.
Defined.

(** C6 as stated fails for a read error that is neither a timeout nor
    a close error: it is counted, [shutdown] is not called, and the
    loop is in its next receive. *)
Lemma C6_other_error_not_fatal :
  let c := NewChatClient (dial (fun _ => None)) DefaultConfig in
  let fs := healthy_fs ∅ in
  let err := OtherError "read: connection reset by peer" in
  IsCloseError err [CloseNormalClosure; CloseGoingAway] = false /\
  isTimeout err = false /\
  exists c',
    receiveLoop [ReadFailed err 0 false] c fs ∅ = Returns (Running, c', fs) /\
    Errors (Metrics c') = 1 /\
    ShutdownOnce c' = false /\ Done c' = false /\ Events c' = [].
Proof.
  cbv zeta. split; [reflexivity|]. split; [reflexivity|].
  eexists. split; [reflexivity|]. now vm_compute.
Qed.

End Dispatcher.

(* ================================================================= *)
(** ** Base64: decoding what was encoded                              *)
(* ================================================================= *)

Section Base64.

Lemma alphabet_facts (n : nat) :
  (n < 64)%nat ->
  let ch := b64_char (Z.of_nat n) in
  b64_value ch = Some (Z.of_nat n)
  /\ Ascii.eqb ch "=" = false
  /\ Ascii.eqb ch "010" || Ascii.eqb ch "013" = false.
Proof.
  intros Hn.
  do 64 (destruct n as [|n]; [vm_compute; repeat split; reflexivity|]).
  lia.
Qed.

Lemma land63 (v : Z) : Z.land v 63 = v mod 64.
Proof. change 63 with (Z.ones 6). now rewrite Z.land_ones by lia. Qed.

Lemma b64_char_mod (v : Z) : b64_char v = b64_char (v mod 64).
Proof.
  unfold b64_char. rewrite !land63, Z.mod_mod by lia. reflexivity.
Qed.

Lemma b64_char_facts (v : Z) :
  b64_value (b64_char v) = Some (v mod 64)
  /\ Ascii.eqb (b64_char v) "=" = false
  /\ Ascii.eqb (b64_char v) "010" || Ascii.eqb (b64_char v) "013" = false.
Proof.
  assert (Hr : 0 <= v mod 64 < 64) by (apply Z.mod_pos_bound; lia).
  rewrite (b64_char_mod v).
  pose proof (alphabet_facts (Z.to_nat (v mod 64))) as H.
  cbv zeta in H. rewrite Z2Nat.id in H by lia. apply H. lia.
Qed.

Lemma lor_high_low (hi lo k : Z) :
  0 <= k -> 0 <= lo < 2 ^ k -> hi mod 2 ^ k = 0 -> Z.lor hi lo = hi + lo.
Proof.
  intros Hk Hlo Hhi.
  assert (Hp : 0 < 2 ^ k) by (apply Z.pow_pos_nonneg; lia).
  rewrite (Z.div_mod hi (2 ^ k)) at 1 2 by lia. rewrite Hhi, Z.add_0_r.
  rewrite Z.lor_comm, (Z.mul_comm (2 ^ k)), <- Z.shiftl_mul_pow2 by lia.
  rewrite lor_shiftl_add by lia. rewrite Z.shiftl_mul_pow2 by lia. lia.
Qed.

Lemma quantum_sum (a b c : Z) :
  0 <= a < 256 -> 0 <= b < 256 -> 0 <= c < 256 ->
  quantum a b c = a * 65536 + b * 256 + c.
Proof.
  intros Ha Hb Hc. unfold quantum.
  rewrite !Z.shiftl_mul_pow2 by lia.
  change (2 ^ 16) with 65536. change (2 ^ 8) with 256.
  rewrite (lor_high_low (a * 65536) (b * 256) 16); [|lia|cbn; lia|].
  2:{ change (2 ^ 16) with 65536. now rewrite Z.mod_mul by lia. }
  rewrite (lor_high_low _ c 8); [reflexivity|lia|cbn; lia|].
  change (2 ^ 8) with 256. Z.div_mod_to_equations. lia.
Qed.

Lemma sextets_sum (v0 v1 v2 v3 : Z) :
  0 <= v0 < 64 -> 0 <= v1 < 64 -> 0 <= v2 < 64 -> 0 <= v3 < 64 ->
  sextets v0 v1 v2 v3 = v0 * 262144 + v1 * 4096 + v2 * 64 + v3.
Proof.
  intros H0 H1 H2 H3. unfold sextets.
  rewrite !Z.shiftl_mul_pow2 by lia.
  change (2 ^ 18) with 262144. change (2 ^ 12) with 4096.
  change (2 ^ 6) with 64.
  rewrite (lor_high_low (v0 * 262144) (v1 * 4096) 18); [|lia|cbn; lia|].
  2:{ change (2 ^ 18) with 262144. now rewrite Z.mod_mul by lia. }
  rewrite (lor_high_low _ (v2 * 64) 12); [|lia|cbn; lia|].
  2:{ change (2 ^ 12) with 4096. Z.div_mod_to_equations. lia. }
  rewrite (lor_high_low _ v3 6); [reflexivity|lia|cbn; lia|].
  change (2 ^ 6) with 64. Z.div_mod_to_equations. lia.
Qed.

(** The four sextets of a 24-bit value put it together again. *)
Lemma sextets_of_quantum (val : Z) :
  0 <= val < 16777216 ->
  sextets ((val / 262144) mod 64) ((val / 4096) mod 64)
          ((val / 64) mod 64) (val mod 64) = val.
Proof.
  intros Hv. rewrite sextets_sum by (apply Z.mod_pos_bound; lia).
  Z.div_mod_to_equations. lia.
Qed.

Lemma byte_of_Z_mod (z : Z) : byte_of_Z (z mod 256) = byte_of_Z z.
Proof. unfold byte_of_Z. now rewrite Z.mod_mod by lia. Qed.

Lemma byte_of_Z_eq (z : Z) (b : byte) : z mod 256 = Z_of_byte b -> byte_of_Z z = b.
Proof. intros H. now rewrite <- byte_of_Z_mod, H, byte_of_Z_of_byte. Qed.

Lemma list_ind3 {A : Type} (P : list A -> Prop) :
  P [] -> (forall a, P [a]) -> (forall a b, P [a; b]) ->
  (forall a b c rest, P rest -> P (a :: b :: c :: rest)) ->
  forall l, P l.
Proof.
  intros H0 H1 H2 H3.
  fix IH 1. intros [|a [|b [|c rest]]]; [exact H0 | apply H1 | apply H2 |].
  apply H3, IH.
Qed.

Ltac b64_norm :=
  rewrite ?Z.shiftr_div_pow2, ?Z.shiftl_mul_pow2 by lia;
  change (2 ^ 18) with 262144; change (2 ^ 16) with 65536;
  change (2 ^ 12) with 4096; change (2 ^ 8) with 256;
  change (2 ^ 6) with 64.

Ltac b64_chars :=
  repeat match goal with
  | |- context [b64_value (b64_char ?v)] =>
      rewrite (proj1 (b64_char_facts v))
  | |- context [Ascii.eqb (b64_char ?v) "="] =>
      rewrite (proj1 (proj2 (b64_char_facts v)))
  end.

Lemma decode_quanta_encode (p : list byte) :
  decode_quanta (EncodeToString p) = Some p.
Proof.
  induction p as [|a|a b|a b c rest IH] using list_ind3.
  - reflexivity.
  - cbn [EncodeToString decode_quanta]. b64_chars. cbn.
    pose proof (Z_of_byte_range a) as Ha.
    do 2 f_equal. apply byte_of_Z_eq. b64_norm.
    rewrite sextets_sum by (try apply Z.mod_pos_bound; lia).
    Z.div_mod_to_equations. lia.
  - cbn [EncodeToString decode_quanta]. b64_chars. cbn.
    pose proof (Z_of_byte_range a) as Ha. pose proof (Z_of_byte_range b) as Hb.
    assert (Hq : Z.lor (Z.shiftl (Z_of_byte a) 16) (Z.shiftl (Z_of_byte b) 8)
                 = Z_of_byte a * 65536 + Z_of_byte b * 256).
    { pose proof (quantum_sum (Z_of_byte a) (Z_of_byte b) 0 Ha Hb) as Hq.
      unfold quantum in Hq. rewrite Z.lor_0_r in Hq. rewrite Hq; lia. }
    rewrite !Hq. b64_norm.
    rewrite sextets_sum by (try apply Z.mod_pos_bound; lia).
    do 2 f_equal; [|f_equal]; apply byte_of_Z_eq; b64_norm;
      Z.div_mod_to_equations; lia.
  - cbn [EncodeToString decode_quanta]. b64_chars. rewrite IH.
    pose proof (Z_of_byte_range a) as Ha. pose proof (Z_of_byte_range b) as Hb.
    pose proof (Z_of_byte_range c) as Hc.
    rewrite (quantum_sum _ _ _ Ha Hb Hc). b64_norm.
    set (val := Z_of_byte a * 65536 + Z_of_byte b * 256 + Z_of_byte c).
    assert (Hv : 0 <= val < 16777216) by (unfold val; lia).
    rewrite (sextets_of_quantum val Hv).
    do 2 f_equal; [|f_equal; [|f_equal]]; apply byte_of_Z_eq; b64_norm;
      unfold val; Z.div_mod_to_equations; lia.
Qed.

Lemma strip_newlines_encode (p : list byte) :
  strip_newlines (EncodeToString p) = EncodeToString p.
Proof.
  induction p as [|a|a b|a b c rest IH] using list_ind3;
    cbn [EncodeToString strip_newlines];
    repeat match goal with
    | |- context [Ascii.eqb (b64_char ?v) "010" || Ascii.eqb (b64_char ?v) "013"] =>
        rewrite (proj2 (proj2 (b64_char_facts v)))
    end; [reflexivity .. |].
  now rewrite IH.
Qed.

(** What [EncodeToString] produced, [DecodeString] gives back. *)
Lemma DecodeString_EncodeToString (p : list byte) :
  DecodeString (EncodeToString p) = inr p.
Proof.
  unfold DecodeString. now rewrite strip_newlines_encode, decode_quanta_encode.
Qed.

End Base64.

(* ================================================================= *)
(** ** The outbound framer                                            *)
(* ================================================================= *)

Section Events.

Lemma append_events_length (pieces : list (list byte)) :
  forall count, length (append_events count pieces) = length pieces.
Proof.
  induction pieces as [|p rest IH]; intros count; cbn; [reflexivity|].
  now rewrite IH.
Qed.

(** The event at position [i] carries the number [count + i + 1]. *)
Lemma append_events_lookup (pieces : list (list byte)) :
  forall count (i : nat) (m : WireMsg),
    append_events count pieces !! i = Some m ->
    exists p, pieces !! i = Some p
              /\ m = AudioAppend "input_audio_buffer.append"
                      ("evt_audio_" +:+ itoa (count + Z.of_nat i + 1))
                      (EncodeToString p).
Proof.
  induction pieces as [|p rest IH]; intros count i m H; [done|].
  destruct i as [|i]; cbn in H.
  - injection H as <-. exists p. split; [reflexivity|].
    unfold appendEvent. now rewrite Z.add_0_r.
  - apply IH in H as (q & Hq & ->). exists q. split; [exact Hq|].
    do 3 f_equal. lia.
Qed.

Lemma append_events_all_append (pieces : list (list byte)) :
  forall count, forallb is_append (append_events count pieces) = true.
Proof. induction pieces as [|p rest IH]; intros count; cbn; auto. Qed.

Lemma decoded_payloads_append_events (pieces : list (list byte)) :
  forall count (tail : list WireMsg),
    decoded_payloads (append_events count pieces ++ tail)
    = match decoded_payloads tail with
      | Some ps => Some (concat pieces ++ ps)
      | None => None
      end.
Proof.
  induction pieces as [|p rest IH]; intros count tail.
  - cbn. now destruct (decoded_payloads tail).
  - cbn [append_events app decoded_payloads appendEvent concat].
    rewrite DecodeString_EncodeToString, IH.
    destruct (decoded_payloads tail); [now rewrite app_assoc | reflexivity].
Qed.

End Events.

Section Framer.

Implicit Types (c : ChatClient) (fs : FileSystem) (file : InFile).

Variable size : nat.
Hypothesis size_pos : (0 < size)%nat.

Lemma chunks_fuel_enough (f1 : nat) :
  forall (f2 : nat) (l : list byte),
    (length l <= f1)%nat -> (length l <= f2)%nat ->
    chunks_fuel f1 size l = chunks_fuel f2 size l.
Proof.
  induction f1 as [|f1 IH]; intros f2 l H1 H2.
  - destruct l; [|cbn in H1; lia]. now destruct f2.
  - destruct l as [|b l]; [now destruct f2|].
    destruct f2 as [|f2]; [cbn in H2; lia|].
    cbn [chunks_fuel]. f_equal. apply IH.
    + rewrite length_drop. cbn [length] in *. lia.
    + rewrite length_drop. cbn [length] in *. lia.
Qed.

Lemma chunks_of_cons (l : list byte) :
  l <> [] -> chunks_of size l = take size l :: chunks_of size (drop size l).
Proof.
  intros Hne. unfold chunks_of. destruct l as [|b l]; [done|].
  cbn [length chunks_fuel]. f_equal.
  apply chunks_fuel_enough; rewrite length_drop; cbn [length]; lia.
Qed.

(** Induction on lists by their length. *)
Lemma by_length (P : list byte -> Prop) :
  (forall l, (forall l', (length l' < length l)%nat -> P l') -> P l) ->
  forall l, P l.
Proof.
  intros Hstep l.
  assert (H : forall n l, (length l < n)%nat -> P l).
  { induction n as [|n IH]; intros l0 Hl; [lia|].
    apply Hstep. intros l' Hl'. apply IH. lia. }
  apply (H (S (length l))). lia.
Qed.

Lemma drop_shorter (l : list byte) :
  l <> [] -> (length (drop size l) < length l)%nat.
Proof.
  intros Hne. rewrite length_drop. destruct l; [done|]. cbn [length]. lia.
Qed.

Lemma chunks_of_concat (l : list byte) : concat (chunks_of size l) = l.
Proof.
  induction l as [l IH] using by_length.
  destruct (decide (l = [])) as [->|Hne]; [reflexivity|].
  rewrite chunks_of_cons by exact Hne. cbn [concat].
  rewrite IH by (now apply drop_shorter). apply take_drop.
Qed.

(** The number of pieces is the ceiling of [len / size]. *)
Lemma chunks_of_length (l : list byte) :
  Z.of_nat (length (chunks_of size l))
  = (Z.of_nat (length l) + Z.of_nat size - 1) / Z.of_nat size.
Proof.
  induction l as [l IH] using by_length.
  destruct (decide (l = [])) as [->|Hne].
  - cbn [chunks_of chunks_fuel length]. symmetry. apply Z.div_small. lia.
  - rewrite chunks_of_cons by exact Hne. cbn [length].
    rewrite Nat2Z.inj_succ, IH by (now apply drop_shorter).
    rewrite length_drop.
    assert (Hl : (0 < length l)%nat) by (destruct l; [done|cbn; lia]).
    destruct (le_lt_dec (length l) size) as [Hle|Hgt].
    + replace (length l - size)%nat with 0%nat by lia.
      rewrite (Z.div_small (Z.of_nat 0 + _ - 1)) by lia.
      change (Z.succ 0) with 1.
      apply (Z.div_unique _ _ 1 (Z.of_nat (length l) - 1)); lia.
    + rewrite Nat2Z.inj_sub by lia.
      replace (Z.of_nat (length l) + Z.of_nat size - 1)
        with (Z.of_nat (length l) - Z.of_nat size + Z.of_nat size - 1
              + 1 * Z.of_nat size) by lia.
      rewrite Z.div_add by lia. lia.
Qed.

Lemma chunks_of_pieces (l p : list byte) :
  p ∈ chunks_of size l -> p <> [] /\ (length p <= size)%nat.
Proof.
  induction l as [l IH] using by_length.
  destruct (decide (l = [])) as [->|Hne]; [now intros ?%elem_of_nil|].
  rewrite chunks_of_cons by exact Hne.
  intros [->|Hin]%elem_of_cons.
  - split; [|rewrite length_take; lia].
    destruct l; [done|]. destruct size; [lia|discriminate].
  - apply (IH (drop size l)); [now apply drop_shorter | exact Hin].
Qed.

(** The loop of the framer, on a file that reads without fault, is the
    one-attempt emission of an append event per piece of what remains
    of the file, then of the commit event. *)
Lemma sendAudioChunks_spec (fuel : nat) :
  forall c file (chunkCount bytesSent : Z),
    no_read_fault file ->
    (length (remaining file) < fuel)%nat ->
    let pieces := chunks_of size (remaining file) in
    sendAudioChunks fuel c file size chunkCount bytesSent
    = Some (write_each_once c
              (append_events chunkCount pieces
               ++ [commitEvent (chunkCount + Z.of_nat (length pieces))])).
Proof.
  induction fuel as [|fuel IH]; intros c file chunkCount bytesSent Hf Hfuel;
    [lia|].
  cbn zeta. cbn [sendAudioChunks]. unfold file_Read. rewrite Hf.
  unfold remaining in *.
  destruct (drop (in_pos file) (in_data file)) as [|b avail] eqn:Hrem.
  - cbn. rewrite Z.add_0_r.
    destruct (logAndWrite c (commitEvent chunkCount)) as [[werr|] c']; reflexivity.
  - set (l := b :: avail) in *.
    assert (Hne : l <> []) by discriminate.
    assert (Hp : take size l <> []).
    { unfold l. destruct size; [lia|discriminate]. }
    clearbody l.
    rewrite (chunks_of_cons l Hne).
    cbn [is_EOF length append_events app write_each_once].
    destruct (Nat.ltb_spec 0 (length (take size l))) as [_|Hz];
      [|destruct (take size l); [done | cbn in Hz; lia]].
    destruct (logAndWrite c (appendEvent (chunkCount + 1) (take size l)))
      as [[werr|] c'] eqn:Hw; [reflexivity|].
    rewrite IH.
    + unfold remaining. cbn [in_tick in_pos in_data].
      rewrite <- drop_drop, Hrem.
      assert (Hd : drop (length (take size l)) l = drop size l).
      { rewrite length_take. destruct (le_lt_dec size (length l)).
        - now rewrite Nat.min_l by lia.
        - rewrite Nat.min_r by lia. now rewrite !drop_ge by lia. }
      rewrite Hd. do 5 f_equal. lia.
    + intros k. apply Hf.
    + unfold remaining. cbn [in_tick in_pos in_data].
      rewrite <- drop_drop, Hrem. rewrite length_drop.
      assert (0 < length l)%nat by (destruct l; [done | cbn; lia]).
      rewrite length_take. lia.
Qed.

(** The loop ends, whatever the file and the connection do: a read
    either fails, or finds the end of the file, or takes at least one
    byte of what remains. *)
Lemma sendAudioChunks_total (fuel : nat) :
  forall c file (chunkCount bytesSent : Z),
    (length (remaining file) < fuel)%nat ->
    is_Some (sendAudioChunks fuel c file size chunkCount bytesSent).
Proof.
  induction fuel as [|fuel IH]; intros c file chunkCount bytesSent Hfuel;
    [lia|].
  cbn [sendAudioChunks]. unfold file_Read, remaining in *.
  destruct (in_fault file (in_ops file)) as [e|].
  - cbn [length]. destruct e; cbn [is_EOF]; try (eexists; reflexivity).
    cbn. destruct (logAndWrite c (commitEvent chunkCount)) as [[werr|] c'];
      eexists; reflexivity.
  - destruct (drop (in_pos file) (in_data file)) as [|b avail] eqn:Hrem.
    + cbn.
      destruct (logAndWrite c (commitEvent chunkCount)) as [[werr|] c'];
        eexists; reflexivity.
    + set (l := b :: avail) in *.
      assert (Hp : take size l <> []).
      { unfold l. destruct size; [lia|discriminate]. }
      assert (Hl : (0 < length l)%nat) by (unfold l; cbn; lia).
      clearbody l. cbn [is_EOF].
      destruct (Nat.ltb_spec 0 (length (take size l))) as [_|Hz];
        [|destruct (take size l); [done | cbn in Hz; lia]].
      destruct (logAndWrite c (appendEvent (chunkCount + 1) (take size l)))
        as [[werr|] c']; [eexists; reflexivity|].
      apply IH. cbn [in_tick in_pos in_data].
      rewrite <- drop_drop, Hrem, length_drop, length_take. lia.
Qed.

End Framer.

Section Upload.

Implicit Types (c : ChatClient) (fs : FileSystem).

Lemma chunkBytes_value : Z.of_nat chunkBytes = 16384.
Proof. reflexivity. Qed.

Lemma chunkBytes_pos : (0 < chunkBytes)%nat.
Proof. apply Nat2Z.inj_lt. rewrite chunkBytes_value. lia. Qed.

Lemma write_each_once_app c (a b : list WireMsg) :
  write_each_once c (a ++ b)
  = match write_each_once c a with
    | (Some err, c') => (Some err, c')
    | (None, c') => write_each_once c' b
    end.
Proof.
  revert c. induction a as [|m a IH]; intros c; [reflexivity|].
  cbn [app write_each_once].
  destruct (logAndWrite c m) as [[err|] c']; [reflexivity | apply IH].
Qed.

(** [sendAudioMessage] returns on every input. *)
Lemma sendAudioMessage_total c fs (path : string) :
  is_Some (sendAudioMessage c fs path).
Proof.
  unfold sendAudioMessage.
  destruct (os_Open fs path) as [err|file]; [eexists; reflexivity|].
  destruct (file_Stat file) as [[err|totalSize] file1]; [eexists; reflexivity|].
  destruct (validateWAVFormat file1) as [[err|] file2]; [eexists; reflexivity|].
  destruct (file_Seek file2 44) as [[err|] file3] eqn:Hseek;
    [eexists; reflexivity|].
  destruct (logAndWrite c audioItem) as [[err|] c1]; [eexists; reflexivity|].
  destruct (sendAudioChunks_total chunkBytes chunkBytes_pos
              (S (length (in_data file3))) c1 file3 0 0) as [[[err|] c2] Hr].
  { unfold remaining. rewrite length_drop. lia. }
  - change (Z.to_nat (Chunking.ChunkSize DefaultAudioChunkConfig)) with chunkBytes.
    rewrite Hr. eexists; reflexivity.
  - change (Z.to_nat (Chunking.ChunkSize DefaultAudioChunkConfig)) with chunkBytes.
    rewrite Hr.
    destruct (logAndWrite c2 _) as [[err|] c3]; eexists; reflexivity.
Qed.

(** A well-formed file that reads without fault: the upload is the
    one-attempt emission of [upload_events]. *)
Lemma sendAudioMessage_spec c fs (path : string) (data : list byte) :
  fs_files fs !! path = Some data ->
  (forall k, fs_read_fault fs path k = None) ->
  fst (validateWAVFormat (opened data)) = None ->
  sendAudioMessage c fs path
  = Some (write_each_once c (upload_events (drop 44 data))).
Proof.
  intros Hfile Hfault Hvalid.
  assert (Hlen : (36 <= length data)%nat).
  { destruct (le_lt_dec 36 (length data)) as [|Hlt]; [assumption|].
    exfalso. revert Hvalid.
    unfold validateWAVFormat, file_ReadFull, opened, headerSize.
    cbn [in_fault in_ops in_pos in_data]. rewrite drop_0.
    destruct (Nat.leb_spec 36 (length data)); [lia | discriminate]. }
  rewrite validate_opened in Hvalid by exact Hlen.
  unfold sendAudioMessage, os_Open. rewrite Hfile.
  unfold file_Stat. cbn [in_fault in_ops]. rewrite Hfault.
  unfold validateWAVFormat, file_ReadFull, headerSize.
  cbn [in_tick in_fault in_ops in_pos in_data]. rewrite Hfault, drop_0.
  destruct (Nat.leb_spec 36 (length data)) as [_|]; [|lia].
  unfold file_Seek. cbn [in_tick in_fault in_ops in_pos in_data].
  rewrite Hfault, Hvalid. cbn [in_tick in_fault in_ops in_pos in_data].
  rewrite Hfault.
  unfold upload_events. cbn [app write_each_once].
  destruct (logAndWrite c audioItem) as [[err|] c1]; [reflexivity|].
  rewrite (sendAudioChunks_spec chunkBytes);
    [| exact chunkBytes_pos | intros k; apply Hfault
     | unfold remaining; cbn [in_pos in_data]; rewrite length_drop; lia ].
  unfold remaining. cbn [in_pos in_data].
  set (pieces := chunks_of chunkBytes (drop 44 data)).
  change [commitEvent (Z.of_nat (length pieces)); ResponseCreate "response.create"]
    with ([commitEvent (Z.of_nat (length pieces))] ++ [ResponseCreate "response.create"]).
  rewrite app_assoc, Z.add_0_l.
  rewrite (write_each_once_app c1
             (append_events 0 pieces ++ [commitEvent (Z.of_nat (length pieces))])).
  destruct (write_each_once c1 _) as [[err|] c2]; [reflexivity|].
  cbn [write_each_once].
  destruct (logAndWrite c2 _) as [[err|] c3]; reflexivity.
Qed.

Lemma logAndWrite_ok c (m : WireMsg) :
  conn_fault (Conn c) (conn_attempts (Conn c)) = None ->
  exists c',
    logAndWrite c m = (None, c') /\
    conn_sent (Conn c') = conn_sent (Conn c) ++ [m] /\
    conn_attempts (Conn c') = S (conn_attempts (Conn c)) /\
    only_written c c'.
Proof.
  intros Hok. unfold logAndWrite, WriteJSON, log_event.
  cbn [Conn with_Logger]. rewrite Hok.
  eexists. split; [reflexivity|]. now repeat split.
Qed.

Lemma logAndWrite_fail c (m : WireMsg) (e : error) :
  conn_fault (Conn c) (conn_attempts (Conn c)) = Some e ->
  exists c',
    logAndWrite c m = (Some e, c') /\
    conn_sent (Conn c') = conn_sent (Conn c) /\
    conn_attempts (Conn c') = S (conn_attempts (Conn c)) /\
    only_written c c'.
Proof.
  intros Hok. unfold logAndWrite, WriteJSON, log_event.
  cbn [Conn with_Logger]. rewrite Hok.
  eexists. split; [reflexivity|]. now repeat split.
Qed.

Lemma only_written_trans c1 c2 c3 :
  only_written c1 c2 -> only_written c2 c3 -> only_written c1 c3.
Proof. unfold only_written. intros (?&?&?&?) (?&?&?&?). repeat split; congruence. Qed.

(** No write fails: every message is sent, each attempted once. *)
Lemma write_each_once_ok (msgs : list WireMsg) :
  forall c,
    (forall k, (k < length msgs)%nat ->
               conn_fault (Conn c) (conn_attempts (Conn c) + k) = None) ->
    exists c',
      write_each_once c msgs = (None, c') /\
      conn_sent (Conn c') = conn_sent (Conn c) ++ msgs /\
      conn_attempts (Conn c') = (conn_attempts (Conn c) + length msgs)%nat /\
      only_written c c'.
Proof.
  induction msgs as [|m rest IH]; intros c Hok.
  - exists c. cbn. rewrite app_nil_r, Nat.add_0_r. now repeat split.
  - destruct (logAndWrite_ok c m) as (c1 & Hw & Hs1 & Ha1 & Hf1).
    { rewrite <- (Nat.add_0_r (conn_attempts _)). apply Hok. cbn. lia. }
    destruct (IH c1) as (c2 & Hw2 & Hs2 & Ha2 & Hf2).
    { intros k Hk. destruct Hf1 as (-> & _). rewrite Ha1.
      replace (S (conn_attempts (Conn c)) + k)%nat
        with (conn_attempts (Conn c) + S k)%nat by lia.
      apply Hok. cbn. lia. }
    exists c2. cbn [write_each_once]. rewrite Hw. split; [exact Hw2|].
    split; [rewrite Hs2, Hs1, <- app_assoc; reflexivity|].
    split; [rewrite Ha2, Ha1; cbn; lia|].
    eapply only_written_trans; eassumption.
Qed.

(** The write of the [j]-th message is the first to fail: the messages
    before it are sent, it is attempted once, and its error is
    returned under its context. *)
Lemma write_each_once_fail (msgs : list WireMsg) :
  forall c (j : nat) (m : WireMsg) (e : error),
    (forall k, (k < j)%nat ->
               conn_fault (Conn c) (conn_attempts (Conn c) + k) = None) ->
    conn_fault (Conn c) (conn_attempts (Conn c) + j) = Some e ->
    msgs !! j = Some m ->
    exists c',
      write_each_once c msgs = (Some (ErrWrap (write_context m) e), c') /\
      conn_sent (Conn c') = conn_sent (Conn c) ++ take j msgs /\
      conn_attempts (Conn c') = (conn_attempts (Conn c) + j + 1)%nat /\
      only_written c c'.
Proof.
  induction msgs as [|m0 rest IH]; intros c j m e Hok Hfail Hm; [done|].
  destruct j as [|j].
  - cbn in Hm. injection Hm as ->. rewrite Nat.add_0_r in Hfail.
    destruct (logAndWrite_fail c m e Hfail) as (c1 & Hw & Hs1 & Ha1 & Hf1).
    exists c1. cbn [write_each_once take]. rewrite Hw.
    split; [reflexivity|]. split; [now rewrite app_nil_r|].
    split; [rewrite Ha1; lia | exact Hf1].
  - cbn in Hm.
    destruct (logAndWrite_ok c m0) as (c1 & Hw & Hs1 & Ha1 & Hf1).
    { rewrite <- (Nat.add_0_r (conn_attempts _)). apply Hok. lia. }
    destruct (IH c1 j m e) as (c2 & Hw2 & Hs2 & Ha2 & Hf2).
    { intros k Hk. destruct Hf1 as (-> & _). rewrite Ha1.
      replace (S (conn_attempts (Conn c)) + k)%nat
        with (conn_attempts (Conn c) + S k)%nat by lia.
      apply Hok. lia. }
    { destruct Hf1 as (-> & _). rewrite Ha1.
      replace (S (conn_attempts (Conn c)) + j)%nat
        with (conn_attempts (Conn c) + S j)%nat by lia.
      exact Hfail. }
    { exact Hm. }
    exists c2. cbn [write_each_once take]. rewrite Hw. split; [exact Hw2|].
    split; [rewrite Hs2, Hs1, <- app_assoc; reflexivity|].
    split; [rewrite Ha2, Ha1; lia|].
    eapply only_written_trans; eassumption.
Qed.

(** No append event is a commit event. *)
Lemma append_events_no_commit (pieces : list (list byte)) :
  forall count,
    filter (fun m => msg_type m = "input_audio_buffer.commit")
           (append_events count pieces) = [].
Proof.
  induction pieces as [|p rest IH]; intros count; [reflexivity|].
  cbn [append_events]. rewrite filter_cons, decide_False by discriminate.
  apply IH.
Qed.

(** C5. A well-formed WAV file with [S > 0] bytes after the 44-byte
    header, read without fault and written to a connection that
    accepts every write: the upload returns [nil]; after the item
    event it has sent exactly [ceil(S/16384)] append events, the
    [i]-th of type [input_audio_buffer.append] carrying the identifier
    [evt_audio_i] and the base64 of a non-empty piece of at most 16384
    bytes, then the event of type [input_audio_buffer.commit] with the
    identifier [evt_commit_] and the number of append events, then
    the response request; of all it has sent exactly one event is a
    commit; and the payloads of the append events, decoded and
    concatenated in the order sent, are the raw bytes of the file. *)
Theorem C5_upload_emits_chunks c fs (path : string) (data : list byte) :
  fs_files fs !! path = Some data ->
  (forall k, fs_read_fault fs path k = None) ->
  fst (validateWAVFormat (opened data)) = None ->
  (0 < length (drop 44 data))%nat ->
  (forall k, conn_fault (Conn c) (conn_attempts (Conn c) + k) = None) ->
  let raw := drop 44 data in
  let S := Z.of_nat (length raw) in
  let C := Chunking.ChunkSize DefaultAudioChunkConfig in
  exists c' (appends : list WireMsg),
    sendAudioMessage c fs path = Some (None, c') /\
    C = 16384 /\
    conn_sent (Conn c')
    = conn_sent (Conn c)
      ++ [ConversationItem "conversation.item.create" "message" "user"
            [{| ContentItemType := "input_audio"; Text := "";
                AudioRef := "audio_0" |}]]
      ++ appends
      ++ [AudioCommit "input_audio_buffer.commit"
            ("evt_commit_" +:+ itoa (Z.of_nat (length appends)));
          ResponseCreate "response.create"] /\
    length (filter (fun m => msg_type m = "input_audio_buffer.commit")
                   (drop (length (conn_sent (Conn c))) (conn_sent (Conn c'))))
    = 1%nat /\
    Z.of_nat (length appends) = (S + C - 1) / C /\
    forallb is_append appends = true /\
    (forall (i : nat) (m : WireMsg),
        appends !! i = Some m ->
        exists p, m = AudioAppend "input_audio_buffer.append"
                        ("evt_audio_" +:+ itoa (Z.of_nat i + 1))
                        (EncodeToString p)
                  /\ p <> [] /\ Z.of_nat (length p) <= C) /\
    decoded_payloads appends = Some raw.
Proof.
  intros Hfile Hfault Hvalid Hpos Hconn raw S C.
  rewrite (sendAudioMessage_spec c fs path data Hfile Hfault Hvalid).
  fold raw.
  destruct (write_each_once_ok (upload_events raw) c) as (c' & Hw & Hs & _).
  { intros k _. apply Hconn. }
  set (pieces := chunks_of chunkBytes raw).
  exists c', (append_events 0 pieces).
  split; [now rewrite Hw|]. split; [reflexivity|].
  split; [rewrite Hs; unfold upload_events; fold pieces;
          now rewrite append_events_length|].
  split.
  { rewrite Hs, drop_app_length. unfold upload_events. fold pieces.
    now rewrite !filter_app, append_events_no_commit. }
  split.
  { rewrite append_events_length. unfold pieces.
    rewrite (chunks_of_length chunkBytes chunkBytes_pos), chunkBytes_value.
    reflexivity. }
  split; [apply append_events_all_append|].
  split.
  { intros i m Hi.
    apply append_events_lookup in Hi as (p & Hp & ->).
    exists p. split; [now rewrite Z.add_0_l|].
    apply list_elem_of_lookup_2 in Hp.
    apply (chunks_of_pieces chunkBytes chunkBytes_pos) in Hp as [Hne Hle].
    split; [exact Hne|]. change C with 16384. rewrite <- chunkBytes_value. lia. }
  rewrite <- (app_nil_r (append_events 0 pieces)).
  rewrite decoded_payloads_append_events. cbn [decoded_payloads].
  unfold pieces.
  now rewrite app_nil_r, (chunks_of_concat chunkBytes chunkBytes_pos).
Qed.

(** A file of 40000 bytes of samples goes out in three pieces. *)
Lemma C5_upload_emits_chunks_witness :
  let raw := repeat x07 (Z.to_nat 40000) in
  let data := wav_header 40000 ++ raw in
  let fs := healthy_fs {[ "in.wav" := data ]} in
  let c := NewChatClient (dial (fun _ => None)) DefaultConfig in
  fst (validateWAVFormat (opened data)) = None /\
  exists c' (appends : list WireMsg),
    sendAudioMessage c fs "in.wav" = Some (None, c') /\
    conn_sent (Conn c')
    = [ConversationItem "conversation.item.create" "message" "user"
         [{| ContentItemType := "input_audio"; Text := "";
             AudioRef := "audio_0" |}]]
      ++ appends
      ++ [AudioCommit "input_audio_buffer.commit" "evt_commit_3";
          ResponseCreate "response.create"] /\
    length appends = 3%nat /\
    decoded_payloads appends = Some raw.
Proof.
  cbv zeta.
  set (raw := repeat x07 (Z.to_nat 40000)).
  set (data := wav_header 40000 ++ raw).
  assert (Hvalid : fst (validateWAVFormat (opened data)) = None)
    by apply validate_wav_header.
  assert (Hraw : drop 44 data = raw)
    by (unfold data; now rewrite drop_app_length' by apply (length_wav_header 40000)).
  assert (Hlen : Z.of_nat (length raw) = 40000)
    by (unfold raw; rewrite repeat_length; lia).
  split; [exact Hvalid|].
  destruct (C5_upload_emits_chunks
              (NewChatClient (dial (fun _ => None)) DefaultConfig)
              (healthy_fs {[ "in.wav" := data ]}) "in.wav" data)
    as (c' & appends & Hret & _ & Hsent & _ & Hcount & _ & _ & Hdec);
    [ apply lookup_singleton_eq | reflexivity | exact Hvalid
    | rewrite Hraw; lia | reflexivity | ].
  rewrite Hraw in Hcount, Hdec. rewrite Hlen in Hcount.
  assert (H3 : length appends = 3%nat) by (apply Nat2Z.inj; exact Hcount).
  exists c', appends. split; [exact Hret|].
  split; [rewrite Hsent, H3; reflexivity|].
  split; [exact H3|]. exact Hdec.
Defined.

(** C8 (amended). In an upload of a well-formed file that reads
    without fault, the first write the connection fails, whichever
    event it is for, ends the upload: the events before it have been
    sent, the failed event has been attempted once and only once, no
    write deadline has been set and nothing slept or counted, and the
    error returned is the error of that write under the context of
    that event. *)
Theorem C8_upload_aborts_on_first_failure c fs (path : string)
    (data : list byte) (j : nat) (m : WireMsg) (e : error) :
  fs_files fs !! path = Some data ->
  (forall k, fs_read_fault fs path k = None) ->
  fst (validateWAVFormat (opened data)) = None ->
  (forall k, (k < j)%nat ->
             conn_fault (Conn c) (conn_attempts (Conn c) + k) = None) ->
  conn_fault (Conn c) (conn_attempts (Conn c) + j) = Some e ->
  upload_events (drop 44 data) !! j = Some m ->
  exists c',
    sendAudioMessage c fs path
    = Some (Some (ErrWrap (write_context m) e), c') /\
    conn_sent (Conn c')
    = conn_sent (Conn c) ++ take j (upload_events (drop 44 data)) /\
    conn_attempts (Conn c') = (conn_attempts (Conn c) + j + 1)%nat /\
    conn_deadlines (Conn c') = conn_deadlines (Conn c) /\
    Sleeps c' = Sleeps c /\
    Metrics c' = Metrics c.
Proof.
  intros Hfile Hfault Hvalid Hok Hfail Hm.
  rewrite (sendAudioMessage_spec c fs path data Hfile Hfault Hvalid).
  destruct (write_each_once_fail (upload_events (drop 44 data)) c j m e
              Hok Hfail Hm) as (c' & Hw & Hs & Ha & _ & Hd & Hsl & Hme).
  exists c'. rewrite Hw. now repeat split.
Qed.

Lemma C8_upload_aborts_on_first_failure_witness :
  let data := wav_header 2 ++ [x01; x02] in
  let fs := healthy_fs {[ "in.wav" := data ]} in
  let boom := ErrNew "write: broken pipe" in
  let c := NewChatClient (dial (fails_at 1 boom)) DefaultConfig in
  upload_events (drop 44 data) !! 1%nat = Some (appendEvent 1 [x01; x02]) /\
  exists c',
    sendAudioMessage c fs "in.wav"
    = Some (Some (ErrWrap "write audio chunk" boom), c') /\
    conn_sent (Conn c') = [audioItem] /\
    conn_attempts (Conn c') = 2%nat.
Proof.
  cbv zeta.
  set (data := wav_header 2 ++ [x01; x02]).
  set (boom := ErrNew "write: broken pipe").
  assert (Hm : upload_events (drop 44 data) !! 1%nat
               = Some (appendEvent 1 [x01; x02])) by (vm_compute; reflexivity).
  split; [exact Hm|].
  destruct (C8_upload_aborts_on_first_failure
              (NewChatClient (dial (fails_at 1 boom)) DefaultConfig)
              (healthy_fs {[ "in.wav" := data ]}) "in.wav" data 1
              (appendEvent 1 [x01; x02]) boom)
    as (c' & Hret & Hsent & Hatt & _);
    [ vm_compute; reflexivity | reflexivity | vm_compute; reflexivity
    | intros k Hk; assert (k = 0%nat) as -> by lia; reflexivity
    | reflexivity | exact Hm | ].
  exists c'. split; [exact Hret|]. split; [exact Hsent | exact Hatt].
Defined.

(** C8 as stated fails: the write of the first append event fails once
    and would succeed on a second attempt. The retry policy, with
    [MaxRetries = 3], sends the event at that second attempt; the
    upload has returned the error after the first. *)
Lemma C8_append_is_not_retried :
  let data := wav_header 2 ++ [x01; x02] in
  let fs := healthy_fs {[ "in.wav" := data ]} in
  let boom := ErrNew "write: broken pipe" in
  let c := NewChatClient (dial (fails_at 1 boom)) DefaultConfig in
  let c1 := snd (logAndWrite c audioItem) in
  let event := appendEvent 1 [x01; x02] in
  MaxRetries (Config c) = 3 /\
  (exists c2, sendWithRetry c1 event = (None, c2)
              /\ conn_attempts (Conn c2) = 3%nat
              /\ conn_deadlines (Conn c2) = 2%nat
              /\ Sleeps c2 = [1]
              /\ conn_sent (Conn c2) = [audioItem; event]) /\
  (exists c', sendAudioMessage c fs "in.wav"
              = Some (Some (ErrWrap "write audio chunk" boom), c')
              /\ conn_attempts (Conn c') = 2%nat
              /\ conn_deadlines (Conn c') = 0%nat
              /\ Sleeps c' = []
              /\ conn_sent (Conn c') = [audioItem]).
Proof.
  cbv zeta. split; [reflexivity|].
  split; eexists; (split; [vm_compute; reflexivity|]); now vm_compute.
Qed.

End Upload.

(* ================================================================= *)
(** ** The lifecycle                                                  *)
(* ================================================================= *)

Section Lifecycle.

Implicit Types (c : ChatClient) (steps : list LifecycleStep).

Lemma WG_Done_joining c : joining c -> joining (WG_Done c).
Proof.
  intros (Hd & Hc & Hl & Ho & [(Hw & Hwg & He) | (Hf & Hch & He)]);
    unfold WG_Done; cbv zeta; unfold closer_waiting;
    cbn [Closer with_WG WG].
  - rewrite Hw. destruct (Nat.eqb_spec (Nat.pred (WG c)) 0) as [Hz|Hnz]; cbn [andb].
    + repeat split; try assumption. right. cbn. rewrite He.
      repeat split; reflexivity.
    + repeat split; try assumption. left. cbn. repeat split; try assumption. lia.
  - rewrite Hf, andb_false_r. repeat split; try assumption.
    right. split; [exact Hf|]. split; [exact Hch | exact He].
Qed.

Lemma iter_WG_Done_joining (k : nat) c :
  joining c -> joining (Nat.iter k WG_Done c).
Proof.
  intros H. induction k as [|k IH]; [exact H|].
  rewrite Nat.iter_succ. now apply WG_Done_joining.
Qed.

Lemma shutdown_running c (exited : nat) (timer_first : bool) :
  running c -> shut_down (shutdown c exited timer_first).
Proof.
  intros (Ho & Hc & He). unfold shutdown. rewrite Ho.
  set (c1 := closer_start (close_Done c)).
  assert (H1 : joining c1 \/ (WG c1 = 0%nat /\ Events c1 = start_events)).
  { destruct (Nat.eq_dec (WG c1) 0%nat) as [Hz|Hnz].
    - right. split; [exact Hz|]. cbn. now rewrite He.
    - left. repeat split; try reflexivity; try assumption.
      left. cbn. rewrite He. repeat split; try reflexivity.
      cbn in Hnz. lia. }
  set (c2 := if (WG c1 =? 0)%nat then closer_finish c1
             else Nat.iter (Nat.min exited (WG c1)) WG_Done c1).
  assert (H2 : joining c2).
  { unfold c2. destruct (Nat.eqb_spec (WG c1) 0) as [Hz|Hnz].
    - repeat split; try reflexivity; try assumption.
      right. cbn. rewrite He. repeat split; reflexivity.
    - destruct H1 as [H1 | [Hz _]]; [|lia]. now apply iter_WG_Done_joining. }
  clearbody c2. clear c1 H1.
  destruct H2 as (Hd & Hcc & Hl & _ & Hcases).
  assert (Hshape : forall v, is_verdict v -> shut_down (set_ShutdownOnce c2 v)).
  { intros v Hv. repeat split; try assumption. exists v. split; [exact Hv|].
    destruct Hcases as [(Hw & Hwg & Hev) | (Hf & Hch & Hev)].
    - left. cbn. rewrite Hev. now repeat split.
    - right. cbn. rewrite Hev, <- app_assoc. repeat split; try apply Hch;
        try assumption. now left. }
  destruct (closer_finished c2 && negb timer_first); apply Hshape;
    [now left | now right].
Qed.

Lemma shutdown_again c (exited : nat) (timer_first : bool) :
  ShutdownOnce c = true -> shutdown c exited timer_first = c.
Proof. intros Ho. unfold shutdown. now rewrite Ho. Qed.

Lemma WG_Done_running c : running c -> running (WG_Done c).
Proof.
  intros (Ho & Hc & He). unfold WG_Done, closer_waiting. cbv zeta.
  cbn [Closer with_WG]. rewrite Hc, andb_false_r. now repeat split.
Qed.

Lemma WG_Done_shut_down c : shut_down c -> shut_down (WG_Done c).
Proof.
  intros (Ho & Hd & Hcc & Hl & v & Hv & Hcases).
  unfold WG_Done, closer_waiting. cbv zeta. cbn [Closer with_WG WG].
  destruct Hcases as [(Hw & Hwg & Hev) | (Hf & Hch & Hev)].
  - rewrite Hw. destruct (Nat.eqb_spec (Nat.pred (WG c)) 0) as [Hz|Hnz]; cbn [andb].
    + repeat split; try assumption. exists v. split; [exact Hv|].
      right. cbn. rewrite Hev. repeat split; try reflexivity.
      right. now rewrite <- app_assoc.
    + repeat split; try assumption. exists v. split; [exact Hv|].
      left. cbn. repeat split; try assumption. lia.
  - rewrite Hf, andb_false_r. repeat split; try assumption.
    exists v. split; [exact Hv|]. right.
    split; [exact Hf|]. split; [exact Hch | exact Hev].
Qed.

Lemma lifecycle_run_shut_down steps :
  forall c, shut_down c -> shut_down (lifecycle_run c steps).
Proof.
  induction steps as [|s rest IH]; intros c H; [exact H|].
  cbn [lifecycle_run foldl]. apply IH. destruct s as [exited timer|]; cbn.
  - rewrite shutdown_again; [exact H | apply H].
  - now apply WG_Done_shut_down.
Qed.

Lemma lifecycle_run_invoked steps :
  forall c, running c -> existsb is_Invoke steps = true ->
            shut_down (lifecycle_run c steps).
Proof.
  induction steps as [|s rest IH]; intros c H Hinv; [discriminate|].
  cbn [lifecycle_run foldl]. destruct s as [exited timer|]; cbn.
  - apply lifecycle_run_shut_down. now apply shutdown_running.
  - apply IH; [now apply WG_Done_running | exact Hinv].
Qed.

Ltac count_events Hev Hv :=
  rewrite Hev; destruct Hv as [-> | ->]; vm_compute; repeat split; lia.



End Lifecycle.

(* ================================================================= *)
(** ** More on the container                                          *)
(* ================================================================= *)

Section ContainerEdges.

Implicit Types (file : OutFile) (data : list byte).

(** The fields are written up to the first write that fails; those
    after it are not attempted. *)
Lemma write_fields_fault (header : list header_field) :
  forall file (k : nat) (e : error),
    (k < length header)%nat ->
    (forall j, (j < k)%nat -> of_fault file (of_writes file + j) = None) ->
    of_fault file (of_writes file + k) = Some e ->
    write_fields file header
    = (Some e, {| of_data := of_data file ++ concat (map encode_field (take k header));
                  of_writes := S (of_writes file + k);
                  of_fault := of_fault file |}).
Proof.
  induction header as [|v rest IH]; intros file k e Hk Hbefore Hfault;
    [cbn in Hk; lia|].
  cbn [write_fields]. unfold binary_Write, file_Write.
  destruct k as [|k].
  - rewrite Nat.add_0_r in Hfault. rewrite Hfault. cbn.
    now rewrite app_nil_r, Nat.add_0_r.
  - pose proof (Hbefore 0%nat ltac:(lia)) as H0.
    rewrite Nat.add_0_r in H0. rewrite H0.
    rewrite (IH _ k e); cbn [of_data of_writes of_fault].
    + cbn [take map concat]. rewrite <- app_assoc. do 3 f_equal. lia.
    + cbn in Hk. lia.
    + intros j Hj. rewrite <- (Hbefore (S j)) by lia. f_equal. lia.
    + rewrite <- Hfault. f_equal. lia.
Qed.

(** X1. [writeWAVHeader] returns the error of the first [Write] that
    fails, as it is, after exactly that many calls: the fields before
    it are in the file, the fields after it are not attempted. *)
Theorem writeWAVHeader_stops_at_first_failure file (dataSize : Z)
    (k : nat) (e : error) :
  (k < 13)%nat ->
  (forall j, (j < k)%nat -> of_fault file (of_writes file + j) = None) ->
  of_fault file (of_writes file + k) = Some e ->
  exists file',
    writeWAVHeader file dataSize = (Some e, file') /\
    of_writes file' = S (of_writes file + k) /\
    of_data file'
    = of_data file ++ concat (map encode_field (take k (header_fields dataSize))) /\
    (length (of_data file') < length (of_data file) + 44)%nat.
Proof.
  intros Hk Hbefore Hfault. unfold writeWAVHeader.
  rewrite (write_fields_fault _ file k e) by (cbn; assumption).
  eexists. split; [reflexivity|]. cbn [of_writes of_data].
  split; [reflexivity|]. split; [reflexivity|].
  rewrite length_app.
  do 13 (destruct k as [|k]; [cbn; lia|]). lia.
Qed.

Lemma writeWAVHeader_stops_at_first_failure_witness :
  exists file',
    writeWAVHeader
      {| of_data := []; of_writes := 0%nat;
         of_fault := fails_at 2 (ErrNew "no space left on device") |} 7
    = (Some (ErrNew "no space left on device"), file') /\
    of_writes file' = 3%nat /\
    of_data file' = list_byte_of_string "RIFF" ++ [x2b; x00; x00; x00].
Proof.
  destruct (writeWAVHeader_stops_at_first_failure
              {| of_data := []; of_writes := 0%nat;
                 of_fault := fails_at 2 (ErrNew "no space left on device") |}
              7 2 (ErrNew "no space left on device"))
    as (file' & Hw & Hn & Hd & _).
  - lia.
  - intros j Hj. cbn. unfold fails_at.
    destruct j as [|[|j]]; [reflexivity | reflexivity | lia].
  - reflexivity.
  - exists file'. split; [exact Hw|]. split; [exact Hn|].
    rewrite Hd. reflexivity.
Defined.

Lemma tag_is_eq (bs : list byte) (s : string) :
  tag_is bs s = true <-> bs = list_byte_of_string s.
Proof.
  unfold tag_is. rewrite String.eqb_eq. split.
  - intros <-. now rewrite list_byte_of_string_of_list_byte.
  - intros ->. now rewrite string_of_list_byte_of_string.
Qed.

Lemma Z_of_byte_inj (a b : byte) : Z_of_byte a = Z_of_byte b -> a = b.
Proof.
  intros H. rewrite <- (byte_of_Z_of_byte a), <- (byte_of_Z_of_byte b).
  now rewrite H.
Qed.

(** A little-endian value determines its bytes. *)
Lemma le_decode_inj (a : list byte) :
  forall b, length a = length b -> le_decode a = le_decode b -> a = b.
Proof.
  induction a as [|x a IH]; intros [|y b] Hlen Heq; try discriminate;
    [reflexivity|].
  rewrite !le_decode_cons in Heq.
  pose proof (Z_of_byte_range x). pose proof (Z_of_byte_range y).
  assert (Z_of_byte x = Z_of_byte y /\ le_decode a = le_decode b) as [Hx Ha]
    by lia.
  f_equal; [now apply Z_of_byte_inj | apply IH; [now injection Hlen | exact Ha]].
Qed.

Lemma length_slice (i j : nat) data :
  (j <= length data)%nat -> length (slice i j data) = (j - i)%nat.
Proof. intros H. unfold slice. rewrite length_take, length_drop. lia. Qed.

Lemma slice_take (i j n : nat) data :
  (j <= n)%nat -> slice i j (take n data) = slice i j data.
Proof.
  intros H. unfold slice. rewrite skipn_firstn_comm, take_take.
  f_equal. lia.
Qed.

Lemma le_decode_slice (i j : nat) data (v : list byte) :
  (j <= length data)%nat -> length v = (j - i)%nat ->
  le_decode (slice i j data) = le_decode v <-> slice i j data = v.
Proof.
  intros Hj Hv. split; [|now intros ->].
  apply le_decode_inj. now rewrite length_slice.
Qed.

(** X2. What [validateWAVFormat] looks at. A file of at least 36 bytes
    is accepted exactly when bytes 0-3 are "RIFF", bytes 8-15 are
    "WAVE" and "fmt ", and the format, channel, rate and bit-depth
    fields hold 1, 1, 24000 and 16. The two size fields, the byte
    rate, the block alignment and everything from byte 36 on (the
    "data" tag included) are not examined. *)
Theorem validateWAVFormat_accepts_iff data :
  (36 <= length data)%nat ->
  fst (validateWAVFormat (opened data)) = None
  <-> slice 0 4 data = list_byte_of_string "RIFF"
      /\ slice 8 12 data = list_byte_of_string "WAVE"
      /\ slice 12 16 data = list_byte_of_string "fmt "
      /\ slice 20 22 data = le16 1
      /\ slice 22 24 data = le16 1
      /\ slice 24 28 data = le32 24000
      /\ slice 34 36 data = le16 16.
Proof.
  intros Hlen. rewrite validate_opened by exact Hlen.
  unfold validate_header, decode_WAVHeader.
  cbn [ChunkID Format Subchunk1ID AudioFormat BitsPerSample NumChannels SampleRate].
  rewrite !slice_take by lia.
  rewrite <- (tag_is_eq (slice 0 4 data)), <- (tag_is_eq (slice 8 12 data)),
    <- (tag_is_eq (slice 12 16 data)).
  rewrite <- (le_decode_slice 20 22 data (le16 1)),
    <- (le_decode_slice 22 24 data (le16 1)),
    <- (le_decode_slice 24 28 data (le32 24000)),
    <- (le_decode_slice 34 36 data (le16 16)) by (reflexivity || lia).
  change (le_decode (le16 1)) with 1. change (le_decode (le32 24000)) with 24000.
  change (le_decode (le16 16)) with 16.
  destruct (tag_is (slice 0 4 data) "RIFF"); cbn [negb orb];
    [|split; [discriminate | intros (? & _); discriminate]].
  destruct (tag_is (slice 8 12 data) "WAVE"); cbn [negb orb];
    [|split; [discriminate | intros (_ & ? & _); discriminate]].
  destruct (tag_is (slice 12 16 data) "fmt "); cbn [negb orb];
    [|split; [discriminate | intros (_ & _ & ? & _); discriminate]].
  destruct (Z.eqb_spec (le_decode (slice 20 22 data)) 1) as [->|Hf]; cbn [negb];
    [|split; [discriminate | intros (_ & _ & _ & ? & _); contradiction]].
  destruct (Z.eqb_spec (le_decode (slice 34 36 data)) 16) as [->|Hb]; cbn [negb];
    [|split; [discriminate | intros (_ & _ & _ & _ & _ & _ & ?); contradiction]].
  destruct (Z.eqb_spec (le_decode (slice 22 24 data)) 1) as [->|Hc]; cbn [negb];
    [|split; [discriminate | intros (_ & _ & _ & _ & ? & _); contradiction]].
  destruct (Z.eqb_spec (le_decode (slice 24 28 data)) 24000) as [->|Hr]; cbn [negb];
    [|split; [discriminate | intros (_ & _ & _ & _ & _ & ? & _); contradiction]].
  split; [intros _; now repeat split | reflexivity].
Qed.

(** A header whose size fields, byte rate, block alignment and data
    tag are all zero is accepted. *)
Lemma validateWAVFormat_accepts_iff_witness :
  let data :=
    list_byte_of_string "RIFF" ++ [x00; x00; x00; x00]
    ++ list_byte_of_string "WAVEfmt " ++ [x00; x00; x00; x00]
    ++ le16 1 ++ le16 1 ++ le32 24000
    ++ [x00; x00; x00; x00; x00; x00] ++ le16 16
    ++ [x00; x00; x00; x00; x00; x00; x00; x00] in
  length data = 44%nat /\
  fst (validateWAVFormat (opened data)) = None.
Proof.
  cbv zeta. split; [reflexivity|].
  apply validateWAVFormat_accepts_iff; [cbn; lia|].
  repeat split; reflexivity.
Defined.

(** X3. A file too short to hold the 36 bytes of the header is
    rejected by the read, whatever its bytes: with [io.EOF] when it
    is empty, with [io.ErrUnexpectedEOF] otherwise; the checks on the
    fields are not reached, and no shorter header is ever accepted. *)
Theorem validateWAVFormat_short_file data :
  (length data < 36)%nat ->
  fst (validateWAVFormat (opened data))
  = Some (ErrWrap "read WAV header"
            (match data with [] => EOF | _ => ErrUnexpectedEOF end))
  /\ fst (validateWAVFormat (opened data)) <> None.
Proof.
  intros Hlen. unfold validateWAVFormat, file_ReadFull, opened, headerSize.
  cbn [in_fault in_ops in_pos in_data]. rewrite drop_0.
  destruct (Nat.leb_spec 36 (length data)) as [|_]; [lia|].
  split; [reflexivity | discriminate].
Qed.

Lemma validateWAVFormat_short_file_witness :
  fst (validateWAVFormat (opened [])) = Some (ErrWrap "read WAV header" EOF)
  /\ fst (validateWAVFormat (opened (list_byte_of_string "RIFF")))
     = Some (ErrWrap "read WAV header" ErrUnexpectedEOF).
Proof.
  split.
  - refine (proj1 (validateWAVFormat_short_file [] _)). cbn. lia.
  - refine (proj1 (validateWAVFormat_short_file (list_byte_of_string "RIFF") _)). cbn. lia.
Defined.

End ContainerEdges.

(* ================================================================= *)
(** ** The receive loop over frames                                   *)
(* ================================================================= *)

Section ReceiveLoop.

Implicit Types (c : ChatClient) (fs : FileSystem)
  (audioFiles : gmap string string).

Lemma WG_Done_Done c : Done (WG_Done c) = Done c.
Proof. unfold WG_Done. cbv zeta. now destruct (_ && _). Qed.

Lemma audioProcessingStep_Done c pick_done :
  Done (snd (audioProcessingStep c pick_done)) = Done c.
Proof.
  unfold audioProcessingStep.
  destruct (AudioChannel c) as [|chunk rest].
  - destruct (Done c || AudioChannelClosed c); cbn [snd];
      [apply WG_Done_Done | reflexivity].
  - destruct (Done c && pick_done); cbn [snd];
      [apply WG_Done_Done | reflexivity].
Qed.

Lemma handleAudioResponse_Done c (avail : Z) pick_done unmarshalled err c' :
  handleAudioResponse c avail pick_done unmarshalled = Returns (err, c') ->
  Done c' = Done c.
Proof.
  unfold handleAudioResponse.
  destruct unmarshalled as [e|audioMsg]; [now intros [= _ <-]|].
  destruct (decode_delta _ _) as [[e|p]|msg]; [now intros [= _ <-]| |discriminate].
  cbv zeta. destruct (Done c) eqn:Hd.
  - destruct (_ && _); intros [= _ <-]; exact Hd.
  - destruct (_ <? _)%nat; intros [= _ <-]; cbn [Done with_AudioChannel].
    + exact Hd.
    + now rewrite audioProcessingStep_Done.
Qed.

(** No handler of the receive loop closes the done channel. *)
Lemma handleFrame_Done c fs audioFiles (frame : Inbound) c' fs' audioFiles' :
  handleFrame c fs audioFiles frame = Returns (c', fs', audioFiles') ->
  Done c' = Done c.
Proof.
  destruct frame as [|m avail pick|m timestamp|m timestamp|type]; cbn [handleFrame].
  - now intros [= <- _ _].
  - destruct (handleAudioResponse _ _ _ _) as [[err c1]|msg] eqn:Hh; [|discriminate].
    intros [= <- _ _]. now apply handleAudioResponse_Done in Hh as ->.
  - destruct m as [err|doneMsg]; [now intros [= <- _ _]|].
    destruct (saveAudioOnly _ _ _ _ _) as [[[err|] c1] fs1] eqn:Hs;
      intros [= <- _ _].
    + now apply saveAudioOnly_error_keeps_client in Hs as ->.
    + unfold saveAudioOnly in Hs. cbv zeta in Hs.
      destruct (AudioBuffer _ !! _) as [[audio|]|]; [|discriminate..].
      destruct (_ =? _)%nat; [discriminate|].
      destruct (os_Create _ _) as [[e|file] fs2]; [discriminate|].
      destruct (writeWAVHeader _ _) as [[e|] file1]; [discriminate|].
      destruct (file_Write _ _) as [[e|] file2]; [discriminate|].
      now injection Hs as <- _.
  - destruct m as [err|respDone]; [now intros [= <- _ _]|].
    destruct (saveTranscripts _ _ _ _). now intros [= <- _ _].
  - now intros [= <- _ _].
Qed.

(** With the done channel open and every read successful, the loop is
    the handlers one after the other; when the reads are used up it
    is blocked in the next one. *)
Lemma receiveLoop_frames (frames : list Inbound) :
  forall c fs audioFiles,
    Done c = false ->
    receiveLoop (map ReadMessage frames) c fs audioFiles
    = match handleFrames c fs audioFiles frames with
      | Returns (c', fs', _) => Returns (Running, c', fs')
      | Panics msg => Panics msg
      end.
Proof.
  induction frames as [|frame rest IH]; intros c fs audioFiles Hdone;
    cbn [map receiveLoop handleFrames]; rewrite Hdone; [reflexivity|].
  destruct (handleFrame c fs audioFiles frame) as [[[c1 fs1] af1]|msg] eqn:Hf;
    [|reflexivity].
  apply IH. rewrite <- Hdone. now apply (handleFrame_Done _ _ _ _ _ _ _ Hf).
Qed.

End ReceiveLoop.

(* ================================================================= *)
(** ** More on draining a stream                                      *)
(* ================================================================= *)

Section Drain.

Implicit Types (c : ChatClient) (fs : FileSystem).

(** X4. A stream is drained once. After a successful [saveAudioOnly]
    the entry is gone: a second call for the same stream, whatever
    the path, reports that no audio data is found and touches neither
    the client nor the file system. *)
Theorem saveAudioOnly_drains_once c fs (responseID itemID filepath : string)
    c' fs' (again : string) :
  saveAudioOnly c fs responseID itemID filepath = (None, c', fs') ->
  saveAudioOnly c' fs' responseID itemID again
  = (Some (ErrNew ("no audio data found for key: "
                   +:+ audioKeyOf responseID itemID)), c', fs').
Proof.
  intros Hsave. apply saveAudioOnly_success in Hsave as (_ & -> & _).
  unfold saveAudioOnly. cbn [AudioBuffer with_AudioBuffer].
  now rewrite lookup_delete_eq.
Qed.

Lemma saveAudioOnly_drains_once_witness :
  let c := deliver (NewChatClient (dial (fun _ => None)) DefaultConfig)
             [fragment ("r1", "i1") [x01; x02]] in
  exists c' fs',
    saveAudioOnly c (healthy_fs ∅) "r1" "i1" "a.wav" = (None, c', fs') /\
    saveAudioOnly c' fs' "r1" "i1" "b.wav"
    = (Some (ErrNew "no audio data found for key: r1_i1"), c', fs') /\
    fs_files fs' !! "b.wav" = None.
Proof.
  cbv zeta.
  destruct (saveAudioOnly
              (deliver (NewChatClient (dial (fun _ => None)) DefaultConfig)
                 [fragment ("r1", "i1") [x01; x02]])
              (healthy_fs ∅) "r1" "i1" "a.wav") as [[err c'] fs'] eqn:Hsave.
  assert (Herr : err = None) by (vm_compute in Hsave; congruence).
  subst err. exists c', fs'. split; [reflexivity|]. split.
  - exact (saveAudioOnly_drains_once _ _ _ _ _ _ _ "b.wav" Hsave).
  - vm_compute in Hsave. injection Hsave as _ <-. vm_compute. reflexivity.
Defined.

(** X5. With nothing buffered under the key (no entry, a nil entry, or
    an entry without bytes) [saveAudioOnly] fails before the file is
    created: no empty WAV file is written, a file already at the path
    is not truncated, and the entry, if there is one, stays. *)
Theorem saveAudioOnly_nothing_buffered c fs (responseID itemID filepath : string) :
  buffered c (audioKeyOf responseID itemID) = [] ->
  let audioKey := audioKeyOf responseID itemID in
  saveAudioOnly c fs responseID itemID filepath
  = (Some (ErrNew
             (match AudioBuffer c !! audioKey with
              | Some (Some _) => "empty audio data for key: " +:+ audioKey
              | _ => "no audio data found for key: " +:+ audioKey
              end)), c, fs).
Proof.
  unfold buffered, saveAudioOnly. cbv zeta.
  destruct (AudioBuffer c !! audioKeyOf responseID itemID) as [[audio|]|];
    [|reflexivity..].
  now intros ->.
Qed.

(** A stream whose only fragment was empty: the entry exists, holds no
    byte, and is not drained. *)
Lemma saveAudioOnly_nothing_buffered_witness :
  let c := deliver (NewChatClient (dial (fun _ => None)) DefaultConfig)
             [fragment ("r1", "i1") []] in
  saveAudioOnly c (healthy_fs ∅) "r1" "i1" "a.wav"
  = (Some (ErrNew "empty audio data for key: r1_i1"), c, healthy_fs ∅)
  /\ saveAudioOnly c (healthy_fs ∅) "r2" "i2" "a.wav"
     = (Some (ErrNew "no audio data found for key: r2_i2"), c, healthy_fs ∅).
Proof.
  cbv zeta. split.
  - etransitivity;
      [apply (saveAudioOnly_nothing_buffered _ _ "r1" "i1" "a.wav");
       vm_compute; reflexivity|].
    vm_compute. reflexivity.
  - etransitivity;
      [apply (saveAudioOnly_nothing_buffered _ _ "r2" "i2" "a.wav");
       vm_compute; reflexivity|].
    vm_compute. reflexivity.
Defined.

(** X6. A successful drain changes the buffer of its own key and the
    file at its own path, nothing else: the other buffers, the other
    files, the counters, the queue and the connection are as before. *)
Theorem saveAudioOnly_frame c fs (responseID itemID filepath : string) c' fs' :
  saveAudioOnly c fs responseID itemID filepath = (None, c', fs') ->
  (forall key, key <> audioKeyOf responseID itemID ->
               AudioBuffer c' !! key = AudioBuffer c !! key) /\
  AudioBuffer c' !! audioKeyOf responseID itemID = None /\
  (forall path, path <> filepath ->
                fs_files fs' !! path = fs_files fs !! path) /\
  Metrics c' = Metrics c /\ AudioChannel c' = AudioChannel c /\
  Conn c' = Conn c /\ Logger c' = Logger c.
Proof.
  intros Hsave.
  pose proof (saveAudioOnly_success _ _ _ _ _ _ _ Hsave) as (_ & -> & _).
  cbn [AudioBuffer with_AudioBuffer Metrics AudioChannel Conn Logger].
  split; [intros key Hkey; now rewrite lookup_delete_ne|].
  split; [apply lookup_delete_eq|].
  split; [|now repeat split].
  intros path Hpath. revert Hsave. unfold saveAudioOnly, os_Create.
  destruct (AudioBuffer c !! audioKeyOf responseID itemID) as [[audio|]|];
    [|discriminate..].
  destruct (length (AudioData audio) =? 0)%nat; [discriminate|].
  destruct (fs_create_fault fs filepath); [discriminate|].
  destruct (writeWAVHeader _ _) as [[err|] file1]; [discriminate|].
  destruct (file_Write file1 _) as [[err|] file2]; [discriminate|].
  intros [= <-]. cbn [fs_put fs_files].
  now rewrite !lookup_insert_ne.
Qed.

Lemma saveAudioOnly_frame_witness :
  let c := deliver (NewChatClient (dial (fun _ => None)) DefaultConfig)
             [fragment ("r1", "i1") [x01]; fragment ("r2", "i2") [x02]] in
  let fs := healthy_fs {[ "old.wav" := [x07] ]} in
  exists c' fs',
    saveAudioOnly c fs "r1" "i1" "a.wav" = (None, c', fs') /\
    buffered c' "r2_i2" = [x02] /\
    fs_files fs' !! "old.wav" = Some [x07].
Proof.
  cbv zeta.
  destruct (saveAudioOnly
              (deliver (NewChatClient (dial (fun _ => None)) DefaultConfig)
                 [fragment ("r1", "i1") [x01]; fragment ("r2", "i2") [x02]])
              (healthy_fs {[ "old.wav" := [x07] ]}) "r1" "i1" "a.wav")
    as [[err c'] fs'] eqn:Hsave.
  assert (Herr : err = None) by (vm_compute in Hsave; congruence).
  subst err. exists c', fs'. split; [reflexivity|].
  destruct (saveAudioOnly_frame _ _ _ _ _ _ _ Hsave) as (Hbuf & _ & Hfiles & _).
  split.
  - unfold buffered. rewrite (Hbuf "r2_i2") by (vm_compute; discriminate).
    vm_compute. reflexivity.
  - rewrite (Hfiles "old.wav") by (vm_compute; discriminate).
    vm_compute. reflexivity.
Defined.

Lemma write_fields_upto (header : list header_field) :
  forall (file : OutFile),
    (forall j, (j < length header)%nat ->
               of_fault file (of_writes file + j) = None) ->
    write_fields file header
    = (None, {| of_data := of_data file ++ concat (map encode_field header);
                of_writes := of_writes file + length header;
                of_fault := of_fault file |}).
Proof.
  induction header as [|v rest IH]; intros file Hok.
  - cbn. rewrite app_nil_r, Nat.add_0_r. now destruct file.
  - cbn [write_fields]. unfold binary_Write, file_Write.
    pose proof (Hok 0%nat ltac:(cbn [length]; lia)) as H0.
    rewrite Nat.add_0_r in H0. rewrite H0.
    rewrite IH; cbn [of_data of_writes of_fault].
    + cbn [map concat length]. rewrite <- app_assoc. do 2 f_equal. lia.
    + intros j Hj. rewrite <- (Hok (S j)) by (cbn [length]; lia). f_equal. lia.
Qed.

(** The faults of the file system are what they are: [saveAudioOnly]
    does not change them. *)
Lemma saveAudioOnly_faults c fs (responseID itemID filepath : string) :
  let fs' := snd (saveAudioOnly c fs responseID itemID filepath) in
  fs_create_fault fs' = fs_create_fault fs
  /\ fs_write_fault fs' = fs_write_fault fs
  /\ fs_read_fault fs' = fs_read_fault fs.
Proof.
  unfold saveAudioOnly, os_Create. cbv zeta.
  destruct (AudioBuffer c !! audioKeyOf responseID itemID) as [[audio|]|];
    [|now repeat split..].
  destruct (length (AudioData audio) =? 0)%nat; [now repeat split|].
  destruct (fs_create_fault fs filepath); [now repeat split|].
  destruct (writeWAVHeader _ _) as [[err|] file1]; [now repeat split|].
  destruct (file_Write file1 _) as [[err|] file2]; now repeat split.
Qed.

(** X7. A write that fails while the artifact is being written leaves
    the file behind, truncated. With the [k]-th [Write] on the new
    file the first to fail (a failing write writing nothing), the
    file holds the header fields written before it and none of the
    samples; the error is reported as a header error for the first
    thirteen writes and as a data error for the fourteenth, and the
    client is as before. *)
Theorem saveAudioOnly_leaves_partial_file c fs
    (responseID itemID filepath : string) (k : nat) (e : error) :
  let audioData := buffered c (audioKeyOf responseID itemID) in
  let dataSize := wrap32 (Z.of_nat (length audioData)) in
  audioData <> [] ->
  fs_create_fault fs filepath = None ->
  (k <= 13)%nat ->
  (forall j, (j < k)%nat -> fs_write_fault fs filepath j = None) ->
  fs_write_fault fs filepath k = Some e ->
  exists fs',
    saveAudioOnly c fs responseID itemID filepath
    = (Some (ErrWrap (if (k <? 13)%nat then "write WAV header"
                      else "write audio data") e), c, fs') /\
    fs_files fs' !! filepath
    = Some (concat (map encode_field (take k (header_fields dataSize)))).
Proof.
  unfold buffered, saveAudioOnly, os_Create. cbv zeta.
  destruct (AudioBuffer c !! audioKeyOf responseID itemID) as [[audio|]|];
    [|congruence..].
  intros Hne Hcreate Hk Hbefore Hfault. rewrite Hcreate.
  destruct (Nat.eqb_spec (length (AudioData audio)) 0) as [Hz|_];
    [now destruct (AudioData audio)|].
  destruct (Nat.ltb_spec k 13) as [Hlt|Hge].
  - unfold writeWAVHeader.
    rewrite (write_fields_fault _ _ k e) by (cbn; assumption).
    eexists. split; [reflexivity|].
    cbn [fs_put fs_files of_data]. now rewrite lookup_insert_eq.
  - assert (k = 13%nat) as -> by lia.
    unfold writeWAVHeader.
    rewrite write_fields_upto by (cbn; intros j Hj; apply Hbefore; exact Hj).
    unfold file_Write. cbn [of_fault of_writes of_data].
    change (0 + length (header_fields _))%nat with 13%nat. rewrite Hfault.
    eexists. split; [reflexivity|].
    cbn [fs_put fs_files of_data]. now rewrite lookup_insert_eq.
Qed.

Lemma saveAudioOnly_leaves_partial_file_witness :
  let c := deliver (NewChatClient (dial (fun _ => None)) DefaultConfig)
             [fragment ("r1", "i1") [x01; x02]] in
  let full := ErrNew "no space left on device" in
  let fs := {| fs_files := ∅; fs_create_fault := fun _ => None;
               fs_write_fault := fun _ => fails_at 13 full;
               fs_read_fault := fun _ _ => None |} in
  exists fs',
    saveAudioOnly c fs "r1" "i1" "out.wav"
    = (Some (ErrWrap "write audio data" full), c, fs') /\
    fs_files fs' !! "out.wav" = Some (wav_header 2).
Proof.
  cbv zeta.
  destruct (saveAudioOnly_leaves_partial_file
              (deliver (NewChatClient (dial (fun _ => None)) DefaultConfig)
                 [fragment ("r1", "i1") [x01; x02]])
              {| fs_files := ∅; fs_create_fault := fun _ => None;
                 fs_write_fault :=
                   fun _ => fails_at 13 (ErrNew "no space left on device");
                 fs_read_fault := fun _ _ => None |}
              "r1" "i1" "out.wav" 13 (ErrNew "no space left on device"))
    as (fs' & Hsave & Hfile).
  - vm_compute. discriminate.
  - reflexivity.
  - lia.
  - intros j Hj. cbn. unfold fails_at.
    destruct (Nat.eqb_spec j 13); [lia | reflexivity].
  - reflexivity.
  - exists fs'. split; [exact Hsave|]. rewrite Hfile. vm_compute. reflexivity.
Defined.

Lemma buffered_log_event c (direction msgType key : string) :
  buffered (log_event c direction msgType) key = buffered c key.
Proof. reflexivity. Qed.

Lemma two_streams_one_path c fs (audioFiles : gmap string string)
    (m1 m2 : AudioDoneMsg) (timestamp : string) :
  let k1 := audioKeyOf (done_ResponseID m1) (done_ItemID m1) in
  let k2 := audioKeyOf (done_ResponseID m2) (done_ItemID m2) in
  let path := audio_path c timestamp in
  k1 <> k2 ->
  buffered c k1 <> [] -> buffered c k2 <> [] ->
  fs_create_fault fs path = None ->
  (forall j, fs_write_fault fs path j = None) ->
  exists c' fs' audioFiles',
    handleFrames c fs audioFiles
      [AudioDoneFrame (inr m1) timestamp; AudioDoneFrame (inr m2) timestamp]
    = Returns (c', fs', audioFiles') /\
    fs_files fs' !! path = Some (wav_file (buffered c k2)) /\
    audioFiles' !! k1 = Some path /\ audioFiles' !! k2 = Some path /\
    AudioBuffer c' !! k1 = None /\ AudioBuffer c' !! k2 = None.
Proof.
  intros k1 k2 path Hne Hb1 Hb2 Hcreate Hwrite.
  cbn [handleFrames handleFrame].
  set (c0 := log_event c "received" "response.audio.done").
  change (path_join (AudioOutputDir (Config c0)) ("audio_" +:+ timestamp +:+ ".wav"))
    with path.
  destruct (saveAudioOnly_healthy c0 fs (done_ResponseID m1) (done_ItemID m1) path)
    as (c1 & fs1 & Hs1); [exact Hb1 | exact Hcreate | exact Hwrite |].
  rewrite Hs1.
  pose proof (saveAudioOnly_faults c0 fs (done_ResponseID m1) (done_ItemID m1) path)
    as (Hf1 & Hf2 & _).
  rewrite Hs1 in Hf1, Hf2. cbn [snd] in Hf1, Hf2.
  pose proof (saveAudioOnly_success _ _ _ _ _ _ _ Hs1) as (_ & Hc1 & _).
  set (c1' := log_event c1 "received" "response.audio.done").
  change (path_join (AudioOutputDir (Config c1')) ("audio_" +:+ timestamp +:+ ".wav"))
    with (path_join (AudioOutputDir (Config c1)) ("audio_" +:+ timestamp +:+ ".wav")).
  assert (Hpath : path_join (AudioOutputDir (Config c1))
                    ("audio_" +:+ timestamp +:+ ".wav") = path)
    by (rewrite Hc1; reflexivity).
  rewrite Hpath.
  assert (Hb2' : buffered c1' k2 = buffered c k2).
  { unfold c1'. rewrite buffered_log_event, Hc1.
    fold k1. now rewrite buffered_delete. }
  destruct (saveAudioOnly_healthy c1' fs1 (done_ResponseID m2) (done_ItemID m2) path)
    as (c2 & fs2 & Hs2).
  { fold k2. now rewrite Hb2'. }
  { now rewrite Hf1. }
  { intros j. now rewrite Hf2. }
  rewrite Hs2.
  pose proof (saveAudioOnly_success _ _ _ _ _ _ _ Hs2) as (_ & Hc2 & Hfile).
  exists c2, fs2. eexists. split; [reflexivity|].
  fold k1 k2 in Hfile |- *. rewrite Hb2' in Hfile.
  split; [exact Hfile|].
  split; [now rewrite lookup_insert_ne, lookup_insert_eq|].
  split; [now rewrite lookup_insert_eq|].
  rewrite Hc2. cbn [AudioBuffer with_AudioBuffer]. fold k2.
  split; [|apply lookup_delete_eq].
  rewrite lookup_delete_ne by congruence.
  unfold c1'. cbn [AudioBuffer log_event with_Logger]. rewrite Hc1.
  cbn [AudioBuffer with_AudioBuffer]. apply lookup_delete_eq.
Qed.

(** X8. The artifact is named after the second it is saved in. When
    the receive loop, the done channel open, reads the done frames of
    two streams within the same second, both are saved under one
    path: the second file replaces the first, both streams are
    recorded under that path and both buffers are gone, so the audio
    of the first stream is lost. *)
Theorem same_second_overwrites c fs (audioFiles : gmap string string)
    (m1 m2 : AudioDoneMsg) (timestamp : string) :
  let k1 := audioKeyOf (done_ResponseID m1) (done_ItemID m1) in
  let k2 := audioKeyOf (done_ResponseID m2) (done_ItemID m2) in
  let path := audio_path c timestamp in
  let frames :=
    [AudioDoneFrame (inr m1) timestamp; AudioDoneFrame (inr m2) timestamp] in
  Done c = false ->
  k1 <> k2 ->
  buffered c k1 <> [] -> buffered c k2 <> [] ->
  fs_create_fault fs path = None ->
  (forall j, fs_write_fault fs path j = None) ->
  exists c' fs' audioFiles',
    handleFrames c fs audioFiles frames = Returns (c', fs', audioFiles') /\
    receiveLoop (map ReadMessage frames) c fs audioFiles
    = Returns (Running, c', fs') /\
    fs_files fs' !! path = Some (wav_file (buffered c k2)) /\
    audioFiles' !! k1 = Some path /\ audioFiles' !! k2 = Some path /\
    AudioBuffer c' !! k1 = None /\ AudioBuffer c' !! k2 = None.
Proof.
  intros k1 k2 path frames Hdone Hne Hb1 Hb2 Hcreate Hwrite.
  destruct (two_streams_one_path c fs audioFiles m1 m2 timestamp
              Hne Hb1 Hb2 Hcreate Hwrite)
    as (c' & fs' & audioFiles' & Hrun & Hrest).
  exists c', fs', audioFiles'. split; [exact Hrun|].
  split; [|exact Hrest].
  rewrite receiveLoop_frames by exact Hdone. unfold frames. now rewrite Hrun.
Qed.

Lemma same_second_overwrites_witness :
  let c := deliver (NewChatClient (dial (fun _ => None)) DefaultConfig)
             [fragment ("r1", "i1") [x01]; fragment ("r1", "i2") [x02]] in
  let m1 := {| done_ResponseID := "r1"; done_ItemID := "i1" |} in
  let m2 := {| done_ResponseID := "r1"; done_ItemID := "i2" |} in
  let path := "audio_output/audio_20240101_120000.wav" in
  exists c' fs' audioFiles',
    handleFrames c (healthy_fs ∅) ∅
      [AudioDoneFrame (inr m1) "20240101_120000";
       AudioDoneFrame (inr m2) "20240101_120000"]
    = Returns (c', fs', audioFiles') /\
    fs_files fs' !! path = Some (wav_file [x02]) /\
    audioFiles' !! "r1_i1" = Some path /\
    AudioBuffer c' !! "r1_i1" = None.
Proof.
  cbv zeta.
  destruct (same_second_overwrites
              (deliver (NewChatClient (dial (fun _ => None)) DefaultConfig)
                 [fragment ("r1", "i1") [x01]; fragment ("r1", "i2") [x02]])
              (healthy_fs ∅) ∅
              {| done_ResponseID := "r1"; done_ItemID := "i1" |}
              {| done_ResponseID := "r1"; done_ItemID := "i2" |}
              "20240101_120000")
    as (c' & fs' & audioFiles' & Hrun & _ & Hfile & Hk1 & _ & Hb1 & _).
  - reflexivity.
  - vm_compute. discriminate.
  - vm_compute. discriminate.
  - vm_compute. discriminate.
  - reflexivity.
  - reflexivity.
  - exists c', fs', audioFiles'. split; [exact Hrun|].
    split; [etransitivity; [exact Hfile | vm_compute; reflexivity]|].
    split; [exact Hk1 | exact Hb1].
Defined.

End Drain.

(* ================================================================= *)
(** ** The artifact and its transcript                                *)
(* ================================================================= *)

Section Artifact.

Implicit Types (c : ChatClient) (fs : FileSystem).

Lemma upload_events_payloads (raw : list byte) :
  decoded_payloads (upload_events raw) = Some raw.
Proof.
  unfold upload_events. cbn [app decoded_payloads audioItem].
  rewrite decoded_payloads_append_events. cbn [decoded_payloads commitEvent].
  rewrite app_nil_r. f_equal. apply chunks_of_concat. exact chunkBytes_pos.
Qed.

(** X9. What the client saves, it can send. The file [saveAudioOnly]
    has written passes [validateWAVFormat], and uploading it over a
    connection that accepts every write sends, after the item event,
    exactly the bytes that were buffered for the stream. *)
Theorem saved_audio_uploads c fs (responseID itemID filepath : string)
    c1 fs1 c2 :
  saveAudioOnly c fs responseID itemID filepath = (None, c1, fs1) ->
  (forall k, fs_read_fault fs filepath k = None) ->
  (forall k, conn_fault (Conn c2) (conn_attempts (Conn c2) + k) = None) ->
  let audioData := buffered c (audioKeyOf responseID itemID) in
  exists c3,
    sendAudioMessage c2 fs1 filepath = Some (None, c3) /\
    conn_sent (Conn c3) = conn_sent (Conn c2) ++ upload_events audioData /\
    decoded_payloads (upload_events audioData) = Some audioData.
Proof.
  intros Hsave Hread Hconn audioData.
  pose proof (saveAudioOnly_success _ _ _ _ _ _ _ Hsave) as (_ & _ & Hfile).
  pose proof (saveAudioOnly_faults c fs responseID itemID filepath) as (_ & _ & Hrf).
  rewrite Hsave in Hrf. cbn [snd] in Hrf.
  fold audioData in Hfile.
  rewrite (sendAudioMessage_spec c2 fs1 filepath _ Hfile).
  - rewrite (drop_app_length' (wav_header (wrap32 (Z.of_nat (length audioData))))
               audioData 44
               (length_wav_header (wrap32 (Z.of_nat (length audioData))))).
    destruct (write_each_once_ok (upload_events audioData) c2)
      as (c3 & Hw & Hsent & _); [intros k _; apply Hconn|].
    exists c3. rewrite Hw. split; [reflexivity|]. split; [exact Hsent|].
    apply upload_events_payloads.
  - intros k. now rewrite Hrf.
  - apply validate_wav_header.
Qed.

Lemma saved_audio_uploads_witness :
  let c := deliver (NewChatClient (dial (fun _ => None)) DefaultConfig)
             [fragment ("r1", "i1") [x01; x02]; fragment ("r1", "i1") [x03]] in
  exists c1 fs1 c3,
    saveAudioOnly c (healthy_fs ∅) "r1" "i1" "a.wav" = (None, c1, fs1) /\
    sendAudioMessage c1 fs1 "a.wav" = Some (None, c3) /\
    conn_sent (Conn c3)
    = [audioItem; appendEvent 1 [x01; x02; x03]; commitEvent 1;
       ResponseCreate "response.create"].
Proof.
  cbv zeta.
  destruct (saveAudioOnly
              (deliver (NewChatClient (dial (fun _ => None)) DefaultConfig)
                 [fragment ("r1", "i1") [x01; x02]; fragment ("r1", "i1") [x03]])
              (healthy_fs ∅) "r1" "i1" "a.wav") as [[err c1] fs1] eqn:Hsave.
  assert (Herr : err = None) by (vm_compute in Hsave; congruence).
  subst err.
  destruct (saved_audio_uploads _ _ _ _ _ _ _ c1 Hsave) as (c3 & Hsend & Hsent & _).
  - reflexivity.
  - apply saveAudioOnly_success in Hsave as (_ & -> & _). reflexivity.
  - exists c1, fs1, c3. split; [reflexivity|]. split; [exact Hsend|].
    rewrite Hsent.
    apply saveAudioOnly_success in Hsave as (_ & -> & _).
    vm_compute. reflexivity.
Defined.

Lemma str_take_drop (n : nat) (s : string) : str_take n s +:+ str_drop n s = s.
Proof.
  revert n. induction s as [|ch s IH]; intros [|n]; try reflexivity.
  cbn [str_take str_drop]. rewrite append_cons. now rewrite IH.
Qed.

Lemma HasSuffix_split (s suffix : string) :
  HasSuffix s suffix = true ->
  s = str_take (String.length s - String.length suffix) s +:+ suffix.
Proof.
  unfold HasSuffix. intros [_ Heq%String.eqb_eq]%andb_true_iff.
  pose proof (str_take_drop (String.length s - String.length suffix) s) as H.
  now rewrite Heq in H.
Qed.

(** The transcript never goes to the path of the audio file. *)
Lemma transcript_path_differs (filepath : string) :
  TrimSuffix filepath ".wav" +:+ ".txt" <> filepath.
Proof.
  unfold TrimSuffix. destruct (HasSuffix filepath ".wav") eqn:Hs.
  - apply HasSuffix_split in Hs. intros Heq. rewrite Hs in Heq at 3.
    apply (inj (String.app _)) in Heq. discriminate.
  - intros Heq. apply (f_equal String.length) in Heq.
    rewrite length_append in Heq. cbn in Heq. lia.
Qed.

(** [saveTranscript] on a path that can be created and written. *)
Lemma saveTranscript_writes fs (filepath transcript timestamp : string) :
  let textPath := TrimSuffix filepath ".wav" +:+ ".txt" in
  fs_create_fault fs textPath = None ->
  fs_write_fault fs textPath 0%nat = None ->
  exists fs',
    saveTranscript fs filepath transcript timestamp = (None, fs') /\
    fs_files fs' !! textPath
    = Some (list_byte_of_string
              (transcript_text filepath
                 (if is_empty transcript then "No transcript available"
                  else transcript) timestamp)) /\
    (forall path, path <> textPath ->
                  fs_files fs' !! path = fs_files fs !! path).
Proof.
  intros textPath Hcreate Hwrite.
  unfold saveTranscript, os_Create, file_Write. fold textPath.
  rewrite Hcreate. cbn [of_fault of_writes of_data]. rewrite Hwrite.
  eexists. split; [reflexivity|]. cbn [fs_put fs_files].
  split; [now rewrite lookup_insert_eq|].
  intros path Hpath. now rewrite !lookup_insert_ne.
Qed.

(** X10. The transcript is written beside the audio file and never over
    it. The text goes to the audio path with a final ".wav" replaced
    by ".txt" (".txt" appended when the path does not end in ".wav"),
    which is never the audio path itself; on success that file holds
    the formatted text and every other file is as before. *)
Theorem saveTranscript_beside_audio fs (filepath transcript timestamp : string) :
  let textPath := TrimSuffix filepath ".wav" +:+ ".txt" in
  fs_create_fault fs textPath = None ->
  fs_write_fault fs textPath 0%nat = None ->
  textPath <> filepath /\
  exists fs',
    saveTranscript fs filepath transcript timestamp = (None, fs') /\
    fs_files fs' !! textPath
    = Some (list_byte_of_string
              (transcript_text filepath
                 (if is_empty transcript then "No transcript available"
                  else transcript) timestamp)) /\
    (forall path, path <> textPath ->
                  fs_files fs' !! path = fs_files fs !! path).
Proof.
  intros textPath Hcreate Hwrite.
  split; [apply transcript_path_differs|].
  now apply saveTranscript_writes.
Qed.

Lemma saveTranscript_beside_audio_witness :
  let fs := healthy_fs {[ "out/audio_1.wav" := [x01] ]} in
  exists fs',
    saveTranscript fs "out/audio_1.wav" "hello" "2024-01-01 12:00:00"
    = (None, fs') /\
    fs_files fs' !! "out/audio_1.txt"
    = Some (list_byte_of_string
              ("Generated: 2024-01-01 12:00:00" +:+ newline
               +:+ "Audio File: out/audio_1.wav" +:+ newline
               +:+ "Transcript:" +:+ newline +:+ "hello" +:+ newline)) /\
    fs_files fs' !! "out/audio_1.wav" = Some [x01].
Proof.
  cbv zeta.
  destruct (saveTranscript_beside_audio
              (healthy_fs {[ "out/audio_1.wav" := [x01] ]})
              "out/audio_1.wav" "hello" "2024-01-01 12:00:00")
    as (_ & fs' & Hsave & Htext & Hother); [reflexivity | reflexivity |].
  exists fs'. split; [exact Hsave|]. split.
  - etransitivity; [|exact Htext]. f_equal.
  - rewrite Hother by (vm_compute; discriminate). vm_compute. reflexivity.
Defined.

End Artifact.

(* ================================================================= *)
(** ** The dispatcher and the processing routine together             *)
(* ================================================================= *)

Section Interleaving.

Implicit Types (c : ChatClient) (chunk : AudioChunk) (steps : list DispatchStep).

Lemma b64_char_not_bracket (v : Z) : Ascii.eqb (b64_char v) "[" = false.
Proof.
  destruct (Ascii.eqb_spec (b64_char v) "[") as [Heq|]; [|reflexivity].
  pose proof (b64_char_facts v) as (Hv & _). rewrite Heq in Hv. discriminate.
Qed.

(** A base64 text never looks like the trimmed sentinel. *)
Lemma HasPrefix_encode (p : list byte) :
  HasPrefix (EncodeToString p) "[trimmed: " = false.
Proof.
  unfold HasPrefix.
  destruct p as [|a [|b [|x rest]]]; [reflexivity|..];
    cbn [EncodeToString]; cbv zeta; cbn [String.length str_take String.eqb];
    rewrite b64_char_not_bracket; apply andb_false_r.
Qed.

Lemma decode_delta_base64 (avail : Z) (p : list byte) :
  decode_delta avail (EncodeToString p) = Returns (inr p).
Proof.
  unfold decode_delta. cbv zeta. rewrite HasPrefix_encode. cbn [andb].
  now rewrite DecodeString_EncodeToString.
Qed.

(** Decoding returns, with the payload or with an error, unless the
    delta is a sentinel with a count that [make] does not return
    for. *)
Lemma decode_delta_returns (avail : Z) (delta : string) :
  (forall size, trimmed_count delta = Some size ->
                0 <= size <= 2 ^ 48 /\ size <= avail) ->
  exists r, decode_delta avail delta = Returns r.
Proof.
  unfold trimmed_count, decode_delta. cbv zeta. intros Hcount.
  destruct (HasPrefix delta "[trimmed: " && HasSuffix delta " bytes]").
  - destruct (Atoi _) as [err|size]; [eauto|].
    destruct (Hcount size eq_refl) as [Hn Ha].
    rewrite make_bytes_returns by (unfold maxAlloc; lia). eauto.
  - destruct (DecodeString delta); eauto.
Qed.

(** One turn of the processing routine, the done channel being open:
    what is buffered once the queue is drained does not depend on
    whether the turn was taken. *)
Lemma flush_take c (pick_done : bool) :
  Done c = false -> AudioChannelClosed c = false ->
  flush (snd (audioProcessingStep c pick_done)) = flush c.
Proof.
  intros Hdone Hopen. unfold audioProcessingStep, flush.
  rewrite Hdone, Hopen. cbn [andb orb].
  destruct (AudioChannel c) as [|chunk rest] eqn:Hq; cbn [snd].
  - now rewrite Hq.
  - reflexivity.
Qed.

Lemma audioProcessingStep_open c (pick_done : bool) :
  Done c = false -> AudioChannelClosed c = false ->
  let c' := snd (audioProcessingStep c pick_done) in
  Done c' = false /\ AudioChannelClosed c' = false.
Proof.
  intros Hdone Hopen. unfold audioProcessingStep.
  rewrite Hdone, Hopen. cbn [andb orb].
  destruct (AudioChannel c); cbn; now split.
Qed.

(** [handleAudioResponse] with the done channel open: a delta that
    decodes is queued, whatever the scheduler, and ends up behind
    everything queued before it. *)
Lemma handleAudioResponse_open c (avail : Z) (pick_done : bool)
    (audioMsg : AudioDeltaMsg) :
  Done c = false -> AudioChannelClosed c = false ->
  (forall size, trimmed_count (msg_Delta audioMsg) = Some size ->
                0 <= size <= 2 ^ 48 /\ size <= avail) ->
  exists err c',
    handleAudioResponse c avail pick_done (inr audioMsg) = Returns (err, c') /\
    Done c' = false /\ AudioChannelClosed c' = false /\
    forall key,
      buffered (flush c') key
      = buffered (flush c) key
        ++ (if decide (audioKeyOf (msg_ResponseID audioMsg) (msg_ItemID audioMsg)
                       = key)
            then delta_bytes avail audioMsg else []).
Proof.
  intros Hdone Hopen Hcount. unfold handleAudioResponse, delta_bytes.
  destruct (decode_delta_returns avail _ Hcount) as [[err|p] ->].
  - exists (Some err), c. split; [reflexivity|]. split; [exact Hdone|].
    split; [exact Hopen|]. intros key. destruct (decide _); now rewrite app_nil_r.
  - rewrite Hdone. cbv zeta.
    eexists None, _. split; [reflexivity|].
    destruct (Nat.ltb_spec (length (AudioChannel c)) audioChannelCap) as [_|Hfull].
    + split; [exact Hdone|]. split; [exact Hopen|]. intros key.
      rewrite flush_enqueue, buffered_handleAudioChunk.
      cbn [ResponseID ItemID Data]. destruct (decide _); now rewrite ?app_nil_r.
    + destruct (audioProcessingStep_open c false Hdone Hopen) as [Hd' Ho'].
      split; [exact Hd'|]. split; [exact Ho'|]. intros key.
      rewrite flush_enqueue, flush_take, buffered_handleAudioChunk by assumption.
      cbn [ResponseID ItemID Data]. destruct (decide _); now rewrite ?app_nil_r.
Qed.

Lemma bytes_for_cons (key : string) (avail : Z) (m : AudioDeltaMsg)
    (msgs : list (Z * AudioDeltaMsg)) :
  bytes_for key ((avail, m) :: msgs)
  = (if decide (audioKeyOf (msg_ResponseID m) (msg_ItemID m) = key)
     then delta_bytes avail m else [])
    ++ bytes_for key msgs.
Proof.
  unfold bytes_for. rewrite filter_cons.
  destruct (decide _); reflexivity.
Qed.



(** X12. A base64 delta is never mistaken for the trimmed sentinel and
    decodes to the bytes that were encoded: with the done channel
    open, the frame carrying [EncodeToString p] is accepted and adds
    exactly [p] to the buffer of its stream. *)
Theorem base64_delta_reaches_buffer c (avail : Z) (pick_done : bool)
    (audioMsg : AudioDeltaMsg) (p : list byte) :
  msg_Delta audioMsg = EncodeToString p ->
  Done c = false -> AudioChannelClosed c = false ->
  let key := audioKeyOf (msg_ResponseID audioMsg) (msg_ItemID audioMsg) in
  decode_delta avail (msg_Delta audioMsg) = Returns (inr p) /\
  exists c1,
    handleAudioResponse c avail pick_done (inr audioMsg) = Returns (None, c1) /\
    buffered (flush c1) key = buffered (flush c) key ++ p.
Proof.
  intros Hdelta Hdone Hopen key.
  assert (Hdec : decode_delta avail (msg_Delta audioMsg) = Returns (inr p))
    by (rewrite Hdelta; apply decode_delta_base64).
  split; [exact Hdec|].
  destruct (handleAudioResponse_open c avail pick_done audioMsg Hdone Hopen)
    as (err & c1 & Hret & _ & _ & Hbuf).
  { intros size. unfold trimmed_count.
    rewrite Hdelta, HasPrefix_encode. discriminate. }
  assert (err = None) as ->.
  { revert Hret. unfold handleAudioResponse. rewrite Hdec, Hdone. cbv zeta.
    now intros [= <- _]. }
  exists c1. split; [exact Hret|].
  rewrite Hbuf. unfold delta_bytes. rewrite Hdec.
  now rewrite decide_True by reflexivity.
Qed.

Lemma base64_delta_reaches_buffer_witness :
  let c := NewChatClient (dial (fun _ => None)) DefaultConfig in
  let audioMsg :=
    {| msg_Type := "response.audio.delta"; msg_ResponseID := "r1";
       msg_ItemID := "i1"; msg_OutputIndex := 0; msg_ContentIndex := 0;
       msg_Delta := "W3RyaW1tZWQ6IDUgYnl0ZXNd" |} in
  exists c1,
    handleAudioResponse c 0 false (inr audioMsg) = Returns (None, c1) /\
    buffered (flush c1) "r1_i1" = list_byte_of_string "[trimmed: 5 bytes]".
Proof.
  cbv zeta.
  destruct (base64_delta_reaches_buffer
              (NewChatClient (dial (fun _ => None)) DefaultConfig) 0 false
              {| msg_Type := "response.audio.delta"; msg_ResponseID := "r1";
                 msg_ItemID := "i1"; msg_OutputIndex := 0; msg_ContentIndex := 0;
                 msg_Delta := "W3RyaW1tZWQ6IDUgYnl0ZXNd" |}
              (list_byte_of_string "[trimmed: 5 bytes]"))
    as (_ & c1 & Hret & Hbuf); [vm_compute; reflexivity | reflexivity..|].
  exists c1. split; [exact Hret|].
  etransitivity; [exact Hbuf|]. vm_compute. reflexivity.
Defined.

Lemma wrap_int64_idemp (x y : Z) : wrap_int64 (wrap_int64 x + y) = wrap_int64 (x + y).
Proof.
  unfold wrap_int64. f_equal.
  replace ((x + 2 ^ 63) mod 2 ^ 64 - 2 ^ 63 + y + 2 ^ 63)
    with ((x + 2 ^ 63) mod 2 ^ 64 + y) by lia.
  rewrite Z.add_mod_idemp_l by lia. f_equal. lia.
Qed.

Lemma wrap_int64_small (x : Z) : - 2 ^ 63 <= x < 2 ^ 63 -> wrap_int64 x = x.
Proof. intros H. unfold wrap_int64. rewrite Z.mod_small by lia. lia. Qed.

Lemma wrap_int64_range (x : Z) : - 2 ^ 63 <= wrap_int64 x < 2 ^ 63.
Proof.
  unfold wrap_int64.
  pose proof (Z.mod_pos_bound (x + 2 ^ 63) (2 ^ 64) ltac:(lia)). lia.
Qed.

(** X13. The fragment counter counts the fragments appended, one for
    each call of [handleAudioChunk], in [int64] arithmetic; appending
    fragments leaves the other counters alone. *)
Theorem deliver_counts_fragments (chunks : list AudioChunk) c :
  - 2 ^ 63 <= AudioChunks (Metrics c) < 2 ^ 63 ->
  let m := Metrics (deliver c chunks) in
  AudioChunks m
  = wrap_int64 (AudioChunks (Metrics c) + Z.of_nat (length chunks)) /\
  Errors m = Errors (Metrics c) /\
  MessagesSent m = MessagesSent (Metrics c) /\
  MessagesReceived m = MessagesReceived (Metrics c).
Proof.
  cbv zeta. revert c. induction chunks as [|chunk rest IH]; intros c Hrange.
  - cbn [deliver foldl length]. change (Z.of_nat 0) with 0.
    rewrite Z.add_0_r, wrap_int64_small by exact Hrange. now repeat split.
  - cbn [deliver foldl length].
    destruct (IH (handleAudioChunk c chunk)) as (Ha & He & Hs & Hr).
    { cbn [handleAudioChunk Metrics with_Metrics with_AudioBuffer
           RecordAudioChunk AudioChunks]. apply wrap_int64_range. }
    unfold deliver in *. rewrite Ha, He, Hs, Hr.
    cbn [handleAudioChunk Metrics with_Metrics with_AudioBuffer
         RecordAudioChunk AudioChunks Errors MessagesSent MessagesReceived].
    split; [|now repeat split].
    rewrite wrap_int64_idemp. f_equal. lia.
Qed.

Lemma deliver_counts_fragments_witness :
  let c := NewChatClient (dial (fun _ => None)) DefaultConfig in
  let chunks := [fragment ("r1", "i1") [x01]; fragment ("r2", "i2") [];
                 fragment ("r1", "i1") [x02]] in
  AudioChunks (Metrics (deliver c chunks)) = 3.
Proof.
  cbv zeta.
  destruct (deliver_counts_fragments
              [fragment ("r1", "i1") [x01]; fragment ("r2", "i2") [];
               fragment ("r1", "i1") [x02]]
              (NewChatClient (dial (fun _ => None)) DefaultConfig))
    as (Ha & _); [cbn; lia|].
  etransitivity; [exact Ha|]. reflexivity.
Defined.

End Interleaving.

(* ================================================================= *)
(** ** A stream from its last fragment to its transcript              *)
(* ================================================================= *)

Section Session.

Implicit Types (c : ChatClient) (fs : FileSystem)
  (audioFiles : gmap string string).

(** The transcript of an artifact named by [receiveRoutine]. *)
Lemma audio_text_path c (timestamp : string) :
  TrimSuffix (audio_path c timestamp) ".wav" +:+ ".txt"
  = path_join (AudioOutputDir (Config c)) ("audio_" +:+ timestamp +:+ ".txt").
Proof.
  unfold audio_path, path_join.
  rewrite <- !append_assoc. rewrite TrimSuffix_append.
  now rewrite !append_assoc.
Qed.

Lemma done_then_transcript c fs audioFiles
    (responseID itemID ts1 ts2 transcript : string) :
  let key := audioKeyOf responseID itemID in
  let dir := AudioOutputDir (Config c) in
  let path := path_join dir ("audio_" +:+ ts1 +:+ ".wav") in
  let textPath := path_join dir ("audio_" +:+ ts1 +:+ ".txt") in
  let doneMsg := {| done_ResponseID := responseID; done_ItemID := itemID |} in
  let respDone :=
    {| ResponseIDOf := responseID;
       Output := [{| OutputID := itemID;
                     Content := [{| ContentType := "audio";
                                    ContentTranscript := transcript |}] |}] |} in
  buffered c key <> [] ->
  transcript <> "" ->
  fs_create_fault fs path = None ->
  (forall j, fs_write_fault fs path j = None) ->
  fs_create_fault fs textPath = None ->
  fs_write_fault fs textPath 0%nat = None ->
  exists c' fs' audioFiles',
    handleFrames c fs audioFiles
      [AudioDoneFrame (inr doneMsg) ts1; ResponseDoneFrame (inr respDone) ts2]
    = Returns (c', fs', audioFiles') /\
    fs_files fs' !! path = Some (wav_file (buffered c key)) /\
    fs_files fs' !! textPath
    = Some (list_byte_of_string (transcript_text path transcript ts2)) /\
    audioFiles' !! key = None /\
    AudioBuffer c' !! key = None.
Proof.
  intros key dir path textPath doneMsg respDone Hbuf Ht Hc Hw Hct Hwt.
  cbn [handleFrames handleFrame]. subst doneMsg.
  cbn [done_ResponseID done_ItemID].
  set (c0 := log_event c "received" "response.audio.done").
  change (path_join (AudioOutputDir (Config c0)) ("audio_" +:+ ts1 +:+ ".wav"))
    with path.
  destruct (saveAudioOnly_healthy c0 fs responseID itemID path)
    as (c1 & fs1 & Hs1); [exact Hbuf | exact Hc | exact Hw |].
  rewrite Hs1.
  pose proof (saveAudioOnly_faults c0 fs responseID itemID path) as (Hf1 & Hf2 & _).
  rewrite Hs1 in Hf1, Hf2. cbn [snd] in Hf1, Hf2.
  pose proof (saveAudioOnly_success _ _ _ _ _ _ _ Hs1) as (_ & Hc1 & Hfile).
  fold key. unfold saveTranscripts, respDone.
  cbn [Output Content foldl ContentType ContentTranscript ResponseIDOf OutputID].
  fold key. rewrite lookup_insert_eq.
  assert (His : is_empty transcript = false) by (now destruct transcript).
  rewrite His. cbn [String.eqb Ascii.eqb Bool.eqb negb andb].
  assert (Htp : TrimSuffix path ".wav" +:+ ".txt" = textPath)
    by apply audio_text_path.
  destruct (saveTranscript_writes fs1 path transcript ts2)
    as (fs2 & Hst & Htext & Hother).
  { now rewrite Htp, Hf1. }
  { now rewrite Htp, Hf2. }
  rewrite Hst. eexists _, fs2, _. split; [reflexivity|].
  rewrite Htp in Htext, Hother. rewrite His in Htext.
  split; [|split; [exact Htext|split]].
  - rewrite Hother; [exact Hfile|].
    rewrite <- Htp. intros Heq. now apply (transcript_path_differs path).
  - apply lookup_delete_eq.
  - cbn [AudioBuffer log_event with_Logger]. rewrite Hc1.
    cbn [AudioBuffer with_AudioBuffer]. apply lookup_delete_eq.
Qed.

(** X14. The audio of a stream and its transcript are paired by the
    stream's key. In the receive loop, the done channel open, a
    [response.audio.done] frame saves what is buffered
    as audio_<time>.wav in the output directory and remembers the
    path under the key; the [response.done] frame that carries a
    transcript for that response and item writes it to
    audio_<time>.txt beside it and forgets the path; the audio file
    is still there and the buffer is gone. *)
Theorem audio_then_transcript c fs audioFiles
    (responseID itemID ts1 ts2 transcript : string) :
  let key := audioKeyOf responseID itemID in
  let dir := AudioOutputDir (Config c) in
  let path := path_join dir ("audio_" +:+ ts1 +:+ ".wav") in
  let textPath := path_join dir ("audio_" +:+ ts1 +:+ ".txt") in
  let doneMsg := {| done_ResponseID := responseID; done_ItemID := itemID |} in
  let respDone :=
    {| ResponseIDOf := responseID;
       Output := [{| OutputID := itemID;
                     Content := [{| ContentType := "audio";
                                    ContentTranscript := transcript |}] |}] |} in
  let frames :=
    [AudioDoneFrame (inr doneMsg) ts1; ResponseDoneFrame (inr respDone) ts2] in
  Done c = false ->
  buffered c key <> [] ->
  transcript <> "" ->
  fs_create_fault fs path = None ->
  (forall j, fs_write_fault fs path j = None) ->
  fs_create_fault fs textPath = None ->
  fs_write_fault fs textPath 0%nat = None ->
  exists c' fs' audioFiles',
    handleFrames c fs audioFiles frames = Returns (c', fs', audioFiles') /\
    receiveLoop (map ReadMessage frames) c fs audioFiles
    = Returns (Running, c', fs') /\
    fs_files fs' !! path = Some (wav_file (buffered c key)) /\
    fs_files fs' !! textPath
    = Some (list_byte_of_string (transcript_text path transcript ts2)) /\
    audioFiles' !! key = None /\
    AudioBuffer c' !! key = None.
Proof.
  intros key dir path textPath doneMsg respDone frames Hdone Hbuf Ht Hc Hw Hct Hwt.
  destruct (done_then_transcript c fs audioFiles responseID itemID ts1 ts2
              transcript Hbuf Ht Hc Hw Hct Hwt)
    as (c' & fs' & audioFiles' & Hrun & Hrest).
  exists c', fs', audioFiles'. split; [exact Hrun|].
  split; [|exact Hrest].
  rewrite receiveLoop_frames by exact Hdone.
  subst frames doneMsg respDone. now rewrite Hrun.
Qed.

Lemma audio_then_transcript_witness :
  let c := deliver (NewChatClient (dial (fun _ => None)) DefaultConfig)
             [fragment ("r1", "i1") [x01; x02]] in
  exists c' fs' audioFiles',
    handleFrames c (healthy_fs ∅) ∅
      [AudioDoneFrame
         (inr {| done_ResponseID := "r1"; done_ItemID := "i1" |}) "20240101_120000";
       ResponseDoneFrame
         (inr {| ResponseIDOf := "r1";
                 Output := [{| OutputID := "i1";
                               Content := [{| ContentType := "audio";
                                              ContentTranscript := "hello" |}] |}] |})
         "2024-01-01 12:00:01"]
    = Returns (c', fs', audioFiles') /\
    fs_files fs' !! "audio_output/audio_20240101_120000.wav"
    = Some (wav_file [x01; x02]) /\
    fs_files fs' !! "audio_output/audio_20240101_120000.txt"
    = Some (list_byte_of_string
              (transcript_text "audio_output/audio_20240101_120000.wav"
                 "hello" "2024-01-01 12:00:01")).
Proof.
  cbv zeta.
  destruct (audio_then_transcript
              (deliver (NewChatClient (dial (fun _ => None)) DefaultConfig)
                 [fragment ("r1", "i1") [x01; x02]])
              (healthy_fs ∅) ∅ "r1" "i1" "20240101_120000"
              "2024-01-01 12:00:01" "hello")
    as (c' & fs' & audioFiles' & Hrun & _ & Hwav & Htxt & _).
  - reflexivity.
  - vm_compute. discriminate.
  - discriminate.
  - reflexivity.
  - reflexivity.
  - reflexivity.
  - reflexivity.
  - exists c', fs', audioFiles'. split; [exact Hrun|].
    split; [etransitivity; [exact Hwav | vm_compute; reflexivity] | exact Htxt].
Defined.

Lemma done_without_audio_then_transcript c fs audioFiles
    (responseID itemID ts1 ts2 transcript : string) :
  let key := audioKeyOf responseID itemID in
  let dir := AudioOutputDir (Config c) in
  let path := path_join dir ("audio_" +:+ ts1 +:+ ".wav") in
  let textPath := path_join dir ("audio_" +:+ ts1 +:+ ".txt") in
  let doneMsg := {| done_ResponseID := responseID; done_ItemID := itemID |} in
  let respDone :=
    {| ResponseIDOf := responseID;
       Output := [{| OutputID := itemID;
                     Content := [{| ContentType := "audio";
                                    ContentTranscript := transcript |}] |}] |} in
  buffered c key = [] ->
  transcript <> "" ->
  fs_create_fault fs textPath = None ->
  fs_write_fault fs textPath 0%nat = None ->
  exists c' fs' audioFiles',
    handleFrames c fs audioFiles
      [AudioDoneFrame (inr doneMsg) ts1; ResponseDoneFrame (inr respDone) ts2]
    = Returns (c', fs', audioFiles') /\
    fs_files fs' !! path = fs_files fs !! path /\
    fs_files fs' !! textPath
    = Some (list_byte_of_string (transcript_text path transcript ts2)) /\
    AudioBuffer c' = AudioBuffer c.
Proof.
  intros key dir path textPath doneMsg respDone Hbuf Ht Hct Hwt.
  cbn [handleFrames handleFrame]. subst doneMsg.
  cbn [done_ResponseID done_ItemID].
  set (c0 := log_event c "received" "response.audio.done").
  change (path_join (AudioOutputDir (Config c0)) ("audio_" +:+ ts1 +:+ ".wav"))
    with path.
  assert (Hsave : exists err, saveAudioOnly c0 fs responseID itemID path
                              = (Some err, c0, fs)).
  { revert Hbuf. unfold buffered, saveAudioOnly, key, c0.
    cbn [AudioBuffer log_event with_Logger].
    destruct (AudioBuffer c !! audioKeyOf responseID itemID) as [[audio|]|];
      [intros ->|..]; eexists; reflexivity. }
  destruct Hsave as (err & ->).
  fold key. unfold saveTranscripts, respDone.
  cbn [Output Content foldl ContentType ContentTranscript ResponseIDOf OutputID].
  fold key. rewrite lookup_insert_eq.
  assert (His : is_empty transcript = false) by (now destruct transcript).
  rewrite His. cbn [String.eqb Ascii.eqb Bool.eqb negb andb].
  assert (Htp : TrimSuffix path ".wav" +:+ ".txt" = textPath)
    by apply audio_text_path.
  destruct (saveTranscript_writes fs path transcript ts2)
    as (fs2 & Hst & Htext & Hother); [now rewrite Htp..|].
  rewrite Hst. eexists _, fs2, _. split; [reflexivity|].
  rewrite Htp in Htext, Hother. rewrite His in Htext.
  split; [|split; [exact Htext | reflexivity]].
  apply Hother. rewrite <- Htp. intros Heq.
  now apply (transcript_path_differs path).
Qed.

(** X15. The path is put on record whether or not the audio was saved.
    When the receive loop reads [response.audio.done] for a stream with nothing
    buffered, [saveAudioOnly] fails and no audio file is written, but
    the path is remembered all the same: the [response.done] frame
    with the transcript then writes audio_<time>.txt for an audio
    file that does not exist. *)
Theorem transcript_written_without_audio c fs audioFiles
    (responseID itemID ts1 ts2 transcript : string) :
  let key := audioKeyOf responseID itemID in
  let dir := AudioOutputDir (Config c) in
  let path := path_join dir ("audio_" +:+ ts1 +:+ ".wav") in
  let textPath := path_join dir ("audio_" +:+ ts1 +:+ ".txt") in
  let doneMsg := {| done_ResponseID := responseID; done_ItemID := itemID |} in
  let respDone :=
    {| ResponseIDOf := responseID;
       Output := [{| OutputID := itemID;
                     Content := [{| ContentType := "audio";
                                    ContentTranscript := transcript |}] |}] |} in
  let frames :=
    [AudioDoneFrame (inr doneMsg) ts1; ResponseDoneFrame (inr respDone) ts2] in
  Done c = false ->
  buffered c key = [] ->
  transcript <> "" ->
  fs_create_fault fs textPath = None ->
  fs_write_fault fs textPath 0%nat = None ->
  exists c' fs' audioFiles',
    handleFrames c fs audioFiles frames = Returns (c', fs', audioFiles') /\
    receiveLoop (map ReadMessage frames) c fs audioFiles
    = Returns (Running, c', fs') /\
    fs_files fs' !! path = fs_files fs !! path /\
    fs_files fs' !! textPath
    = Some (list_byte_of_string (transcript_text path transcript ts2)) /\
    AudioBuffer c' = AudioBuffer c.
Proof.
  intros key dir path textPath doneMsg respDone frames Hdone Hbuf Ht Hct Hwt.
  destruct (done_without_audio_then_transcript c fs audioFiles responseID itemID
              ts1 ts2 transcript Hbuf Ht Hct Hwt)
    as (c' & fs' & audioFiles' & Hrun & Hrest).
  exists c', fs', audioFiles'. split; [exact Hrun|].
  split; [|exact Hrest].
  rewrite receiveLoop_frames by exact Hdone.
  subst frames doneMsg respDone. now rewrite Hrun.
Qed.

Lemma transcript_written_without_audio_witness :
  let c := NewChatClient (dial (fun _ => None)) DefaultConfig in
  exists c' fs' audioFiles',
    handleFrames c (healthy_fs ∅) ∅
      [AudioDoneFrame
         (inr {| done_ResponseID := "r1"; done_ItemID := "i1" |}) "20240101_120000";
       ResponseDoneFrame
         (inr {| ResponseIDOf := "r1";
                 Output := [{| OutputID := "i1";
                               Content := [{| ContentType := "audio";
                                              ContentTranscript := "hello" |}] |}] |})
         "2024-01-01 12:00:01"]
    = Returns (c', fs', audioFiles') /\
    fs_files fs' !! "audio_output/audio_20240101_120000.wav" = None /\
    fs_files fs' !! "audio_output/audio_20240101_120000.txt"
    = Some (list_byte_of_string
              (transcript_text "audio_output/audio_20240101_120000.wav"
                 "hello" "2024-01-01 12:00:01")).
Proof.
  cbv zeta.
  destruct (transcript_written_without_audio
              (NewChatClient (dial (fun _ => None)) DefaultConfig)
              (healthy_fs ∅) ∅ "r1" "i1" "20240101_120000"
              "2024-01-01 12:00:01" "hello")
    as (c' & fs' & audioFiles' & Hrun & _ & Hwav & Htxt & _);
    [reflexivity | reflexivity | discriminate | reflexivity | reflexivity |].
  exists c', fs', audioFiles'. split; [exact Hrun|].
  split; [etransitivity; [exact Hwav | reflexivity] | exact Htxt].
Defined.

(** X16. A transcript is written only for a stream whose audio path is
    on record. When no output item of a [response.done] frame has a
    recorded path (no [response.audio.done] came for it, or its
    transcript was written already), the frame writes nothing and the
    record is as before. *)
Theorem transcript_without_audio_not_written fs audioFiles
    (respDone : CompleteResponse) (timestamp : string) :
  (forall output, output ∈ Output respDone ->
     audioFiles !! audioKeyOf (ResponseIDOf respDone) (OutputID output) = None) ->
  saveTranscripts fs audioFiles respDone timestamp = (fs, audioFiles).
Proof.
  unfold saveTranscripts. generalize (ResponseIDOf respDone) as rid.
  intros rid. induction (Output respDone) as [|output rest IH]; intros Hnone;
    [reflexivity|].
  cbn [foldl].
  assert (Hin : foldl (fun st content =>
             let '(fs, audioFiles) := st in
             if String.eqb (ContentType content) "audio"
                && negb (is_empty (ContentTranscript content))
             then
               match audioFiles !! audioKeyOf rid (OutputID output) with
               | Some audioPath =>
                   let '(_, fs) :=
                     saveTranscript fs audioPath (ContentTranscript content)
                       timestamp in
                   (fs, delete (audioKeyOf rid (OutputID output)) audioFiles)
               | None => (fs, audioFiles)
               end
             else (fs, audioFiles)) (fs, audioFiles) (Content output)
           = (fs, audioFiles)).
  { induction (Content output) as [|content contents IHc]; [reflexivity|].
    cbn [foldl]. rewrite (Hnone output) by (apply list_elem_of_here).
    destruct (_ && _); exact IHc. }
  rewrite Hin. apply IH. intros output' Hel. apply Hnone.
  now apply list_elem_of_further.
Qed.

Lemma transcript_without_audio_not_written_witness :
  let respDone :=
    {| ResponseIDOf := "r1";
       Output := [{| OutputID := "i1";
                     Content := [{| ContentType := "audio";
                                    ContentTranscript := "hello" |}] |}] |} in
  saveTranscripts (healthy_fs ∅) {[ "r1_i2" := "audio_output/a.wav" ]}
    respDone "2024-01-01 12:00:01"
  = (healthy_fs ∅, {[ "r1_i2" := "audio_output/a.wav" ]}).
Proof.
  cbv zeta. apply transcript_without_audio_not_written.
  intros output Hel. cbn [Output] in Hel.
  apply list_elem_of_singleton in Hel as ->. vm_compute. reflexivity.
Defined.

End Session.

(* ================================================================= *)
(** ** More on the upload                                             *)
(* ================================================================= *)

Section ReadFailure.

Variable size : nat.
Hypothesis size_pos : (0 < size)%nat.

Implicit Types (c : ChatClient) (file : InFile).

Lemma is_EOF_other (e : error) : e <> EOF -> is_EOF (Some e) = false.
Proof. now destruct e. Qed.

(** The loop with the [j]-th read from here the first to fail: the
    chunks read before it are sent, then the read error is returned;
    no commit is written. *)
Lemma sendAudioChunks_read_fault (j : nat) :
  forall (fuel : nat) c file (chunkCount bytesSent : Z) (e : error),
    (forall k, (k < j)%nat -> in_fault file (in_ops file + k) = None) ->
    in_fault file (in_ops file + j) = Some e ->
    e <> EOF ->
    (j <= length (chunks_of size (remaining file)))%nat ->
    (j < fuel)%nat ->
    sendAudioChunks fuel c file size chunkCount bytesSent
    = Some (match write_each_once c
                    (take j (append_events chunkCount
                               (chunks_of size (remaining file)))) with
            | (Some err, c') => (Some err, c')
            | (None, c') => (Some (ErrWrap "read audio file" e), c')
            end).
Proof.
  induction j as [|j IH];
    intros fuel c file chunkCount bytesSent e Hbefore Hfault He Hj Hfuel;
    (destruct fuel as [|fuel]; [lia|]); cbn [sendAudioChunks]; unfold file_Read.
  - rewrite Nat.add_0_r in Hfault. rewrite Hfault.
    rewrite (is_EOF_other e He). reflexivity.
  - pose proof (Hbefore 0%nat ltac:(lia)) as H0.
    rewrite Nat.add_0_r in H0. rewrite H0.
    unfold remaining in *.
    destruct (drop (in_pos file) (in_data file)) as [|b avail] eqn:Hrem;
      [cbn in Hj; lia|].
    set (l := b :: avail) in *.
    assert (Hne : l <> []) by discriminate.
    assert (Hp : take size l <> []).
    { unfold l. destruct size; [lia|discriminate]. }
    clearbody l.
    rewrite (chunks_of_cons size size_pos l Hne) in Hj |- *.
    cbn [is_EOF length append_events take write_each_once].
    destruct (Nat.ltb_spec 0 (length (take size l))) as [_|Hz];
      [|destruct (take size l); [done | cbn in Hz; lia]].
    destruct (logAndWrite c (appendEvent (chunkCount + 1) (take size l)))
      as [[werr|] c'] eqn:Hw; [reflexivity|].
    assert (Hd : drop (length (take size l)) l = drop size l).
    { rewrite length_take. destruct (le_lt_dec size (length l)).
      - now rewrite Nat.min_l by lia.
      - rewrite Nat.min_r by lia. now rewrite !drop_ge by lia. }
    rewrite (IH fuel c' _ _ _ e); cbn [in_tick in_pos in_data in_ops in_fault].
    + rewrite <- drop_drop, Hrem, Hd. reflexivity.
    + intros k Hk. rewrite <- (Hbefore (S k)) by lia. f_equal. lia.
    + rewrite <- Hfault. f_equal. lia.
    + exact He.
    + rewrite <- drop_drop, Hrem, Hd. cbn [length] in Hj. lia.
    + lia.
Qed.

Lemma chunks_of_count (l : list byte) :
  (length (chunks_of size l) <= length l)%nat.
Proof.
  pose proof (chunks_of_length size size_pos l) as H.
  apply Nat2Z.inj_le. rewrite H.
  apply Z.lt_succ_r, Z.div_lt_upper_bound; nia.
Qed.

End ReadFailure.

Section UploadEdges.

Implicit Types (c : ChatClient) (fs : FileSystem) (file : InFile).

(** The verdict on a file that reads without fault depends on its
    bytes only. *)
Lemma validateWAVFormat_fault_free file :
  in_pos file = 0%nat ->
  in_fault file (in_ops file) = None ->
  in_fault file (S (in_ops file)) = None ->
  fst (validateWAVFormat file) = fst (validateWAVFormat (opened (in_data file))).
Proof.
  intros Hpos Hf0 Hf1. unfold validateWAVFormat, file_ReadFull, file_Seek, opened.
  cbn [in_fault in_ops in_pos in_data]. rewrite Hpos, Hf0.
  destruct (headerSize <=? length (drop 0 (in_data file)))%nat;
    cbn [in_tick in_fault in_ops]; [|reflexivity].
  now rewrite Hf1.
Qed.

(** X17. A file that cannot be opened, and a file whose header
    [validateWAVFormat] rejects (too short, wrong tags, wrong format,
    bit depth, channels or rate), is refused before anything is
    logged or written to the connection: the client is as before and
    the error names the cause. *)
Theorem upload_refused_without_traffic :
  (forall c fs (path : string),
      fs_files fs !! path = None ->
      sendAudioMessage c fs path
      = Some (Some (ErrWrap "open audio file"
                      (ErrNew ("open " +:+ path
                               +:+ ": no such file or directory"))), c))
  /\
  (forall c fs (path : string) (data : list byte) (e : error),
      fs_files fs !! path = Some data ->
      (forall k, (k < 3)%nat -> fs_read_fault fs path k = None) ->
      fst (validateWAVFormat (opened data)) = Some e ->
      sendAudioMessage c fs path
      = Some (Some (ErrWrap "invalid audio format" e), c)).
Proof.
  split.
  - intros c fs path Hnone. unfold sendAudioMessage, os_Open. now rewrite Hnone.
  - intros c fs path data e Hfile Hfault Hbad.
    unfold sendAudioMessage, os_Open. rewrite Hfile.
    unfold file_Stat. cbn [in_fault in_ops]. rewrite (Hfault 0%nat) by lia.
    cbn [in_tick in_pos].
    match goal with
    | |- context [validateWAVFormat ?f] =>
        pose proof (validateWAVFormat_fault_free f) as Hv;
        destruct (validateWAVFormat f) as [verdict file2]
    end.
    cbn [in_tick in_pos in_fault in_ops in_data fst] in Hv.
    rewrite Hv, Hbad by (reflexivity || (apply Hfault; lia)).
    reflexivity.
Qed.

Lemma upload_refused_without_traffic_witness :
  let c := NewChatClient (dial (fun _ => None)) DefaultConfig in
  let stereo := overwrite 22 (le16 2) (wav_header 4 ++ [x01; x02; x03; x04]) in
  let fs := healthy_fs {[ "stereo.wav" := stereo; "short.wav" := [x52; x49] ]} in
  sendAudioMessage c fs "missing.wav"
  = Some (Some (ErrWrap "open audio file"
                  (ErrNew "open missing.wav: no such file or directory")), c)
  /\ sendAudioMessage c fs "stereo.wav"
     = Some (Some (ErrWrap "invalid audio format"
                     (ErrNew "audio must be mono (got 2 channels)")), c)
  /\ sendAudioMessage c fs "short.wav"
     = Some (Some (ErrWrap "invalid audio format"
                     (ErrWrap "read WAV header" ErrUnexpectedEOF)), c).
Proof.
  cbv zeta. destruct upload_refused_without_traffic as [Hopen Hformat].
  split; [|split].
  - apply Hopen. vm_compute. reflexivity.
  - apply (Hformat _ _ _ (overwrite 22 (le16 2) (wav_header 4 ++ [x01; x02; x03; x04]))).
    + vm_compute. reflexivity.
    + reflexivity.
    + vm_compute. reflexivity.
  - apply (Hformat _ _ _ [x52; x49]).
    + vm_compute. reflexivity.
    + reflexivity.
    + vm_compute. reflexivity.
Defined.

(** X18. A recording without samples is still committed. For a file
    that passes validation and holds nothing beyond byte 44 (the
    header alone, or less: 36 bytes are enough to pass), over a
    connection that accepts every write, the upload sends the item
    event, no append event, the event of type
    [input_audio_buffer.commit] with the identifier [evt_commit_0] and
    the response request, and returns [nil]. *)
Theorem upload_of_empty_recording c fs (path : string) (data : list byte) :
  fs_files fs !! path = Some data ->
  (forall k, fs_read_fault fs path k = None) ->
  fst (validateWAVFormat (opened data)) = None ->
  (length data <= 44)%nat ->
  (forall k, conn_fault (Conn c) (conn_attempts (Conn c) + k) = None) ->
  exists c',
    sendAudioMessage c fs path = Some (None, c') /\
    conn_sent (Conn c')
    = conn_sent (Conn c)
      ++ [ConversationItem "conversation.item.create" "message" "user"
            [{| ContentItemType := "input_audio"; Text := "";
                AudioRef := "audio_0" |}];
          AudioCommit "input_audio_buffer.commit" "evt_commit_0";
          ResponseCreate "response.create"].
Proof.
  intros Hfile Hread Hvalid Hlen Hconn.
  rewrite (sendAudioMessage_spec c fs path data Hfile Hread Hvalid).
  rewrite drop_ge by exact Hlen.
  destruct (write_each_once_ok (upload_events []) c)
    as (c' & Hw & Hsent & _); [intros k _; apply Hconn|].
  exists c'. rewrite Hw. split; [reflexivity | exact Hsent].
Qed.

Lemma upload_of_empty_recording_witness :
  let fs := healthy_fs {[ "empty.wav" := take 36 (wav_header 0) ]} in
  let c := NewChatClient (dial (fun _ => None)) DefaultConfig in
  exists c',
    sendAudioMessage c fs "empty.wav" = Some (None, c') /\
    conn_sent (Conn c')
    = [ConversationItem "conversation.item.create" "message" "user"
         [{| ContentItemType := "input_audio"; Text := "";
             AudioRef := "audio_0" |}];
       AudioCommit "input_audio_buffer.commit" "evt_commit_0";
       ResponseCreate "response.create"].
Proof.
  cbv zeta.
  destruct (upload_of_empty_recording
              (NewChatClient (dial (fun _ => None)) DefaultConfig)
              (healthy_fs {[ "empty.wav" := take 36 (wav_header 0) ]})
              "empty.wav" (take 36 (wav_header 0)))
    as (c' & Hrun & Hsent).
  - vm_compute. reflexivity.
  - reflexivity.
  - vm_compute. reflexivity.
  - cbn. lia.
  - reflexivity.
  - exists c'. split; [exact Hrun | exact Hsent].
Defined.

(** X19. A read that fails in the middle of an upload ends it at once.
    On a file that passes validation, over a connection that accepts
    every write, with the [j]-th [Read] of the samples the first
    operation on the file to fail (with an error other than
    [io.EOF]): the item event and the chunks read before the failure
    have been sent, each once; neither the commit nor the response
    request is written, and the error is reported as a read error. *)
Theorem upload_stops_at_read_failure c fs (path : string) (data : list byte)
    (j : nat) (e : error) :
  fs_files fs !! path = Some data ->
  fst (validateWAVFormat (opened data)) = None ->
  (forall k, (k < 4 + j)%nat -> fs_read_fault fs path k = None) ->
  fs_read_fault fs path (4 + j)%nat = Some e ->
  e <> EOF ->
  (j <= length (chunks_of chunkBytes (drop 44 data)))%nat ->
  (forall k, conn_fault (Conn c) (conn_attempts (Conn c) + k) = None) ->
  exists c',
    sendAudioMessage c fs path
    = Some (Some (ErrWrap "read audio file" e), c') /\
    conn_sent (Conn c')
    = conn_sent (Conn c) ++ [audioItem]
      ++ take j (append_events 0 (chunks_of chunkBytes (drop 44 data))) /\
    conn_attempts (Conn c') = (conn_attempts (Conn c) + 1 + j)%nat.
Proof.
  intros Hfile Hvalid Hbefore Hfault He Hj Hconn.
  assert (Hlen : (36 <= length data)%nat).
  { destruct (le_lt_dec 36 (length data)) as [|Hlt]; [assumption|].
    exfalso. revert Hvalid.
    unfold validateWAVFormat, file_ReadFull, opened, headerSize.
    cbn [in_fault in_ops in_pos in_data]. rewrite drop_0.
    destruct (Nat.leb_spec 36 (length data)); [lia | discriminate]. }
  rewrite validate_opened in Hvalid by exact Hlen.
  unfold sendAudioMessage, os_Open. rewrite Hfile.
  unfold file_Stat. cbn [in_fault in_ops]. rewrite (Hbefore 0%nat) by lia.
  unfold validateWAVFormat, file_ReadFull, headerSize.
  cbn [in_tick in_fault in_ops in_pos in_data].
  rewrite (Hbefore 1%nat), drop_0 by lia.
  destruct (Nat.leb_spec 36 (length data)) as [_|]; [|lia].
  unfold file_Seek. cbn [in_tick in_fault in_ops in_pos in_data].
  rewrite (Hbefore 2%nat), Hvalid by lia.
  cbn [in_tick in_fault in_ops in_pos in_data].
  rewrite (Hbefore 3%nat) by lia.
  destruct (logAndWrite_ok c audioItem) as (c1 & Hw1 & Hsent1 & Hatt1 & Hkeep1).
  { rewrite <- (Hconn 0%nat). f_equal. lia. }
  rewrite Hw1.
  set (pieces := chunks_of chunkBytes (drop 44 data)) in *.
  rewrite (sendAudioChunks_read_fault chunkBytes chunkBytes_pos j _ c1 _ 0 0 e);
    unfold remaining; cbn [in_tick in_pos in_data in_ops in_fault]; fold pieces.
  - destruct (write_each_once_ok (take j (append_events 0 pieces)) c1)
      as (c2 & Hw2 & Hsent2 & Hatt2 & _).
    { intros k _. destruct Hkeep1 as (Hcf & _). rewrite Hcf, Hatt1.
      rewrite <- (Hconn (S k)). f_equal. lia. }
    rewrite Hw2. exists c2. split; [reflexivity|].
    rewrite Hsent2, Hsent1, Hatt2, Hatt1, <- app_assoc.
    split; [reflexivity|].
    rewrite length_take, append_events_length. lia.
  - intros k Hk. apply Hbefore. lia.
  - exact Hfault.
  - exact He.
  - exact Hj.
  - pose proof (chunks_of_count chunkBytes chunkBytes_pos (drop 44 data)) as Hc.
    fold pieces in Hc. rewrite length_drop in Hc. lia.
Qed.

Lemma upload_stops_at_read_failure_witness :
  let raw := repeat x07 (Z.to_nat 40000) in
  let data := wav_header 40000 ++ raw in
  let io_error := ErrNew "read in.wav: input/output error" in
  let fs := {| fs_files := {[ "in.wav" := data ]};
               fs_create_fault := fun _ => None;
               fs_write_fault := fun _ _ => None;
               fs_read_fault := fun _ => fails_at 6 io_error |} in
  let c := NewChatClient (dial (fun _ => None)) DefaultConfig in
  exists c',
    sendAudioMessage c fs "in.wav"
    = Some (Some (ErrWrap "read audio file" io_error), c') /\
    conn_attempts (Conn c') = 3%nat /\
    length (conn_sent (Conn c')) = 3%nat.
Proof.
  cbv zeta.
  set (raw := repeat x07 (Z.to_nat 40000)).
  set (io_error := ErrNew "read in.wav: input/output error").
  assert (Hpieces : length (chunks_of chunkBytes (drop 44 (wav_header 40000 ++ raw)))
                    = 3%nat).
  { rewrite (drop_app_length' (wav_header 40000) raw 44 (length_wav_header 40000)).
    apply Nat2Z.inj.
    rewrite (chunks_of_length chunkBytes chunkBytes_pos), chunkBytes_value.
    unfold raw. rewrite repeat_length, Z2Nat.id by lia. reflexivity. }
  destruct (upload_stops_at_read_failure
              (NewChatClient (dial (fun _ => None)) DefaultConfig)
              {| fs_files := {[ "in.wav" := wav_header 40000 ++ raw ]};
                 fs_create_fault := fun _ => None;
                 fs_write_fault := fun _ _ => None;
                 fs_read_fault := fun _ => fails_at 6 io_error |}
              "in.wav" (wav_header 40000 ++ raw) 2 io_error)
    as (c' & Hsend & Hsent & Hatt).
  - apply lookup_singleton_eq.
  - apply validate_wav_header.
  - intros k Hk. cbn. unfold fails_at.
    destruct (Nat.eqb_spec k 6); [lia | reflexivity].
  - reflexivity.
  - discriminate.
  - rewrite Hpieces. lia.
  - reflexivity.
  - exists c'. split; [exact Hsend|]. split; [exact Hatt|].
    rewrite Hsent, !length_app, length_take, append_events_length, Hpieces.
    reflexivity.
Defined.

End UploadEdges.

(* ================================================================= *)
(** ** The retry policy of the text client                            *)
(* ================================================================= *)

Section Retry.

Implicit Types (c : ChatClient) (msg : WireMsg).

Lemma iter_RecordError_succ (k : nat) (m : audiotypes.Metrics) :
  Nat.iter k RecordError (RecordError m) = Nat.iter (S k) RecordError m.
Proof. symmetry. apply Nat.iter_succ_r. Qed.

Lemma backoff_shift (i : Z) (k : nat) :
  (i + 1) :: map (fun j => i + 1 + Z.of_nat j) (seq 1 k)
  = map (fun j => i + Z.of_nat j) (seq 1 (S k)).
Proof.
  cbn [seq map]. f_equal; try lia.
  rewrite <- (seq_shift k 1), map_map. apply map_ext. intros j. lia.
Qed.

(** The loop with [k] failing attempts before one that succeeds. *)
Lemma retryLoop_succeeds (k : nat) :
  forall (n : nat) (i : Z) c msg (lastErr : option error),
    (k < n)%nat ->
    (forall j, (j < k)%nat ->
               conn_fault (Conn c) (conn_attempts (Conn c) + j) <> None) ->
    conn_fault (Conn c) (conn_attempts (Conn c) + k) = None ->
    exists c',
      retryLoop n i c msg lastErr = (None, c') /\
      conn_sent (Conn c') = conn_sent (Conn c) ++ [msg] /\
      conn_attempts (Conn c') = (conn_attempts (Conn c) + k + 1)%nat /\
      conn_deadlines (Conn c') = (conn_deadlines (Conn c) + k + 1)%nat /\
      Sleeps c' = Sleeps c ++ map (fun j => i + Z.of_nat j) (seq 1 k) /\
      Metrics c' = RecordSent (Nat.iter k RecordError (Metrics c)).
Proof.
  induction k as [|k IH]; intros n i c msg lastErr Hn Hbefore Hok;
    (destruct n as [|n]; [lia|]); cbn [retryLoop]; unfold WriteJSON;
    cbn [Conn with_Conn SetWriteDeadline conn_fault conn_attempts].
  - rewrite Nat.add_0_r in Hok. rewrite Hok. eexists. split; [reflexivity|].
    cbn. rewrite app_nil_r. repeat split; lia.
  - pose proof (Hbefore 0%nat ltac:(lia)) as H0. rewrite Nat.add_0_r in H0.
    destruct (conn_fault (Conn c) (conn_attempts (Conn c))) as [err|] eqn:Hf;
      [clear H0|congruence].
    edestruct (IH n (i + 1)) as (c' & Hrun & Hsent & Hatt & Hdl & Hsl & Hm);
      [| | |rewrite Hrun; exists c'; split; [reflexivity|]].
    + lia.
    + cbn. intros j Hj.
      match goal with
      | |- conn_fault _ ?x <> None =>
          replace x with (conn_attempts (Conn c) + S j)%nat by lia
      end.
      apply Hbefore. lia.
    + cbn.
      match goal with
      | |- conn_fault _ ?x = None =>
          replace x with (conn_attempts (Conn c) + S k)%nat by lia
      end.
      exact Hok.
    + cbn in Hsent, Hatt, Hdl, Hsl, Hm.
      rewrite Hsent, Hatt, Hdl, Hsl, Hm, <- app_assoc.
      cbn [app]. rewrite backoff_shift, iter_RecordError_succ.
      repeat split; lia.
Qed.

(** X20. [sendWithRetry] delivers a message exactly once when fewer
    than [MaxRetries] attempts fail. With the first [k] attempts
    failing and the next one succeeding, [k] below [MaxRetries]: it
    returns [nil], the message is written once, the write deadline
    was set before each of the [k + 1] attempts, the waits after the
    failures were of 1, 2, ..., [k] seconds (they grow linearly), and
    [k] errors and one message sent are counted. *)
Theorem sendWithRetry_succeeds_after c msg (k : nat) :
  Z.of_nat k < MaxRetries (Config c) ->
  (forall j, (j < k)%nat ->
             conn_fault (Conn c) (conn_attempts (Conn c) + j) <> None) ->
  conn_fault (Conn c) (conn_attempts (Conn c) + k) = None ->
  exists c',
    sendWithRetry c msg = (None, c') /\
    conn_sent (Conn c') = conn_sent (Conn c) ++ [msg] /\
    conn_attempts (Conn c') = (conn_attempts (Conn c) + k + 1)%nat /\
    conn_deadlines (Conn c') = (conn_deadlines (Conn c) + k + 1)%nat /\
    Sleeps c' = Sleeps c ++ backoff k /\
    Metrics c' = RecordSent (Nat.iter k RecordError (Metrics c)).
Proof.
  intros Hk Hbefore Hok. unfold sendWithRetry.
  destruct (retryLoop_succeeds k (Z.to_nat (MaxRetries (Config c))) 0 c msg None)
    as (c' & Hrun & Hsent & Hatt & Hdl & Hsl & Hm); [lia | assumption..|].
  exists c'. repeat split; assumption.
Qed.

Lemma sendWithRetry_succeeds_after_witness :
  let busy := ErrNew "write: resource temporarily unavailable" in
  let c := NewChatClient (dial (fails_before 2 busy)) DefaultConfig in
  let msg := ResponseCreate "response.create" in
  exists c',
    sendWithRetry c msg = (None, c') /\
    conn_sent (Conn c') = [msg] /\
    conn_attempts (Conn c') = 3%nat /\
    conn_deadlines (Conn c') = 3%nat /\
    Sleeps c' = [1; 2] /\
    Errors (Metrics c') = 2 /\ MessagesSent (Metrics c') = 1.
Proof.
  cbv zeta.
  destruct (sendWithRetry_succeeds_after
              (NewChatClient
                 (dial (fails_before 2
                          (ErrNew "write: resource temporarily unavailable")))
                 DefaultConfig)
              (ResponseCreate "response.create") 2)
    as (c' & Hrun & Hsent & Hatt & Hdl & Hsl & Hm).
  - cbn. lia.
  - intros j Hj. cbn. unfold fails_before.
    destruct (Nat.ltb_spec j 2); [discriminate | lia].
  - reflexivity.
  - exists c'. split; [exact Hrun|]. split; [exact Hsent|].
    split; [exact Hatt|]. split; [exact Hdl|]. split; [exact Hsl|].
    rewrite Hm. split; reflexivity.
Defined.

(** The loop when every attempt left fails. *)
Lemma retryLoop_gives_up (n : nat) :
  forall (i : Z) c msg (lastErr : option error),
    (forall j, (j < n)%nat ->
               conn_fault (Conn c) (conn_attempts (Conn c) + j) <> None) ->
    exists c',
      retryLoop n i c msg lastErr
      = (Some (ErrNew ("failed after " +:+ itoa (MaxRetries (Config c))
                       +:+ " retries: "
                       +:+ verb_v (match n with
                                   | O => lastErr
                                   | S n' => conn_fault (Conn c)
                                               (conn_attempts (Conn c) + n')
                                   end))), c') /\
      conn_sent (Conn c') = conn_sent (Conn c) /\
      conn_attempts (Conn c') = (conn_attempts (Conn c) + n)%nat /\
      conn_deadlines (Conn c') = (conn_deadlines (Conn c) + n)%nat /\
      Sleeps c' = Sleeps c ++ map (fun j => i + Z.of_nat j) (seq 1 n) /\
      Metrics c' = Nat.iter n RecordError (Metrics c).
Proof.
  induction n as [|n IH]; intros i c msg lastErr Hall; cbn [retryLoop].
  - exists c. split; [reflexivity|]. cbn. rewrite app_nil_r. repeat split; lia.
  - unfold WriteJSON.
    cbn [Conn with_Conn SetWriteDeadline conn_fault conn_attempts].
    pose proof (Hall 0%nat ltac:(lia)) as H0. rewrite Nat.add_0_r in H0.
    destruct (conn_fault (Conn c) (conn_attempts (Conn c))) as [err|] eqn:Hf;
      [clear H0|congruence].
    edestruct (IH (i + 1)) as (c' & Hrun & Hsent & Hatt & Hdl & Hsl & Hm);
      [|rewrite Hrun; exists c'; split; [|]].
    + cbn. intros j Hj.
      match goal with
      | |- conn_fault _ ?x <> None =>
          replace x with (conn_attempts (Conn c) + S j)%nat by lia
      end.
      apply Hall. lia.
    + cbn. do 6 f_equal. destruct n as [|n]; cbn.
      * now rewrite Nat.add_0_r, Hf.
      * do 2 f_equal. lia.
    + cbn in Hsent, Hatt, Hdl, Hsl, Hm.
      rewrite Hsent, Hatt, Hdl, Hsl, Hm, <- app_assoc.
      cbn [app]. rewrite backoff_shift, iter_RecordError_succ.
      repeat split; lia.
Qed.

(** X21. [sendWithRetry] gives up after [MaxRetries] failed attempts,
    and waits after the last one as after the others. When every
    attempt fails, the message is not written, exactly [MaxRetries]
    attempts were made, the waits were of 1, ..., [MaxRetries]
    seconds, and the error is "failed after N retries: " followed by
    the text of the last error. With [MaxRetries] zero or negative no
    attempt is made at all and the text ends in "<nil>". *)
Theorem sendWithRetry_gives_up c msg :
  let n := Z.to_nat (MaxRetries (Config c)) in
  (forall j, (j < n)%nat ->
             conn_fault (Conn c) (conn_attempts (Conn c) + j) <> None) ->
  exists c',
    sendWithRetry c msg
    = (Some (ErrNew ("failed after " +:+ itoa (MaxRetries (Config c))
                     +:+ " retries: "
                     +:+ verb_v (match n with
                                 | O => None
                                 | S n' => conn_fault (Conn c)
                                             (conn_attempts (Conn c) + n')
                                 end))), c') /\
    conn_sent (Conn c') = conn_sent (Conn c) /\
    conn_attempts (Conn c') = (conn_attempts (Conn c) + n)%nat /\
    conn_deadlines (Conn c') = (conn_deadlines (Conn c) + n)%nat /\
    Sleeps c' = Sleeps c ++ backoff n /\
    Metrics c' = Nat.iter n RecordError (Metrics c).
Proof.
  intros n Hall. unfold sendWithRetry. fold n.
  destruct (retryLoop_gives_up n 0 c msg None Hall)
    as (c' & Hrun & Hsent & Hatt & Hdl & Hsl & Hm).
  exists c'. repeat split; assumption.
Qed.

Lemma sendWithRetry_gives_up_witness :
  let reset := ErrNew "write: connection reset by peer" in
  let c := NewChatClient (dial (fun _ => Some reset)) DefaultConfig in
  let impatient :=
    NewChatClient (dial (fun _ => None))
      {| ReadTimeout := 180; WriteTimeout := 60; PingInterval := 20;
         MaxRetries := 0; BufferSize := 100; ShutdownTimeout := 5;
         AudioOutputDir := "audio_output" |} in
  let msg := ResponseCreate "response.create" in
  (exists c',
      sendWithRetry c msg
      = (Some (ErrNew "failed after 3 retries: write: connection reset by peer"),
         c') /\
      conn_sent (Conn c') = [] /\ conn_attempts (Conn c') = 3%nat /\
      Sleeps c' = [1; 2; 3] /\ Errors (Metrics c') = 3)
  /\ sendWithRetry impatient msg
     = (Some (ErrNew "failed after 0 retries: <nil>"), impatient).
Proof.
  cbv zeta. split.
  - destruct (sendWithRetry_gives_up
                (NewChatClient
                   (dial (fun _ => Some (ErrNew "write: connection reset by peer")))
                   DefaultConfig)
                (ResponseCreate "response.create"))
      as (c' & Hrun & Hsent & Hatt & _ & Hsl & Hm); [discriminate|].
    exists c'. split; [exact Hrun|]. split; [exact Hsent|].
    split; [exact Hatt|]. split; [exact Hsl|]. rewrite Hm. reflexivity.
  - vm_compute. reflexivity.
Defined.

End Retry.

(* ================================================================= *)
(** ** More on the lifecycle                                          *)
(* ================================================================= *)

Section LifecycleEdges.

Implicit Types (c : ChatClient).

Lemma with_WG_same c : with_WG c (WG c) = c.
Proof. now destruct c. Qed.

(** Tasks reporting while others are still running: the goroutine of
    [shutdown] stays blocked and only the counter moves. *)
Lemma iter_WG_Done_below (k : nat) :
  forall c, Closer c = CloserWaiting -> (k < WG c)%nat ->
            Nat.iter k WG_Done c = with_WG c (WG c - k).
Proof.
  induction k as [|k IH]; intros c Hw Hk.
  - cbn [Nat.iter]. now rewrite Nat.sub_0_r, with_WG_same.
  - rewrite Nat.iter_succ, IH by (assumption || lia).
    unfold WG_Done, closer_waiting. cbv zeta. cbn [with_WG WG Closer].
    destruct (Nat.eqb_spec (Nat.pred (WG c - k)) 0) as [Hz|_]; [lia|].
    cbn [andb]. unfold with_WG. cbn. f_equal. lia.
Qed.

(** The last task reporting lets the goroutine go on. *)
Lemma iter_WG_Done_all c :
  Closer c = CloserWaiting -> (0 < WG c)%nat ->
  Nat.iter (WG c) WG_Done c = closer_finish (with_WG c 0).
Proof.
  intros Hw Hpos. destruct (WG c) as [|k] eqn:Hwg; [lia|].
  rewrite Nat.iter_succ, iter_WG_Done_below by (assumption || lia).
  unfold WG_Done, closer_waiting. cbv zeta. cbn [with_WG WG Closer].
  rewrite Hwg, Hw.
  replace (Nat.pred (S k - k)) with 0%nat by lia. reflexivity.
Qed.

(** X22. How a call of [shutdown] from outside the tasks ends. On a
    client that has not been shut down, the call reports success
    exactly when every task reports while it waits and the timeout
    does not fire first; the channels are closed during the call
    exactly when every task reports during it. When some task is
    still running the call ends by the timeout with the channels
    open, the goroutine it started still waiting. *)
Theorem shutdown_verdict c (exited : nat) (timer_first : bool) :
  running c ->
  let c' := shutdown c exited timer_first in
  ((WG c <= exited)%nat ->
     Events c'
     = start_events ++ finish_events
       ++ [if timer_first then EvShutdownTimedOut else EvShutdownCompleted]
     /\ channels_closed c' /\ WG c' = 0%nat) /\
  ((exited < WG c)%nat ->
     Events c' = start_events ++ [EvShutdownTimedOut]
     /\ Closer c' = CloserWaiting
     /\ AudioChannelClosed c' = AudioChannelClosed c
     /\ MessageChannelClosed c' = MessageChannelClosed c
     /\ DisplayChannelClosed c' = DisplayChannelClosed c
     /\ WG c' = (WG c - exited)%nat).
Proof.
  intros (Ho & Hc & He). cbv zeta. unfold shutdown. rewrite Ho.
  set (c1 := closer_start (close_Done c)).
  assert (Hw1 : Closer c1 = CloserWaiting) by reflexivity.
  assert (Hwg1 : WG c1 = WG c) by reflexivity.
  assert (Hev1 : Events c1 = start_events) by (cbn; now rewrite He).
  split.
  - intros Hall. destruct (Nat.eqb_spec (WG c1) 0) as [Hz|Hnz].
    + unfold closer_finished. cbn [closer_finish Closer andb].
      destruct timer_first; cbn [negb set_ShutdownOnce Events closer_finish
        MessageChannelClosed DisplayChannelClosed AudioChannelClosed WG];
        rewrite Hev1, <- app_assoc; (split; [reflexivity|]);
        (split; [now repeat split | exact Hz]).
    + rewrite Nat.min_r by lia. rewrite iter_WG_Done_all by (assumption || lia).
      unfold closer_finished. cbn [closer_finish Closer andb].
      destruct timer_first; cbn [negb set_ShutdownOnce Events closer_finish
        MessageChannelClosed DisplayChannelClosed AudioChannelClosed WG with_WG];
        rewrite Hev1, <- app_assoc; (split; [reflexivity|]);
        (split; [now repeat split | reflexivity]).
  - intros Hsome. destruct (Nat.eqb_spec (WG c1) 0) as [Hz|Hnz]; [lia|].
    rewrite Nat.min_l by lia. rewrite iter_WG_Done_below by (assumption || lia).
    unfold closer_finished. cbn [with_WG Closer]. rewrite Hw1. cbn [andb].
    cbn [set_ShutdownOnce Events with_WG Closer AudioChannelClosed
         MessageChannelClosed DisplayChannelClosed WG].
    rewrite Hev1, Hw1, Hwg1. now repeat split.
Qed.

Lemma shutdown_verdict_witness :
  let c := NewChatClient (dial (fun _ => None)) DefaultConfig in
  running c /\
  Events (shutdown c 1 false)
  = start_events ++ finish_events ++ [EvShutdownCompleted] /\
  Events (shutdown c 0 false) = start_events ++ [EvShutdownTimedOut] /\
  AudioChannelClosed (shutdown c 0 false) = false.
Proof.
  cbv zeta.
  assert (Hrun : running (NewChatClient (dial (fun _ => None)) DefaultConfig))
    by (now repeat split).
  split; [exact Hrun|].
  destruct (shutdown_verdict _ 1%nat false Hrun) as [Hall _].
  destruct (shutdown_verdict _ 0%nat false Hrun) as [_ Hsome].
  destruct Hall as (Hev & _); [cbn; lia|].
  destruct Hsome as (Hev' & _ & Hch & _); [cbn; lia|].
  split; [exact Hev|]. split; [exact Hev' | exact Hch].
Defined.

(** X23. A shutdown started by the receive routine cannot finish in
    time. The routine is one of the tasks [shutdown] waits for and
    reports ([defer c.WG.Done()]) only once [shutdown] has returned:
    after an unexpected close error the call always ends by the
    timeout, whatever the other tasks do and even if the timer is
    not first, and the channels are closed only afterwards, by the
    routine's own report, if all the other tasks have reported. The
    error is counted once. *)
Theorem receiveRoutine_shutdown_times_out c fs (rest : list Received)
    (exited : nat) (timer_first : bool) (code : Z) :
  running c -> Done c = false -> AudioChannelClosed c = false ->
  (0 < WG c)%nat ->
  code <> CloseNormalClosure -> code <> CloseGoingAway ->
  exists c',
    receiveRoutine (ReadFailed (CloseError code) exited timer_first :: rest) c fs
    = Returns (Exited, c', fs) /\
    Events c'
    = start_events ++ [EvShutdownTimedOut]
      ++ (if (Nat.pred (WG c) <=? exited)%nat then finish_events else []) /\
    (AudioChannelClosed c' = true <-> (Nat.pred (WG c) <= exited)%nat) /\
    Metrics c' = RecordError (Metrics c).
Proof.
  intros (Ho & Hc & He) Hdone Hopen Hwg Hn Hg.
  unfold receiveRoutine. cbn [receiveLoop]. rewrite Hdone.
  unfold onReadError, IsCloseError, isTimeout, IsUnexpectedCloseError.
  cbn [existsb orb negb].
  destruct (Z.eqb_spec code CloseNormalClosure) as [|_]; [contradiction|].
  destruct (Z.eqb_spec code CloseGoingAway) as [|_]; [contradiction|].
  cbn [orb]. unfold shutdown.
  cbn [count_error ShutdownOnce with_Metrics WG]. rewrite Ho.
  set (c1 := closer_start (close_Done (count_error c))).
  assert (Hw1 : Closer c1 = CloserWaiting) by reflexivity.
  assert (Hwg1 : WG c1 = WG c) by reflexivity.
  assert (Hev1 : Events c1 = start_events) by (cbn; now rewrite He).
  assert (Hch1 : AudioChannelClosed c1 = false) by exact Hopen.
  assert (Hm1 : Metrics c1 = RecordError (Metrics c)) by reflexivity.
  clearbody c1.
  destruct (Nat.eqb_spec (WG c1) 0) as [Hz|_]; [lia|].
  set (m := Nat.min (Nat.min exited (Nat.pred (WG c))) (WG c1)).
  assert (Hm : (m < WG c1)%nat) by (unfold m; lia).
  match goal with
  | |- context [Nat.iter ?k WG_Done c1] => change k with m
  end.
  rewrite iter_WG_Done_below by assumption.
  unfold closer_finished. cbn [with_WG Closer]. rewrite Hw1. cbn [andb].
  eexists. split; [reflexivity|].
  unfold WG_Done, closer_waiting. cbv zeta.
  cbn [set_ShutdownOnce with_WG WG Closer]. rewrite Hw1, Hwg1.
  destruct (Nat.leb_spec (Nat.pred (WG c)) exited) as [Hall|Hsome].
  - replace (Nat.pred (WG c - m)) with 0%nat by (unfold m; lia).
    cbn [Nat.eqb andb closer_finish set_ShutdownOnce with_WG Events
         AudioChannelClosed Metrics].
    rewrite Hev1, Hm1, <- !app_assoc. split; [reflexivity|].
    split; [tauto | reflexivity].
  - destruct (Nat.eqb_spec (Nat.pred (WG c - m)) 0) as [Hz|_];
      [unfold m in Hz; lia|].
    cbn [andb set_ShutdownOnce with_WG Events AudioChannelClosed Metrics].
    rewrite Hev1, Hm1, Hch1, app_nil_r. split; [reflexivity|].
    split; [|reflexivity].
    split; [discriminate | lia].
Qed.

Lemma receiveRoutine_shutdown_times_out_witness :
  let c := NewChatClient (dial (fun _ => None)) DefaultConfig in
  let started := with_WG c 2 in
  exists c',
    receiveRoutine [ReadFailed (CloseError 1006) 5 false] started (healthy_fs ∅)
    = Returns (Exited, c', healthy_fs ∅) /\
    Events c' = start_events ++ [EvShutdownTimedOut] ++ finish_events /\
    Errors (Metrics c') = 1.
Proof.
  cbv zeta.
  destruct (receiveRoutine_shutdown_times_out
              (with_WG (NewChatClient (dial (fun _ => None)) DefaultConfig) 2)
              (healthy_fs ∅) [] 5 false 1006)
    as (c' & Hrun & Hev & _ & Hm).
  - now repeat split.
  - reflexivity.
  - reflexivity.
  - cbn. lia.
  - discriminate.
  - discriminate.
  - exists c'. split; [exact Hrun|]. split; [exact Hev|].
    rewrite Hm. reflexivity.
Defined.

End LifecycleEdges.

(* ================================================================= *)
(** ** Trimming white space                                           *)
(* ================================================================= *)

Section Runes.

Variable is1 : ascii -> bool.
Variable is2 : ascii -> ascii -> bool.
Variable is3 : ascii -> ascii -> ascii -> bool.

Lemma strip_unfold (s : list ascii) :
  strip is1 is2 is3 s
  = match strip_one is1 is2 is3 s with
    | Some s' => strip is1 is2 is3 s'
    | None => s
    end.
Proof.
  destruct s as [|b0 [|b1 [|b2 s3]]]; [reflexivity|..].
  - cbn [strip strip_one]. now destruct (is1 b0).
  - destruct (is1 b0) eqn:H1; destruct (is2 b0 b1) eqn:H2;
      cbn [strip strip_one]; rewrite ?H1, ?H2; reflexivity.
  - destruct (is1 b0) eqn:H1; destruct (is2 b0 b1) eqn:H2;
      destruct (is3 b0 b1 b2) eqn:H3;
      cbn [strip strip_one]; rewrite ?H1, ?H2, ?H3; reflexivity.
Qed.

Lemma strip_one_app (s x t : list ascii) :
  strip_one is1 is2 is3 s = Some x ->
  strip_one is1 is2 is3 (s ++ t) = Some (x ++ t).
Proof.
  destruct s as [|b0 [|b1 [|b2 s3]]]; cbn [strip_one app];
    repeat (match goal with |- context [if ?b then _ else _] => destruct b end);
    (discriminate || (intros [= <-]; reflexivity)).
Qed.

(** The rune taken off: its bytes, which are a rune on their own. *)
Lemma strip_one_split (s s' : list ascii) :
  strip_one is1 is2 is3 s = Some s' ->
  exists sp, s = sp ++ s' /\ sp <> [] /\ strip_one is1 is2 is3 sp = Some [].
Proof.
  destruct s as [|b0 [|b1 [|b2 s3]]]; cbn [strip_one]; try discriminate.
  - destruct (is1 b0) eqn:H1; [|discriminate]. intros [= <-].
    exists [b0]. cbn. now rewrite H1.
  - destruct (is1 b0) eqn:H1; [intros [= <-]; exists [b0]; cbn; now rewrite H1|].
    destruct (is2 b0 b1) eqn:H2; [|discriminate]. intros [= <-].
    exists [b0; b1]. cbn. now rewrite H1, H2.
  - destruct (is1 b0) eqn:H1; [intros [= <-]; exists [b0]; cbn; now rewrite H1|].
    destruct (is2 b0 b1) eqn:H2;
      [intros [= <-]; exists [b0; b1]; cbn; now rewrite H1, H2|].
    destruct (is3 b0 b1 b2) eqn:H3; [|discriminate]. intros [= <-].
    exists [b0; b1; b2]. cbn. now rewrite H1, H2, H3.
Qed.

Lemma by_ascii_length (P : list ascii -> Prop) :
  (forall s, (forall s', (length s' < length s)%nat -> P s') -> P s) ->
  forall s, P s.
Proof.
  intros Hind s. remember (length s) as n eqn:Hn.
  revert s Hn. induction n as [n IH] using lt_wf_ind.
  intros s ->. apply Hind. intros s' Hlt. now apply (IH (length s')).
Qed.

Lemma strip_one_shorter (s s' : list ascii) :
  strip_one is1 is2 is3 s = Some s' -> (length s' < length s)%nat.
Proof.
  intros (sp & -> & Hne & _)%strip_one_split. rewrite length_app.
  destruct sp; [done | cbn; lia].
Qed.

(** What is left does not begin with such a rune. *)
Lemma strip_done (s : list ascii) : strip_one is1 is2 is3 (strip is1 is2 is3 s) = None.
Proof.
  induction s as [s IH] using by_ascii_length.
  rewrite strip_unfold. destruct (strip_one is1 is2 is3 s) as [s'|] eqn:Hs; [|exact Hs].
  apply IH. now apply strip_one_shorter.
Qed.

Lemma strip_fixed (s : list ascii) : strip_one is1 is2 is3 s = None -> strip is1 is2 is3 s = s.
Proof. intros H. now rewrite strip_unfold, H. Qed.

Lemma strip_suffix (s : list ascii) : exists pre, s = pre ++ strip is1 is2 is3 s.
Proof.
  induction s as [s IH] using by_ascii_length.
  rewrite strip_unfold. destruct (strip_one is1 is2 is3 s) as [s'|] eqn:Hs; [|now exists []].
  pose proof (strip_one_shorter _ _ Hs) as Hlt.
  apply strip_one_split in Hs as (sp & -> & _ & _).
  destruct (IH s' Hlt) as (pre & Hpre).
  exists (sp ++ pre). now rewrite <- app_assoc, <- Hpre.
Qed.

(** A sequence that is stripped entirely ends with such a rune. *)
Lemma strip_all (s : list ascii) :
  strip is1 is2 is3 s = [] -> s <> [] ->
  exists pre sp, s = pre ++ sp /\ strip_one is1 is2 is3 sp = Some [].
Proof.
  induction s as [s IH] using by_ascii_length. intros Hall Hne.
  rewrite strip_unfold in Hall.
  destruct (strip_one is1 is2 is3 s) as [s'|] eqn:Hs; [|congruence].
  pose proof (strip_one_shorter _ _ Hs) as Hlt.
  apply strip_one_split in Hs as (sp & -> & _ & Hsp).
  destruct s' as [|b s'].
  - exists [], sp. now rewrite app_nil_r.
  - destruct (IH (b :: s') Hlt Hall ltac:(discriminate)) as (pre & sp' & -> & Hsp').
    exists (sp ++ pre), sp'. now rewrite app_assoc.
Qed.

End Runes.

Section Spaces.

Implicit Types (s r : list ascii).

Abbreviation first_space := (strip_one asciiSpace space2 space3).
Abbreviation last_space :=
  (strip_one asciiSpace (fun b0 b1 => space2 b1 b0)
     (fun b0 b1 b2 => space3 b2 b1 b0)).

Lemma asciiSpace_spec (ch : ascii) :
  asciiSpace ch = true
  <-> (9 <= N_of_ascii ch <= 13 \/ N_of_ascii ch = 32)%N.
Proof.
  unfold asciiSpace. cbv zeta.
  rewrite !orb_true_iff, !N.eqb_eq. lia.
Qed.

Lemma space2_spec (b0 b1 : ascii) :
  space2 b0 b1 = true
  <-> (N_of_ascii b0 = 194 /\ (N_of_ascii b1 = 133 \/ N_of_ascii b1 = 160))%N.
Proof.
  unfold space2, byte_is.
  rewrite andb_true_iff, orb_true_iff, !N.eqb_eq. tauto.
Qed.

Lemma space3_spec (b0 b1 b2 : ascii) :
  space3 b0 b1 b2 = true
  -> (225 <= N_of_ascii b0 <= 227 /\ 128 <= N_of_ascii b1 <= 154
      /\ 128 <= N_of_ascii b2)%N.
Proof.
  unfold space3, byte_is.
  rewrite !orb_true_iff, !andb_true_iff, !orb_true_iff, !andb_true_iff,
    !N.eqb_eq, !N.leb_le. lia.
Qed.

Lemma not_asciiSpace (ch : ascii) : (128 <= N_of_ascii ch)%N -> asciiSpace ch = false.
Proof.
  intros H. apply not_true_is_false. rewrite asciiSpace_spec. lia.
Qed.

Lemma not_space2 (b0 b1 : ascii) : N_of_ascii b0 <> 194%N -> space2 b0 b1 = false.
Proof.
  intros H. apply not_true_is_false. rewrite space2_spec. tauto.
Qed.

Lemma not_space3 (b0 b1 b2 : ascii) :
  (N_of_ascii b0 < 225)%N -> space3 b0 b1 b2 = false.
Proof.
  intros H. apply not_true_is_false. intros Hs%space3_spec. lia.
Qed.

(** The encoding of a white space rune, read from its last byte, is
    that rune. *)
Lemma last_space_of_first (sp : list ascii) :
  first_space sp = Some [] -> last_space (rev sp) = Some [].
Proof.
  destruct sp as [|a [|b [|x [|y rest]]]]; cbn [strip_one rev app];
    try discriminate.
  - now destruct (asciiSpace a).
  - destruct (asciiSpace a); [discriminate|].
    destruct (space2 a b) eqn:H2; [|discriminate]. intros _.
    apply space2_spec in H2 as H2'.
    rewrite not_asciiSpace by lia. reflexivity.
  - destruct (asciiSpace a); [discriminate|].
    destruct (space2 a b); [discriminate|].
    destruct (space3 a b x) eqn:H3; [|discriminate]. intros _.
    apply space3_spec in H3 as H3'.
    rewrite not_asciiSpace, not_space2 by lia. reflexivity.
  - destruct (asciiSpace a); [discriminate|].
    destruct (space2 a b); [discriminate|].
    destruct (space3 a b x); discriminate.
Qed.

(** A byte sequence is trimmed when it neither begins nor ends with a
    white space rune. *)
Lemma trimmed_TrimSpace s :
  let v := trimRight (trimLeft s) in
  first_space v = None /\ last_space (rev v) = None.
Proof.
  cbv zeta. unfold trimRight, trimLeft, trimReversed.
  set (u := strip asciiSpace space2 space3 s).
  set (w := strip asciiSpace _ _ (rev u)).
  split.
  - destruct (first_space (rev w)) as [x|] eqn:Hx; [|reflexivity].
    exfalso.
    destruct (strip_suffix asciiSpace (fun b0 b1 => space2 b1 b0)
                (fun b0 b1 b2 => space3 b2 b1 b0) (rev u)) as (pre & Hpre).
    fold w in Hpre. apply (f_equal (@rev ascii)) in Hpre.
    rewrite rev_involutive, rev_app_distr in Hpre.
    pose proof (strip_done asciiSpace space2 space3 s) as Hu. fold u in Hu.
    rewrite Hpre, (strip_one_app _ _ _ _ _ _ Hx) in Hu. discriminate.
  - rewrite rev_involutive. apply strip_done.
Qed.

Lemma TrimSpace_fixed s :
  first_space s = None -> last_space (rev s) = None ->
  trimRight (trimLeft s) = s.
Proof.
  intros Hf Hl. unfold trimRight, trimLeft, trimReversed.
  rewrite (strip_fixed _ _ _ s Hf), (strip_fixed _ _ _ (rev s) Hl).
  apply rev_involutive.
Qed.

(** Text after which ASCII follows does not come to end with a white
    space rune. *)
Lemma last_space_before_ascii r (x : list ascii) :
  r <> [] -> last_space r = None ->
  Forall (fun b => (N_of_ascii b < 128)%N) x ->
  last_space (r ++ x) = None.
Proof.
  intros Hne Hr Hx.
  destruct r as [|a [|b [|y r']]]; [done|..]; cbn [strip_one app] in *.
  - destruct (asciiSpace a); [discriminate|].
    destruct x as [|x0 [|x1 x']]; [reflexivity|..].
    + apply Forall_cons in Hx as [H0 _].
      rewrite not_space2 by lia. reflexivity.
    + apply Forall_cons in Hx as [H0 Hx]. apply Forall_cons in Hx as [H1 _].
      rewrite not_space2, not_space3 by lia. reflexivity.
  - destruct (asciiSpace a); [discriminate|].
    destruct (space2 b a); [discriminate|].
    destruct x as [|x0 x']; [reflexivity|].
    apply Forall_cons in Hx as [H0 _].
    rewrite not_space3 by lia. reflexivity.
  - destruct (asciiSpace a); [discriminate|].
    destruct (space2 b a); [discriminate|].
    destruct (space3 y b a); [discriminate | reflexivity].
Qed.

(** What follows the audio command in a trimmed line is not blank. *)
Lemma command_argument_not_blank (v cmd rest : list ascii) :
  first_space v = None -> last_space (rev v) = None ->
  v = cmd ++ rest ->
  last_space (rev cmd) <> None ->
  trimRight (trimLeft rest) <> [].
Proof.
  intros _ Hlast -> Hcmd.
  rewrite rev_app_distr in Hlast.
  assert (Hne : rest <> []).
  { intros ->. cbn [rev app] in Hlast. congruence. }
  assert (Hrest : last_space (rev rest) = None).
  { destruct (last_space (rev rest)) as [x|] eqn:Hx; [|reflexivity].
    rewrite (strip_one_app _ _ _ _ _ _ Hx) in Hlast. discriminate. }
  unfold trimRight, trimLeft, trimReversed.
  set (w := strip asciiSpace space2 space3 rest).
  destruct (strip_suffix asciiSpace space2 space3 rest) as (pre & Hpre).
  fold w in Hpre.
  assert (Hw : w <> []).
  { intros Hw.
    destruct (strip_all asciiSpace space2 space3 rest Hw Hne)
      as (pre' & sp & -> & Hsp).
    apply last_space_of_first in Hsp.
    rewrite rev_app_distr, (strip_one_app _ _ _ _ _ _ Hsp) in Hrest.
    discriminate. }
  assert (Hlw : last_space (rev w) = None).
  { destruct (last_space (rev w)) as [x|] eqn:Hx; [|reflexivity].
    rewrite Hpre, rev_app_distr, (strip_one_app _ _ _ _ _ _ Hx) in Hrest.
    discriminate. }
  rewrite (strip_fixed _ _ _ _ Hlw), rev_involutive. exact Hw.
Qed.

End Spaces.

(* ================================================================= *)
(** ** Commands                                                       *)
(* ================================================================= *)

Section Commands.

Implicit Types (c : ChatClient) (fs : FileSystem) (input line : string).

Lemma list_ascii_of_append (a b : string) :
  list_ascii_of_string (a +:+ b)
  = list_ascii_of_string a ++ list_ascii_of_string b.
Proof.
  induction a as [|ch a IH]; [reflexivity|].
  rewrite append_cons. cbn [list_ascii_of_string app]. now rewrite IH.
Qed.

Lemma HasPrefix_split (s prefix : string) :
  HasPrefix s prefix = true ->
  s = prefix +:+ str_drop (String.length prefix) s.
Proof.
  unfold HasPrefix. intros [_ Heq%String.eqb_eq]%andb_true_iff.
  pose proof (str_take_drop (String.length prefix) s) as H.
  now rewrite Heq in H.
Qed.

Lemma is_empty_true (s : string) : is_empty s = true <-> s = "".
Proof. destruct s; cbn; split; congruence. Qed.

Lemma string_of_list_ascii_nil (l : list ascii) :
  string_of_list_ascii l = "" <-> l = [].
Proof. destruct l; cbn; split; congruence. Qed.

(** The bytes of a trimmed string. *)
Lemma TrimSpace_bytes (s : string) :
  list_ascii_of_string (TrimSpace s)
  = trimRight (trimLeft (list_ascii_of_string s)).
Proof. unfold TrimSpace. apply list_ascii_of_string_of_list_ascii. Qed.

Lemma TrimSpace_idempotent (s : string) : TrimSpace (TrimSpace s) = TrimSpace s.
Proof.
  unfold TrimSpace at 1. rewrite TrimSpace_bytes.
  destruct (trimmed_TrimSpace (list_ascii_of_string s)) as [Hf Hl].
  now rewrite TrimSpace_fixed.
Qed.

(** X24. What [parseUserInput] returns. It fails only on a blank line,
    with "empty input": the check for a missing audio path can never
    fire, because the line has been trimmed before the command is
    looked for, so "/audio" followed by nothing but white space is a
    text message. Every message returned has a content that is not
    empty and is itself trimmed, and its type is one of the two
    constants. *)
Theorem parseUserInput_outcomes input :
  match parseUserInput input with
  | inl err => err = ErrNew "empty input" /\ TrimSpace input = ""
  | inr msg =>
      TrimSpace input <> "" /\
      um_Content msg <> "" /\
      TrimSpace (um_Content msg) = um_Content msg /\
      (um_Type msg = MessageType.AudioMessage
       /\ HasPrefix (TrimSpace input) "/audio " = true
       /\ um_Content msg = TrimSpace (TrimPrefix (TrimSpace input) "/audio ")
       \/ um_Type msg = MessageType.TextMessage
          /\ HasPrefix (TrimSpace input) "/audio " = false
          /\ um_Content msg = TrimSpace input)
  end.
Proof.
  unfold parseUserInput. cbv zeta.
  destruct (is_empty (TrimSpace input)) eqn:Hblank.
  - cbv beta iota. split; [reflexivity | now apply is_empty_true].
  - assert (Hne : TrimSpace input <> "").
    { intros H. apply is_empty_true in H. congruence. }
    destruct (HasPrefix (TrimSpace input) "/audio ") eqn:Hcmd.
    + assert (Harg : TrimSpace (TrimPrefix (TrimSpace input) "/audio ") <> "").
      { unfold TrimPrefix. rewrite Hcmd.
        apply HasPrefix_split in Hcmd.
        apply (f_equal list_ascii_of_string) in Hcmd.
        rewrite list_ascii_of_append in Hcmd.
        destruct (trimmed_TrimSpace (list_ascii_of_string input)) as [Hf Hl].
        rewrite <- TrimSpace_bytes in Hf, Hl.
        unfold TrimSpace at 1. rewrite string_of_list_ascii_nil.
        apply (command_argument_not_blank _ _ _ Hf Hl Hcmd). discriminate. }
      destruct (is_empty (TrimSpace (TrimPrefix (TrimSpace input) "/audio ")))
        eqn:He; [apply is_empty_true in He; contradiction|].
      cbv beta iota. cbn [um_Content um_Type].
      split; [exact Hne|]. split; [exact Harg|].
      split; [apply TrimSpace_idempotent|]. left. now repeat split.
    + cbv beta iota. cbn [um_Content um_Type].
      split; [exact Hne|]. split; [exact Hne|].
      split; [apply TrimSpace_idempotent|]. right. now repeat split.
Qed.

Lemma trimmed_bytes (p : string) :
  TrimSpace p = p ->
  strip_one asciiSpace space2 space3 (list_ascii_of_string p) = None
  /\ strip_one asciiSpace (fun b0 b1 => space2 b1 b0)
       (fun b0 b1 b2 => space3 b2 b1 b0) (rev (list_ascii_of_string p)) = None.
Proof.
  intros Hp. pose proof (trimmed_TrimSpace (list_ascii_of_string p)) as H.
  cbv zeta in H. now rewrite <- TrimSpace_bytes, Hp in H.
Qed.

(** X25. The audio command. For a path that is not empty and neither
    begins nor ends with white space, the line "/audio " followed by
    the path is an audio message for exactly that path (white space
    inside the path is kept); the path alone, when it does not itself
    begin with "/audio ", is a text message. *)
Theorem parseUserInput_commands (p : string) :
  TrimSpace p = p -> p <> "" ->
  parseUserInput ("/audio " +:+ p)
  = inr {| um_Type := MessageType.AudioMessage; um_Content := p |}
  /\ (HasPrefix p "/audio " = false ->
      parseUserInput p
      = inr {| um_Type := MessageType.TextMessage; um_Content := p |}).
Proof.
  intros Hp Hne.
  assert (Hblank : is_empty p = false).
  { destruct (is_empty p) eqn:He; [apply is_empty_true in He; contradiction|].
    reflexivity. }
  split.
  - assert (Hline : TrimSpace ("/audio " +:+ p) = "/audio " +:+ p).
    { destruct (trimmed_bytes p Hp) as [_ Hl].
      unfold TrimSpace. rewrite TrimSpace_fixed.
      - apply string_of_list_ascii_of_string.
      - reflexivity.
      - rewrite list_ascii_of_append, rev_app_distr.
        apply last_space_before_ascii; [|exact Hl|].
        + intros H%(f_equal (@rev ascii)). rewrite rev_involutive in H.
          cbn in H. destruct p; [contradiction | discriminate].
        + repeat (constructor; [reflexivity|]). constructor. }
    unfold parseUserInput. cbv zeta. rewrite Hline.
    rewrite HasPrefix_append, TrimPrefix_append, Hp, Hblank.
    reflexivity.
  - intros Hcmd. unfold parseUserInput. cbv zeta.
    now rewrite Hp, Hblank, Hcmd.
Qed.

Lemma parseUserInput_commands_witness :
  parseUserInput "/audio my recording.wav"
  = inr {| um_Type := MessageType.AudioMessage;
           um_Content := "my recording.wav" |}
  /\ parseUserInput "my recording.wav"
     = inr {| um_Type := MessageType.TextMessage;
              um_Content := "my recording.wav" |}.
Proof.
  destruct (parseUserInput_commands "my recording.wav") as [Haudio Htext].
  - vm_compute. reflexivity.
  - discriminate.
  - split; [exact Haudio | apply Htext; vm_compute; reflexivity].
Defined.



Lemma sendMessage_total c fs (msg : UserMessage) : is_Some (sendMessage c fs msg).
Proof.
  unfold sendMessage.
  destruct (um_Type msg =? MessageType.TextMessage); [eexists; reflexivity|].
  destruct (um_Type msg =? MessageType.AudioMessage); [|eexists; reflexivity].
  apply sendAudioMessage_total.
Qed.

Lemma inputLoop_total (lines : list string) :
  forall c fs, is_Some (inputLoop c fs lines).
Proof.
  induction lines as [|line rest IH]; intros c fs; cbn [inputLoop].
  - eexists; reflexivity.
  - cbv zeta. destruct (_ || _); [eexists; reflexivity|].
    destruct (negb _); [|apply IH].
    destruct (parseUserInput _) as [err|msg]; [apply IH|].
    destruct (sendMessage_total c fs msg) as [[err c'] ->]. apply IH.
Qed.

(** X27. The input loop ends at the quit command. For lines none of
    which is ".quit" or ".exit" once trimmed, followed by one that
    is, the loop ends with the client in the state the lines before
    the command have brought it to: nothing that comes after the
    command is parsed or sent. The loop returns on every input. *)
Theorem inputLoop_stops_at_quit (before : list string) (quit : string)
    (after : list string) :
  forall c fs,
    Forall (fun line => is_quit line = false) before ->
    is_quit quit = true ->
    exists c',
      inputLoop c fs (before ++ quit :: after) = Some c' /\
      inputLoop c fs before = Some c'.
Proof.
  induction before as [|line rest IH]; intros c fs Hbefore Hquit.
  - exists c. cbn [app inputLoop]. cbv zeta.
    unfold is_quit in Hquit. cbv zeta in Hquit. rewrite Hquit. now split.
  - apply Forall_cons in Hbefore as [Hline Hrest].
    cbn [app inputLoop]. cbv zeta.
    unfold is_quit in Hline. cbv zeta in Hline. rewrite Hline.
    destruct (negb _); [|now apply IH].
    destruct (parseUserInput _) as [err|msg]; [now apply IH|].
    destruct (sendMessage_total c fs msg) as [[err c1] ->]. now apply IH.
Qed.

Lemma inputLoop_stops_at_quit_witness :
  let c := NewChatClient (dial (fun _ => None)) DefaultConfig in
  exists c',
    inputLoop c (healthy_fs ∅) ["hello"; "   "; "  .quit "; "never sent"] = Some c' /\
    conn_sent (Conn c') = [textItem "hello"; ResponseCreate "response.create"].
Proof.
  cbv zeta.
  destruct (inputLoop_stops_at_quit ["hello"; "   "] "  .quit " ["never sent"]
              (NewChatClient (dial (fun _ => None)) DefaultConfig) (healthy_fs ∅))
    as (c' & Hrun & Hbefore).
  - repeat (constructor; [vm_compute; reflexivity|]). constructor.
  - vm_compute. reflexivity.
  - exists c'. split; [exact Hrun|].
    vm_compute in Hbefore. injection Hbefore as <-. reflexivity.
Defined.

End Commands.
